(** * Dual-position morphing scene: shallow embedding and verified properties

  The TypeScript sources are embedded function by function.  JavaScript
  numbers are read as mathematical real numbers (no rounding), and every
  call of [Math.random()] takes the next draw of an explicit random
  source, so that a statement can quantify over "every choice of the
  underlying draws". *)

From Stdlib Require Import Reals Lra Lia ZArith List Bool String.
From Stdlib Require Import DecimalString.
From Stdlib Require DecimalZ DecimalPos.
Import ListNotations.

Open Scope R_scope.

(* ===================================================================== *)
(** * The slice of three.js the sources call *)
(* ===================================================================== *)

Module Three.

Record Vector3 : Type := mkVector3 { vx : R; vy : R; vz : R }.

Record Euler : Type := mkEuler { ex : R; ey : R; ez : R }.

(** [THREE.MathUtils.lerp(x, y, t)]: no clamping of [t]. *)
Definition lerp (x y t : R) : R := (1 - t) * x + t * y.

(** [THREE.MathUtils.clamp(value, min, max)]. *)
Definition clamp (value lo hi : R) : R := Rmax lo (Rmin hi value).

(** [Vector3.length()]. *)
Definition length (v : Vector3) : R :=
  sqrt (vx v * vx v + vy v * vy v + vz v * vz v).

Definition add (a b : Vector3) : Vector3 :=
  mkVector3 (vx a + vx b) (vy a + vy b) (vz a + vz b).

Definition multiplyScalar (a : Vector3) (s : R) : Vector3 :=
  mkVector3 (vx a * s) (vy a * s) (vz a * s).

Definition divideScalar (a : Vector3) (s : R) : Vector3 :=
  multiplyScalar a (1 / s).

(** [Vector3.normalize()] is [divideScalar(length() || 1)]: the zero
    vector is left as it is. *)
Definition normalize (a : Vector3) : Vector3 :=
  divideScalar a (if Req_dec_T (length a) 0 then 1 else length a).

(** [target.lerpVectors(v1, v2, alpha)]. *)
Definition lerpVectors (v1 v2 : Vector3) (alpha : R) : Vector3 :=
  mkVector3 (vx v1 + (vx v2 - vx v1) * alpha)
            (vy v1 + (vy v2 - vy v1) * alpha)
            (vz v1 + (vz v2 - vz v1) * alpha).

(** [v.lerp(target, alpha)]. *)
Definition vlerp (v target : Vector3) (alpha : R) : Vector3 :=
  mkVector3 (vx v + (vx target - vx v) * alpha)
            (vy v + (vy target - vy v) * alpha)
            (vz v + (vz target - vz v) * alpha).

Definition distanceTo (a b : Vector3) : R :=
  sqrt ((vx a - vx b) * (vx a - vx b) + (vy a - vy b) * (vy a - vy b)
        + (vz a - vz b) * (vz a - vz b)).

End Three.

(* ===================================================================== *)
(** * An injectable random source *)
(* ===================================================================== *)

Module Random.

(** The k-th call of [Math.random()] returns [src k]. *)
Definition Source : Type := nat -> R.

(** Every draw lies in [0, 1), as [Math.random()] promises. *)
Definition uniform (src : Source) : Prop := forall k, 0 <= src k < 1.

(** A computation that consumes draws: it reads the source from a cursor
    and returns its result with the cursor moved on. *)
Definition Rand (A : Type) : Type := Source -> nat -> A * nat.

Definition ret {A} (a : A) : Rand A := fun _ n => (a, n).

Definition bind {A B} (m : Rand A) (f : A -> Rand B) : Rand B :=
  fun src n => let (a, n') := m src n in f a src n'.

Definition random : Rand R := fun src n => (src n, S n).

Definition run {A} (m : Rand A) (src : Source) (n : nat) : A := fst (m src n).

(** [for (let i = start; i < start + count; i++) out.push(body(i))]. *)
Fixpoint forPush {A} (count : nat) (start : nat) (body : nat -> Rand A)
  : Rand (list A) :=
  match count with
  | O => ret []
  | S c =>
      bind (body start) (fun a =>
      bind (forPush c (S start) body) (fun rest => ret (a :: rest)))
  end.

End Random.

Declare Scope rand_scope.
Delimit Scope rand_scope with rand.
Notation "x <- m ;; k" := (Random.bind m (fun x => k))
  (at level 61, m at next level, right associativity) : rand_scope.

(* ===================================================================== *)
(** * src/utils/math.ts *)
(* ===================================================================== *)

Module MathUtil.
Import Three Random.

Definition TREE_HEIGHT : R := 12.
Definition TREE_RADIUS_BOTTOM : R := 5.5.
Definition SCATTER_RADIUS : R := 15.

(** [Math.cbrt]: the real cube root, odd in its argument. *)
Definition cbrt (x : R) : R :=
  match total_order_T x 0 with
  | inleft (left _) => - exp (ln (- x) / 3)
  | inleft (right _) => 0
  | inright _ => exp (ln x / 3)
  end.

Definition getScatterPoint (radius : R) : Rand Vector3 :=
  (u <- random ;;
   v <- random ;;
   let theta := 2 * PI * u in
   let phi := acos (2 * v - 1) in
   w <- random ;;
   let r := cbrt w * radius in
   let x := r * sin phi * cos theta in
   let y := r * sin phi * sin theta in
   let z := r * cos phi in
   ret (mkVector3 x y z))%rand.

Definition getTreePoint (height radius yOffset : R) : Rand Vector3 :=
  (h <- random ;;
   let y := h * height + yOffset in
   let maxR := radius * (1 - h) in
   s <- random ;;
   let r := maxR * (0.2 + 0.8 * sqrt s) in
   a <- random ;;
   let theta := a * PI * 2 in
   let x := r * cos theta in
   let z := r * sin theta in
   ret (mkVector3 x y z))%rand.

(** The default arguments of the two generators. *)
Definition getScatterPoint_default : Rand Vector3 :=
  getScatterPoint SCATTER_RADIUS.

Definition getTreePoint_default : Rand Vector3 :=
  getTreePoint TREE_HEIGHT TREE_RADIUS_BOTTOM (- TREE_HEIGHT / 2).

Definition randomRange (lo hi : R) : Rand R :=
  (d <- random ;; ret (d * (hi - lo) + lo))%rand.

(** Distance of a point from the vertical axis. *)
Definition radial (p : Vector3) : R := sqrt (vx p * vx p + vz p * vz p).

End MathUtil.

(* ===================================================================== *)
(** * src/types.ts *)
(* ===================================================================== *)

Module Types.
Import Three.

Inductive TreeState : Type := SCATTERED | TREE_SHAPE | FOCUS.

Definition TreeState_eqb (a b : TreeState) : bool :=
  match a, b with
  | SCATTERED, SCATTERED | TREE_SHAPE, TREE_SHAPE | FOCUS, FOCUS => true
  | _, _ => false
  end.

Inductive OrnamentType : Type := SPHERE | BOX.

(** A [THREE.Color], kept as the hexadecimal string it is built from. *)
Definition Color : Type := string.

(** [OrnamentData extends DualPosition]. *)
Record OrnamentData : Type := mkOrnamentData {
  od_type : OrnamentType;
  od_tree : Vector3;
  od_scatter : Vector3;
  od_rotation : Euler;
  od_scale : R;
  od_speed : R;
  od_color : option Color
}.

(** [UserPhotoData extends DualPosition]. *)
Record UserPhotoData : Type := mkUserPhotoData {
  pd_id : string;
  pd_url : string;
  pd_tree : Vector3;
  pd_scatter : Vector3;
  pd_rotation : Euler;
  pd_scale : R;
  pd_speed : R
}.

End Types.

(* ===================================================================== *)
(** * src/components/Foliage.tsx: the morph uniform *)
(* ===================================================================== *)

Module Foliage.
Import Three Types.

Record Uniforms : Type := mkUniforms { uTime : R; uMorphFactor : R }.

(** [FoliageShaderMaterial.uniforms] as declared. *)
Definition initialUniforms : Uniforms := mkUniforms 0 0.

(** The vertex shader's easing of the morph factor. *)
Definition easeInOutCubic (x : R) : R :=
  if Rlt_dec x 0.5 then 4 * x * x * x else 1 - (-2 * x + 2) ^ 3 / 2.

(** The [useFrame] callback; [shaderRef.current] may still be null. *)
Definition useFrame (state : TreeState) (elapsedTime delta : R)
    (shaderRef : option Uniforms) : option Uniforms :=
  match shaderRef with
  | None => None
  | Some u =>
      let targetFactor := if TreeState_eqb state TREE_SHAPE then 1 else 0 in
      let currentFactor := uMorphFactor u in
      let speed := 2 in
      Some (mkUniforms elapsedTime
              (lerp currentFactor targetFactor (speed * delta)))
  end.

(** Frame after frame with the mode held fixed; every frame brings its
    own elapsed time and delta. *)
Fixpoint run (state : TreeState) (frames : list (R * R))
    (shaderRef : option Uniforms) : option Uniforms :=
  match frames with
  | [] => shaderRef
  | (time, delta) :: rest => run state rest (useFrame state time delta shaderRef)
  end.

End Foliage.

(* ===================================================================== *)
(** * src/components/Ornaments.tsx *)
(* ===================================================================== *)

Module Ornaments.
Import Three Random MathUtil Types.

(** What [tempObj] holds when [updateMatrix()] composes the instance
    matrix: position, Euler rotation and a uniform scale. *)
Record Transform : Type := mkTransform {
  position : Vector3;
  rotation : Euler;
  scale : R
}.

(** An [InstancedMesh]: [userData.morphValue] (absent until the first
    frame) and the per-instance matrix buffer. *)
Record InstancedMesh : Type := mkInstancedMesh {
  morphValue : option R;
  instanceMatrix : list Transform
}.

(** [mesh.setMatrixAt(i, m)] writes into a typed array: a write past
    the end is dropped. *)
Fixpoint setMatrixAt (i : nat) (m : Transform) (buf : list Transform)
  : list Transform :=
  match buf, i with
  | [], _ => []
  | _ :: rest, O => m :: rest
  | b :: rest, S j => b :: setMatrixAt j m rest
  end.

(** A freshly constructed mesh with [count] instances (identity
    matrices) and empty [userData]. *)
Definition identityTransform : Transform :=
  mkTransform (mkVector3 0 0 0) (mkEuler 0 0 0) 1.

Definition newMesh (count : nat) : InstancedMesh :=
  mkInstancedMesh None (repeat identityTransform count).

(** [colorPalette[Math.floor(d * colorPalette.length)]]. *)
Definition pickColor (palette : list Color) (d : R) : option Color :=
  let k := Zfloor (d * INR (List.length palette)) in
  if (k <? 0)%Z then None else nth_error palette (Z.to_nat k).

(** One iteration of the loop of [generateOrnamentData]. *)
Definition generateOrnament (type : OrnamentType) (colorPalette : list Color)
  : Rand OrnamentData :=
  (treePos <- getTreePoint 12 5.0 (-6) ;;
   let radialDir := normalize (mkVector3 (vx treePos) 0 (vz treePos)) in
   let treePos := add treePos (multiplyScalar radialDir 0.4) in
   scatterPos <- getScatterPoint 20 ;;
   rx <- random ;;
   ry <- random ;;
   scale <- randomRange 0.8 1.5 ;;
   speed <- randomRange 0.5 2.0 ;;
   c <- random ;;
   ret (mkOrnamentData type treePos scatterPos
          (mkEuler (rx * PI) (ry * PI) 0) scale speed
          (pickColor colorPalette c)))%rand.

Definition generateOrnamentData (count : nat) (type : OrnamentType)
    (colorPalette : list Color) : Rand (list OrnamentData) :=
  forPush count 0 (fun _ => generateOrnament type colorPalette).

(** [floatAmp]: the amplitude of the idle motion at morph value [t]. *)
Definition floatAmp (t : R) : R := (1 - t) * 0.5.

(** The body of the instance loop of [updateInstances] for index [i]. *)
Definition instanceTransform (i : nat) (item : OrnamentData) (t time : R)
  : Transform :=
  let v := lerpVectors (od_scatter item) (od_tree item) t in
  let amp := floatAmp t in
  let y := vy v + sin (time * od_speed item + INR i) * amp in
  let x := vx v + cos (time * od_speed item * 0.5 + INR i) * amp in
  let rotX := ex (od_rotation item) + time * 0.2 * (1 - t) in
  let rotY := ey (od_rotation item) + time * 0.5 * (1 - t) in
  mkTransform (mkVector3 x y (vz v))
              (mkEuler rotX rotY (ez (od_rotation item)))
              (od_scale item * (t * 0.5 + 0.5)).

(** [for (let i = ...; i < data.length; i++) { ...; mesh.setMatrixAt(i, ...) }]. *)
Fixpoint instanceLoop (i : nat) (data : list OrnamentData) (t time : R)
    (buf : list Transform) : list Transform :=
  match data with
  | [] => buf
  | item :: rest =>
      instanceLoop (S i) rest t time
        (setMatrixAt i (instanceTransform i item t time) buf)
  end.

(** The morph value a mesh animates from: [undefined] is replaced by 0. *)
Definition currentMorph (mesh : InstancedMesh) : R :=
  match morphValue mesh with None => 0 | Some v => v end.

Definition updateInstances (mesh : option InstancedMesh)
    (data : list OrnamentData) (targetMorph time delta : R)
  : option InstancedMesh :=
  match mesh with
  | None => None
  | Some m =>
      let speed := 1.5 in
      let t := lerp (currentMorph m) targetMorph (speed * delta) in
      Some (mkInstancedMesh (Some t)
              (instanceLoop 0 data t time (instanceMatrix m)))
  end.

(** The four instanced groups of the component with their data. *)
Record Groups : Type := mkGroups {
  goldRef : option InstancedMesh;     goldData : list OrnamentData;
  ceramicRef : option InstancedMesh;  ceramicData : list OrnamentData;
  satinRef : option InstancedMesh;    satinData : list OrnamentData;
  boxesRef : option InstancedMesh;    boxData : list OrnamentData
}.

Definition targetMorphOf (state : TreeState) : R :=
  if TreeState_eqb state TREE_SHAPE then 1 else 0.

Definition useFrame (state : TreeState) (time delta : R) (g : Groups) : Groups :=
  let targetMorph := targetMorphOf state in
  mkGroups
    (updateInstances (goldRef g) (goldData g) targetMorph time delta) (goldData g)
    (updateInstances (ceramicRef g) (ceramicData g) targetMorph time delta) (ceramicData g)
    (updateInstances (satinRef g) (satinData g) targetMorph time delta) (satinData g)
    (updateInstances (boxesRef g) (boxData g) targetMorph time delta) (boxData g).

(** [Math.floor(count * share)], a population size. *)
Definition share (count : nat) (fraction : R) : nat :=
  Z.to_nat (Zfloor (INR count * fraction)).

(** The four [useMemo] data sets, generated one after the other, and
    the meshes React constructs for them. *)
Definition mount (count : nat) : Rand Groups :=
  (goldD <- generateOrnamentData (share count 0.3) SPHERE ["#E2C99E"%string] ;;
   ceramicD <- generateOrnamentData (share count 0.4) SPHERE
                 ["#023E28"%string; "#852736"%string] ;;
   satinD <- generateOrnamentData (share count 0.3) SPHERE
               ["#414B9E"%string; "#AA74A0"%string] ;;
   boxD <- generateOrnamentData (share count 0.15) BOX
             ["#E2C99E"%string; "#852736"%string; "#414B9E"%string] ;;
   ret (mkGroups
          (Some (newMesh (List.length goldD))) goldD
          (Some (newMesh (List.length ceramicD))) ceramicD
          (Some (newMesh (List.length satinD))) satinD
          (Some (newMesh (List.length boxD))) boxD))%rand.

(** Frame after frame with the mode held fixed; every frame brings its
    own elapsed time and delta. *)
Fixpoint run (state : TreeState) (frames : list (R * R)) (g : Groups) : Groups :=
  match frames with
  | [] => g
  | (time, delta) :: rest => run state rest (useFrame state time delta g)
  end.

Fixpoint runMesh (data : list OrnamentData) (targetMorph : R)
    (frames : list (R * R)) (mesh : option InstancedMesh) : option InstancedMesh :=
  match frames with
  | [] => mesh
  | (time, delta) :: rest =>
      runMesh data targetMorph rest (updateInstances mesh data targetMorph time delta)
  end.

(** After its frame the mesh is there and its morph value is one
    smoothing step from [p0] towards the target of the mode. *)
Definition startsFrom (p0 : R) (state : TreeState) (delta : R)
    (mesh : option InstancedMesh) : Prop :=
  exists m,
    mesh = Some m
    /\ currentMorph m = lerp p0 (targetMorphOf state) (1.5 * delta).

(** Where [generateOrnamentData] places an entity: the tree position
    inside the cone pushed outwards by 0.4, the scatter position inside
    the sphere of radius 20. *)
Definition wellPlaced (item : OrnamentData) : Prop :=
  -5.4 <= vx (od_tree item) <= 5.4
  /\ -6 <= vy (od_tree item) <= 6
  /\ -5.4 <= vz (od_tree item) <= 5.4
  /\ length (od_scatter item) <= 20.

(** The group has reached the tree: its mesh is there, its morph value
    is above 0.95, the idle amplitude is below 0.05, and every instance
    sits within [epsilon] of the tree position of its entity. *)
Definition formedWithin (epsilon : R) (mesh : option InstancedMesh)
    (data : list OrnamentData) : Prop :=
  exists m,
    mesh = Some m
    /\ 0.95 < currentMorph m
    /\ floatAmp (currentMorph m) < 0.05
    /\ forall i item,
         nth_error data i = Some item ->
         exists tr,
           nth_error (instanceMatrix m) i = Some tr
           /\ distanceTo (position tr) (od_tree item) < epsilon.

End Ornaments.

(* ===================================================================== *)
(** * src/components/Gifts.tsx *)
(* ===================================================================== *)

Module Gifts.
Import Three Random MathUtil Types.
Import Ornaments.

Definition count : nat := 40.

(** One iteration of the data loop of the [useMemo]. *)
Definition generateGift : Rand OrnamentData :=
  (let bottomY := - TREE_HEIGHT / 2 in
   scatterPos <- getScatterPoint 20 ;;
   r <- randomRange 2 (TREE_RADIUS_BOTTOM + 2) ;;
   a <- random ;;
   let theta := a * PI * 2 in
   let x := r * cos theta in
   let z := r * sin theta in
   b <- random ;;
   let y := bottomY + b * 2 in
   let treePos := mkVector3 x y z in
   rand <- random ;;
   selectedColor <-
     (if Rlt_dec rand 0.40 then ret "#E2C99E"%string
      else if Rlt_dec rand 0.75 then ret "#852736"%string
      else if Rlt_dec rand 0.85 then ret "#023E28"%string
      else (c <- random ;;
            ret (if Rgt_dec c 0.5 then "#414B9E"%string else "#AA74A0"%string))) ;;
   ry <- random ;;
   scale <- randomRange 1.0 1.5 ;;
   speed <- randomRange 0.5 1.5 ;;
   ret (mkOrnamentData BOX treePos scatterPos (mkEuler 0 (ry * PI * 2) 0)
          scale speed (Some selectedColor)))%rand.

Definition generateData : Rand (list OrnamentData) :=
  forPush count 0 (fun _ => generateGift).

(** The body of the instance loop of the [useFrame] callback. *)
Definition instanceTransform (i : nat) (item : OrnamentData) (t time : R)
  : Transform :=
  let v := lerpVectors (od_scatter item) (od_tree item) t in
  let y := if Rlt_dec t 0.99
           then vy v + sin (time * od_speed item + INR i) * 0.2 * (1 - t)
           else vy v in
  let rotY := ey (od_rotation item) + time * 0.5 * (1 - t) in
  mkTransform (mkVector3 (vx v) y (vz v))
              (mkEuler (ex (od_rotation item) * (1 - t)) rotY
                       (ez (od_rotation item) * (1 - t)))
              (od_scale item).

Fixpoint instanceLoop (i : nat) (data : list OrnamentData) (t time : R)
    (buf : list Transform) : list Transform :=
  match data with
  | [] => buf
  | item :: rest =>
      instanceLoop (S i) rest t time
        (setMatrixAt i (instanceTransform i item t time) buf)
  end.

Definition useFrame (state : TreeState) (data : list OrnamentData)
    (time delta : R) (meshRef : option InstancedMesh) : option InstancedMesh :=
  match meshRef with
  | None => None
  | Some m =>
      let targetMorph := if TreeState_eqb state TREE_SHAPE then 1 else 0 in
      let t := lerp (currentMorph m) targetMorph (1.5 * delta) in
      Some (mkInstancedMesh (Some t)
              (instanceLoop 0 data t time (instanceMatrix m)))
  end.

Fixpoint run (state : TreeState) (data : list OrnamentData)
    (frames : list (R * R)) (meshRef : option InstancedMesh) : option InstancedMesh :=
  match frames with
  | [] => meshRef
  | (time, delta) :: rest =>
      run state data rest (useFrame state data time delta meshRef)
  end.

End Gifts.

(* ===================================================================== *)
(** * src/components/UserPhotos.tsx *)
(* ===================================================================== *)

(** The quaternion operations of three.js that [PhotoFrame] calls; the
    component is written against this interface. *)
Class QuaternionOps (Q : Type) : Type := {
  qidentity : Q;
  setFromEuler : Three.Euler -> Q;
  (** [a.premultiply(b)] *)
  premultiply : Q -> Q -> Q;
  invert : Q -> Q;
  (** [a.slerp(b, t)] *)
  slerp : Q -> Q -> R -> Q
}.

Module UserPhotos.
Import Three Random MathUtil Types.

(** How a template literal prints an integer. *)
Definition numberToString (k : Z) : string :=
  NilZero.string_of_int (Z.to_int k).

(** [`photo-${index}`]. *)
Definition photoId (index : nat) : string :=
  ("photo-" ++ numberToString (Z.of_nat index))%string.

(** The callback of [photos.map] inside the [useMemo]. *)
Definition generatePhoto (url : string) (index : nat) : Rand UserPhotoData :=
  (treePos <- getTreePoint 10 5 (-5) ;;
   let radialDir := normalize (mkVector3 (vx treePos) 0 (vz treePos)) in
   let treePos := add treePos (multiplyScalar radialDir 0.8) in
   scatter <- getScatterPoint 18 ;;
   ry <- random ;;
   scale <- randomRange 0.8 1.2 ;;
   speed <- randomRange 0.5 1.5 ;;
   ret (mkUserPhotoData (photoId index) url treePos scatter
          (mkEuler 0 (ry * PI * 2) 0) scale speed))%rand.

Fixpoint mapFrom (index : nat) (photos : list string) : Rand (list UserPhotoData) :=
  match photos with
  | [] => ret []
  | url :: rest =>
      (d <- generatePhoto url index ;;
       ds <- mapFrom (S index) rest ;;
       ret (d :: ds))%rand
  end.

Definition photosData (photos : list string) : Rand (list UserPhotoData) :=
  mapFrom 0 photos.

(** A photo entity with the first id, to run the component on. *)
Definition samplePhoto : UserPhotoData :=
  mkUserPhotoData (photoId 0) "blob:photo" (mkVector3 3 1 0) (mkVector3 0 0 12)
    (mkEuler 0 0 0) 1 1.

(** [focusedId === data.id] with [focusedId : string | null]. *)
Definition isFocusedOf (focusedId : option string) (data : UserPhotoData) : bool :=
  match focusedId with
  | Some f => String.eqb f (pd_id data)
  | None => false
  end.

Section PhotoFrame.
Context {Q : Type} {qops : QuaternionOps Q}.

Record Camera : Type := mkCamera {
  cam_position : Vector3;
  cam_worldDirection : Vector3;
  cam_quaternion : Q
}.

(** [groupRef.current.parent], the rotating main group. *)
Record Parent : Type := mkParent {
  worldToLocal : Vector3 -> Vector3;
  getWorldQuaternion : Q
}.

(** What one call of the frame callback reads from the scene. *)
Record FrameEnv : Type := mkFrameEnv {
  elapsedTime : R;
  camera : Camera;
  parent : option Parent
}.

(** The photo's own group: the transform handed to the renderer. *)
Record Group : Type := mkGroup {
  position : Vector3;
  quaternion : Q;
  scale : Vector3
}.

Record PhotoFrameState : Type := mkPhotoFrameState {
  groupRef : option Group;
  focusDistance : R;
  (** is [handleWheel] registered on [window]? *)
  wheelListener : bool;
  (** the dependency array [isFocused, state] of the last effect run *)
  effectDeps : option (bool * TreeState)
}.

(** A photo frame as React mounts it. *)
Definition mountFrame : PhotoFrameState :=
  mkPhotoFrameState
    (Some (mkGroup (mkVector3 0 0 0) qidentity (mkVector3 1 1 1)))
    15.0 false None.

(** [handleWheel]. *)
Definition handleWheel (deltaY : R) (s : PhotoFrameState) : PhotoFrameState :=
  let zoomSpeed := 0.02 in
  mkPhotoFrameState (groupRef s)
    (clamp (focusDistance s + deltaY * zoomSpeed) 5.0 40.0)
    (wheelListener s) (effectDeps s).

(** A [wheel] event on [window] reaches the handler only while it is
    registered. *)
Definition wheel (deltaY : R) (s : PhotoFrameState) : PhotoFrameState :=
  if wheelListener s then handleWheel deltaY s else s.

(** One run of the scroll-to-zoom effect: the cleanup of the previous run
    removes its listener, then the body runs with the new props. *)
Definition zoomEffect (isFocused : bool) (state : TreeState)
    (s : PhotoFrameState) : PhotoFrameState :=
  if negb isFocused || negb (TreeState_eqb state FOCUS)
  then mkPhotoFrameState (groupRef s) (focusDistance s) false
         (Some (isFocused, state))
  else mkPhotoFrameState (groupRef s) 15.0 true (Some (isFocused, state)).

(** A render with the given props: the effect runs on mount and when a
    dependency changed. *)
Definition render (isFocused : bool) (state : TreeState)
    (s : PhotoFrameState) : PhotoFrameState :=
  match effectDeps s with
  | Some (f, st) =>
      if Bool.eqb f isFocused && TreeState_eqb st state then s
      else zoomEffect isFocused state s
  | None => zoomEffect isFocused state s
  end.

(** The three targets the frame callback computes. *)
Definition targets (data : UserPhotoData) (state : TreeState)
    (isFocused : bool) (env : FrameEnv) (s : PhotoFrameState)
  : Vector3 * Q * R :=
  let time := elapsedTime env in
  if TreeState_eqb state FOCUS && isFocused then
    let distance := focusDistance s in
    let forward := cam_worldDirection (camera env) in
    let targetWorldPos :=
      add (cam_position (camera env)) (multiplyScalar forward distance) in
    match parent env with
    | Some p =>
        (worldToLocal p targetWorldPos,
         premultiply (cam_quaternion (camera env)) (invert (getWorldQuaternion p)),
         2.0)
    | None => (targetWorldPos, cam_quaternion (camera env), 2.0)
    end
  else if TreeState_eqb state TREE_SHAPE then
    (pd_tree data,
     setFromEuler (mkEuler (ex (pd_rotation data)) (ey (pd_rotation data))
                           (ez (pd_rotation data))),
     pd_scale data)
  else
    let p := pd_scatter data in
    let y := vy p + sin (time * pd_speed data) * 0.5 in
    let x := vx p + cos (time * pd_speed data * 0.5) * 0.5 in
    (mkVector3 x y (vz p),
     setFromEuler (mkEuler (ex (pd_rotation data) + time * 0.2)
                           (ey (pd_rotation data) + time * 0.3)
                           (ez (pd_rotation data))),
     pd_scale data).

Definition useFrame (data : UserPhotoData) (state : TreeState)
    (isFocused : bool) (env : FrameEnv) (s : PhotoFrameState) : PhotoFrameState :=
  match groupRef s with
  | None => s
  | Some g =>
      let '(targetPos, targetRot, targetScale) := targets data state isFocused env s in
      let lerpFactor := 0.1 in
      mkPhotoFrameState
        (Some (mkGroup
                 (vlerp (position g) targetPos lerpFactor)
                 (slerp (quaternion g) targetRot lerpFactor)
                 (vlerp (scale g) (mkVector3 targetScale targetScale targetScale)
                        lerpFactor)))
        (focusDistance s) (wheelListener s) (effectDeps s)
  end.

(** What can happen to a mounted photo between two renders. *)
Inductive Event : Type :=
  | Wheel (deltaY : R)
  | Frame (env : FrameEnv).

(** React renders the frame with the current props (running the effect
    when its dependencies changed), then the event is delivered. *)
Definition step (data : UserPhotoData) (state : TreeState)
    (focusedId : option string) (ev : Event) (s : PhotoFrameState)
  : PhotoFrameState :=
  let isFocused := isFocusedOf focusedId data in
  let s := render isFocused state s in
  match ev with
  | Wheel deltaY => wheel deltaY s
  | Frame env => useFrame data state isFocused env s
  end.

(** One photo through a sequence of steps. *)
Fixpoint runPhoto (data : UserPhotoData)
    (steps : list (TreeState * option string * Event)) (s : PhotoFrameState)
  : PhotoFrameState :=
  match steps with
  | [] => s
  | (state, focusedId, ev) :: rest =>
      runPhoto data rest (step data state focusedId ev s)
  end.

(** React keeps the frames whose key [photo-i] is still there, with
    their refs, hands them the regenerated data, and mounts the new ones. *)
Fixpoint reconcile (data : list UserPhotoData) (old : list PhotoFrameState)
  : list (UserPhotoData * PhotoFrameState) :=
  match data, old with
  | [], _ => []
  | d :: ds, [] => (d, mountFrame) :: reconcile ds []
  | d :: ds, s :: ss => (d, s) :: reconcile ds ss
  end.

(** The whole [UserPhotos] group: every photo takes the step. *)
Definition stepAll (state : TreeState) (focusedId : option string) (ev : Event)
    (photos : list (UserPhotoData * PhotoFrameState))
  : list (UserPhotoData * PhotoFrameState) :=
  map (fun ds => (fst ds, step (fst ds) state focusedId ev (snd ds))) photos.

(** An execution: per step the mode, the focused id and the event. *)
Fixpoint execute (steps : list (TreeState * option string * Event))
    (photos : list (UserPhotoData * PhotoFrameState))
  : list (UserPhotoData * PhotoFrameState) :=
  match steps with
  | [] => photos
  | (state, focusedId, ev) :: rest =>
      execute rest (stepAll state focusedId ev photos)
  end.

(** The transforms the renderer receives for the group. *)
Definition transforms (photos : list (UserPhotoData * PhotoFrameState))
  : list (option Group) :=
  map (fun ds => groupRef (snd ds)) photos.

(** The zoom distance is within the clamp bounds. *)
Definition zoomInBounds (s : PhotoFrameState) : Prop :=
  5 <= focusDistance s <= 40.

(** Wheel events delivered one after the other. *)
Fixpoint wheels (deltas : list R) (s : PhotoFrameState) : PhotoFrameState :=
  match deltas with
  | [] => s
  | d :: rest => wheels rest (wheel d s)
  end.

(** Every unclamped intermediate distance stays within the clamp bounds. *)
Fixpoint withinBounds (deltas : list R) (distance : R) : Prop :=
  match deltas with
  | [] => True
  | d :: rest =>
      5 <= distance + d * 0.02 <= 40 /\ withinBounds rest (distance + d * 0.02)
  end.

End PhotoFrame.

End UserPhotos.

(* ===================================================================== *)
(** * src/components/Experience.tsx *)
(* ===================================================================== *)

Module Experience.
Import Three Random Types.

(** One hand landmark as MediaPipe reports it. *)
Record Landmark : Type := mkLandmark { lx : R; ly : R; lz : R }.

(** A JavaScript statement either completes or throws. *)
Inductive Completion : Type := Normal | Thrown.

(** [targetRotation.current]. *)
Record Rotation : Type := mkRotation { rot_x : R; rot_y : R }.

(** The props the component closes over ([treeState], [focusedPhotoId],
    [userPhotos], [visionEnabled], held by [App]) and its refs. *)
Record State : Type := mkState {
  treeState : TreeState;
  focusedPhotoId : option string;
  userPhotos : list string;
  visionEnabled : bool;
  lastVideoTimeRef : R;
  targetRotation : Rotation;
  groupRef : option Euler;
  starRef : option R
}.

Definition setTreeState (v : TreeState) (e : State) : State :=
  mkState v (focusedPhotoId e) (userPhotos e) (visionEnabled e)
    (lastVideoTimeRef e) (targetRotation e) (groupRef e) (starRef e).

Definition setFocusedPhotoId (v : option string) (e : State) : State :=
  mkState (treeState e) v (userPhotos e) (visionEnabled e)
    (lastVideoTimeRef e) (targetRotation e) (groupRef e) (starRef e).

Definition setTargetRotation (v : Rotation) (e : State) : State :=
  mkState (treeState e) (focusedPhotoId e) (userPhotos e) (visionEnabled e)
    (lastVideoTimeRef e) v (groupRef e) (starRef e).

Definition setLastVideoTime (v : R) (e : State) : State :=
  mkState (treeState e) (focusedPhotoId e) (userPhotos e) (visionEnabled e)
    v (targetRotation e) (groupRef e) (starRef e).

Definition setGroupRotation (v : option Euler) (e : State) : State :=
  mkState (treeState e) (focusedPhotoId e) (userPhotos e) (visionEnabled e)
    (lastVideoTimeRef e) (targetRotation e) v (starRef e).

Definition setStarRotation (v : option R) (e : State) : State :=
  mkState (treeState e) (focusedPhotoId e) (userPhotos e) (visionEnabled e)
    (lastVideoTimeRef e) (targetRotation e) (groupRef e) v.

(** The application state proper: mode, focused entity, rotation control. *)
Definition appState (e : State) : TreeState * option string * Rotation :=
  (treeState e, focusedPhotoId e, targetRotation e).

(** The distance helper; reading [.x] of [undefined] throws ([None]). *)
Definition dist (p1 p2 : option Landmark) : option R :=
  match p1, p2 with
  | Some a, Some b =>
      Some (sqrt ((lx a - lx b) ^ 2 + (ly a - ly b) ^ 2 + (lz a - lz b) ^ 2))
  | _, _ => None
  end.

(** [tips.reduce((acc, tip) => acc + dist(tip, wrist), 0)]. *)
Definition sumDistToWrist (tips : list (option Landmark)) (wrist : option Landmark)
  : option R :=
  fold_left (fun acc tip =>
               match acc, dist tip wrist with
               | Some a, Some d => Some (a + d)
               | _, _ => None
               end) tips (Some 0).

Definition avgDistToWrist (landmarks : list Landmark) : option R :=
  let wrist := nth_error landmarks 0 in
  let indexTip := nth_error landmarks 8 in
  let midTip := nth_error landmarks 12 in
  let ringTip := nth_error landmarks 16 in
  let pinkyTip := nth_error landmarks 20 in
  match sumDistToWrist [indexTip; midTip; ringTip; pinkyTip] wrist with
  | Some total => Some (total / 4)
  | None => None
  end.

Definition pinchDist (landmarks : list Landmark) : option R :=
  dist (nth_error landmarks 4) (nth_error landmarks 8).

(** [`photo-${Math.floor(d * userPhotos.length)}`]. *)
Definition randomId (d : R) (photos : list string) : string :=
  ("photo-" ++ UserPhotos.numberToString (Zfloor (d * INR (List.length photos))))%string.

(** The state-machine part of [detectGestures].  [treeState] and
    [userPhotos] are the values of the render the callback closes over. *)
Definition classify (avg pinch : R) (e : State) : Rand State :=
  if Rlt_dec avg 0.15 then
    ret (if negb (TreeState_eqb (treeState e) TREE_SHAPE)
         then setTreeState TREE_SHAPE e else e)
  else if Rgt_dec avg 0.35 then
    ret (if negb (TreeState_eqb (treeState e) SCATTERED)
         then setTreeState SCATTERED e else e)
  else if Rlt_dec pinch 0.05 then
    if negb (TreeState_eqb (treeState e) FOCUS)
       && (0 <? List.length (userPhotos e))%nat
    then (d <- random ;;
          ret (setFocusedPhotoId (Some (randomId d (userPhotos e)))
                 (setTreeState FOCUS e)))%rand
    else ret e
  else ret e.

(** The hand-rotation part: the test reads the closed-over [treeState]
    (the mode before this sample), the writes go to the ref. *)
Definition handRotation (landmarks : list Landmark) (e e1 : State)
  : State * Completion :=
  if negb (TreeState_eqb (treeState e) TREE_SHAPE) then
    match nth_error landmarks 9 with
    | Some handCenter =>
        (setTargetRotation
           (mkRotation ((ly handCenter - 0.5) * 3.0) ((lx handCenter - 0.5) * 3.0))
           e1, Normal)
    | None => (e1, Thrown)
    end
  else (setTargetRotation (mkRotation 0 0) e1, Normal).

Definition detectGestures (landmarks : list Landmark) (e : State)
  : Rand (State * Completion) :=
  match avgDistToWrist landmarks with
  | None => ret (e, Thrown)
  | Some avg =>
      match pinchDist landmarks with
      | None => ret (e, Thrown)
      | Some pinch =>
          (e1 <- classify avg pinch e ;;
           ret (handRotation landmarks e e1))%rand
      end
  end.

(** [handlePhotoClick]. *)
Definition handlePhotoClick (id : string) (e : State) : State :=
  setTreeState FOCUS (setFocusedPhotoId (Some id) e).

(** The [<video>] element as the frame callback reads it. *)
Record Video : Type := mkVideo {
  readyState : Z;
  paused : bool;
  videoWidth : Z;
  videoHeight : Z;
  currentTime : R
}.

(** What [detectForVideo] does when called on this frame. *)
Inductive Detection : Type :=
  | DetectThrows
  | DetectReturns (landmarks : option (list (list Landmark))).

(** What one frame reads from outside: [handLandmarkerRef.current]
    (absent until the model is loaded) and [videoRef.current]. *)
Record FrameEnv : Type := mkFrameEnv {
  handLandmarker : option Detection;
  videoRef : option Video
}.

(** The guard of the frame callback: the video frame to process and the
    landmarker's answer, when all eight conjuncts hold. *)
Definition freshFrame (env : FrameEnv) (e : State) : option (Video * Detection) :=
  if visionEnabled e then
    match handLandmarker env, videoRef env with
    | Some detection, Some video =>
        if (2 <=? readyState video)%Z
           && negb (paused video)
           && (0 <? videoWidth video)%Z
           && (0 <? videoHeight video)%Z
           && (if Req_dec_T (currentTime video) (lastVideoTimeRef e)
               then false else true)
        then Some (video, detection)
        else None
    | _, _ => None
    end
  else None.

(** [try { ... } catch (e) { }]: whatever the body threw is dropped, the
    writes it made before throwing stay. *)
Definition tryCatch (body : Rand (State * Completion)) : Rand (State * Completion) :=
  (r <- body ;; ret (fst r, Normal))%rand.

Definition processFrame (env : FrameEnv) (e : State) : Rand (State * Completion) :=
  match freshFrame env e with
  | Some (video, detection) =>
      let e' := setLastVideoTime (currentTime video) e in
      tryCatch
        match detection with
        | DetectThrows => ret (e', Thrown)
        | DetectReturns (Some (hand :: _)) => detectGestures hand e'
        | DetectReturns _ => ret (e', Normal)
        end
  | None => ret (e, Normal)
  end.

(** The group-rotation part of the frame callback; the mode is the
    closed-over one, the rotation target is read from the ref. *)
Definition animateGroup (mode : TreeState) (e : State) : State :=
  match groupRef e with
  | None => e
  | Some rot =>
      if TreeState_eqb mode TREE_SHAPE then
        setGroupRotation
          (Some (mkEuler (lerp (ex rot) 0 0.05) (ey rot + 0.002) (ez rot))) e
      else if TreeState_eqb mode FOCUS then
        setGroupRotation
          (Some (mkEuler (lerp (ex rot) 0 0.1) (lerp (ey rot) 0 0.1) (ez rot))) e
      else
        setGroupRotation
          (Some (mkEuler (lerp (ex rot) (rot_x (targetRotation e)) 0.05)
                         (lerp (ey rot) (rot_y (targetRotation e)) 0.05)
                         (ez rot))) e
  end.

Definition spinStar (e : State) : State :=
  match starRef e with
  | None => e
  | Some y => setStarRotation (Some (y + 0.01)) e
  end.

(** The [useFrame] callback of [Experience]. *)
Definition useFrame (env : FrameEnv) (e : State) : Rand (State * Completion) :=
  (r <- processFrame env e ;;
   match snd r with
   | Thrown => ret r
   | Normal => ret (spinStar (animateGroup (treeState e) (fst r)), Normal)
   end)%rand.

(** Hand samples in the style of the classifier's test cases: the wrist
    at the origin and the other twenty landmarks at distance [reach] on
    the x axis, the thumb tip lifted by [gap] off the index tip. *)
Definition sample (reach gap : R) : list Landmark :=
  mkLandmark 0 0 0
  :: repeat (mkLandmark reach 0 0) 3
  ++ mkLandmark reach gap 0
  :: repeat (mkLandmark reach 0 0) 16.

(** The component right after the start of [App] (mode Scattered,
    nothing focused, refs at their initial values), with the given
    photos uploaded and hand tracking switched on. *)
Definition initialState (photos : list string) : State :=
  mkState SCATTERED None photos true (-1) (mkRotation 0 0)
    (Some (mkEuler 0 0 0)) (Some 0).

(** The same hand sample classified [k] times in a row, each time by the
    callback of the render that follows the previous update. *)
Fixpoint classifyTimes (k : nat) (landmarks : list Landmark) (e : State)
  : Rand State :=
  match k with
  | O => ret e
  | S k' =>
      (r <- detectGestures landmarks e ;;
       classifyTimes k' landmarks (fst r))%rand
  end.

(** The frames on which hand tracking gives no signal. *)
Inductive Unavailable (env : FrameEnv) (e : State) : Prop :=
  | FeedNotReady :
      freshFrame env e = None -> Unavailable env e
  | NoNewFrame (video : Video) :
      videoRef env = Some video ->
      currentTime video = lastVideoTimeRef e -> Unavailable env e
  | NoHandDetected (landmarks : option (list (list Landmark))) :
      handLandmarker env = Some (DetectReturns landmarks) ->
      landmarks = None \/ landmarks = Some [] -> Unavailable env e
  | InferenceError :
      handLandmarker env = Some DetectThrows -> Unavailable env e.

End Experience.

(* ===================================================================== *)
(** * src/App.tsx *)
(* ===================================================================== *)

Module App.
Import Types.

(** The updater of [toggleState]. *)
Definition toggleState (prev : TreeState) : TreeState :=
  if TreeState_eqb prev TREE_SHAPE then SCATTERED else TREE_SHAPE.

(** [setUserPhotos((prev) => [...prev, ...newPhotos])]. *)
Definition handlePhotoUpload (newPhotos prev : list string) : list string :=
  prev ++ newPhotos.

End App.

(* ===================================================================== *)
(** * Quaternions over the reals *)
(* ===================================================================== *)

(** A real-number reading of three.js' [Quaternion] (components x, y, z,
    w), to have the interface of [PhotoFrame] inhabited; what is proved
    about the component holds for every implementation of the interface. *)
Module Quaternion.
Import Three.

Record t : Type := mk { qx : R; qy : R; qz : R; qw : R }.

Definition identity : t := mk 0 0 0 1.

(** Euler order XYZ, the default of three.js. *)
Definition fromEuler (e : Euler) : t :=
  let c1 := cos (ex e / 2) in
  let c2 := cos (ey e / 2) in
  let c3 := cos (ez e / 2) in
  let s1 := sin (ex e / 2) in
  let s2 := sin (ey e / 2) in
  let s3 := sin (ez e / 2) in
  mk (s1 * c2 * c3 + c1 * s2 * s3)
     (c1 * s2 * c3 - s1 * c2 * s3)
     (c1 * c2 * s3 + s1 * s2 * c3)
     (c1 * c2 * c3 - s1 * s2 * s3).

Definition multiply (a b : t) : t :=
  mk (qx a * qw b + qw a * qx b + qy a * qz b - qz a * qy b)
     (qy a * qw b + qw a * qy b + qz a * qx b - qx a * qz b)
     (qz a * qw b + qw a * qz b + qx a * qy b - qy a * qx b)
     (qw a * qw b - qx a * qx b - qy a * qy b - qz a * qz b).

(** The inverse of a unit quaternion is its conjugate. *)
Definition conjugate (a : t) : t := mk (- qx a) (- qy a) (- qz a) (qw a).

Definition scaleBy (k : R) (a : t) : t :=
  mk (k * qx a) (k * qy a) (k * qz a) (k * qw a).

Definition normalized (a : t) : t :=
  let l := sqrt (qx a * qx a + qy a * qy a + qz a * qz a + qw a * qw a) in
  if Req_dec_T l 0 then identity else scaleBy (1 / l) a.

Definition blend (ka : R) (a : t) (kb : R) (b : t) : t :=
  mk (ka * qx a + kb * qx b) (ka * qy a + kb * qy b)
     (ka * qz a + kb * qz b) (ka * qw a + kb * qw b).

(** [Number.EPSILON]. *)
Definition EPSILON : R := / 2 ^ 52.

Definition sphericalLerp (a b : t) (k : R) : t :=
  if Req_dec_T k 0 then a
  else if Req_dec_T k 1 then b
  else
    let dot := qw a * qw b + qx a * qx b + qy a * qy b + qz a * qz b in
    let b' := if Rlt_dec dot 0 then scaleBy (-1) b else b in
    let cosHalfTheta := if Rlt_dec dot 0 then - dot else dot in
    if Rle_dec 1 cosHalfTheta then a
    else
      let sqrSinHalfTheta := 1 - cosHalfTheta * cosHalfTheta in
      if Rle_dec sqrSinHalfTheta EPSILON then normalized (blend (1 - k) a k b')
      else
        let sinHalfTheta := sqrt sqrSinHalfTheta in
        let halfTheta :=
          if Req_dec_T cosHalfTheta 0 then PI / 2
          else atan (sinHalfTheta / cosHalfTheta) in
        blend (sin ((1 - k) * halfTheta) / sinHalfTheta) a
              (sin (k * halfTheta) / sinHalfTheta) b'.

End Quaternion.

#[export] Instance realQuaternion : QuaternionOps Quaternion.t := {
  qidentity := Quaternion.identity;
  setFromEuler := Quaternion.fromEuler;
  premultiply := fun a b => Quaternion.multiply b a;
  invert := Quaternion.conjugate;
  slerp := Quaternion.sphericalLerp
}.

(* ===================================================================== *)
(** * The animated groups of the scene under one frame loop *)
(* ===================================================================== *)

Module Scene.
Import Three Random Types.

Section Scene.
Context {Q : Type} {qops : QuaternionOps Q}.

(** Everything [Experience] places under its main group that animates
    between the two configurations. *)
Record Scene : Type := mkScene {
  foliage : option Foliage.Uniforms;
  ornaments : Ornaments.Groups;
  giftsData : list OrnamentData;
  giftsRef : option Ornaments.InstancedMesh;
  photos : list (UserPhotoData * UserPhotos.PhotoFrameState (Q := Q))
}.

Inductive Event : Type :=
  | Tick (delta : R) (env : UserPhotos.FrameEnv (Q := Q))
  | Scroll (deltaY : R).

(** One step of the scene with the props [state] and [focusedId]: a
    frame runs the frame callback of every component, a wheel event
    reaches the photo frames only. *)
Definition step (state : TreeState) (focusedId : option string) (ev : Event)
    (s : Scene) : Scene :=
  match ev with
  | Tick delta env =>
      let time := UserPhotos.elapsedTime env in
      mkScene (Foliage.useFrame state time delta (foliage s))
              (Ornaments.useFrame state time delta (ornaments s))
              (giftsData s)
              (Gifts.useFrame state (giftsData s) time delta (giftsRef s))
              (UserPhotos.stepAll state focusedId (UserPhotos.Frame env) (photos s))
  | Scroll deltaY =>
      mkScene (foliage s) (ornaments s) (giftsData s) (giftsRef s)
              (UserPhotos.stepAll state focusedId (UserPhotos.Wheel deltaY) (photos s))
  end.

Fixpoint execute (steps : list (TreeState * option string * Event)) (s : Scene)
  : Scene :=
  match steps with
  | [] => s
  | (state, focusedId, ev) :: rest => execute rest (step state focusedId ev s)
  end.

(** The ornament count changes: the four data sets are generated anew
    and their meshes constructed anew. *)
Definition regenerateOrnaments (count : nat) (s : Scene) : Rand Scene :=
  (g <- Ornaments.mount count ;;
   ret (mkScene (foliage s) g (giftsData s) (giftsRef s) (photos s)))%rand.

(** The photo list changes: the photo data is generated anew. *)
Definition regeneratePhotos (urls : list string) (s : Scene) : Rand Scene :=
  (data <- UserPhotos.photosData urls ;;
   ret (mkScene (foliage s) (ornaments s) (giftsData s) (giftsRef s)
          (UserPhotos.reconcile data (map snd (photos s)))))%rand.

(** What the renderer is handed: the uniforms, the meshes with their
    instance matrices, and the transform of every photo. *)
Definition rendered (s : Scene)
  : option Foliage.Uniforms * Ornaments.Groups * option Ornaments.InstancedMesh
    * list (option (UserPhotos.Group (Q := Q))) :=
  (foliage s, ornaments s, giftsRef s, UserPhotos.transforms (photos s)).

(** The step without the focused id. *)
Definition unfocused (st : TreeState * option string * Event) : TreeState * Event :=
  (fst (fst st), snd st).

(** Two scenes that hand the renderer the same groups, photo by photo. *)
Definition sameRendering (s1 s2 : Scene) : Prop :=
  foliage s1 = foliage s2
  /\ ornaments s1 = ornaments s2
  /\ giftsData s1 = giftsData s2
  /\ giftsRef s1 = giftsRef s2
  /\ Forall2 (fun a b => fst a = fst b
                        /\ UserPhotos.groupRef (snd a) = UserPhotos.groupRef (snd b))
       (photos s1) (photos s2).

End Scene.

(** A small scene to run the frame loop on: the default camera of
    [Experience] looking down the negative z axis, no parent rotation,
    one photo, one gift, empty ornament groups. *)
Definition sampleEnv (time : R) : UserPhotos.FrameEnv (Q := Quaternion.t) :=
  UserPhotos.mkFrameEnv time
    (UserPhotos.mkCamera (mkVector3 0 2 25) (mkVector3 0 0 (-1)) Quaternion.identity)
    (Some (UserPhotos.mkParent (fun v => add v (mkVector3 0 4 0)) Quaternion.identity)).

Definition sampleScene : Scene (Q := Quaternion.t) :=
  mkScene (Some Foliage.initialUniforms)
    (Ornaments.mkGroups (Some (Ornaments.newMesh 0)) [] (Some (Ornaments.newMesh 0)) []
       (Some (Ornaments.newMesh 0)) [] (Some (Ornaments.newMesh 0)) [])
    [mkOrnamentData BOX (mkVector3 3 (-5) 0) (mkVector3 0 10 0) (mkEuler 0 0 0) 1 1
       (Some "#E2C99E"%string)]
    (Some (Ornaments.newMesh 1))
    [(UserPhotos.samplePhoto, UserPhotos.mountFrame)].

End Scene.

(* ===================================================================== *)
(** * The morph clocks of the animated groups, side by side *)
(* ===================================================================== *)

Module MorphClock.
Import Three Types.

(** The groups that carry a morph value of their own. *)
Inductive Group : Type :=
  | FoliageGroup
  | OrnamentGroup (data : list OrnamentData)
  | GiftGroup (data : list OrnamentData).

(** The [speed] constant each group multiplies [delta] with. *)
Definition smoothingRate (g : Group) : R :=
  match g with
  | FoliageGroup => 2
  | OrnamentGroup _ => 1.5
  | GiftGroup _ => 1.5
  end.

(** The group's morph value after the given frames, from its state at
    creation, with the mode held at [state]. *)
Definition progressAfter (g : Group) (state : TreeState) (frames : list (R * R)) : R :=
  match g with
  | FoliageGroup =>
      match Foliage.run state frames (Some Foliage.initialUniforms) with
      | Some u => Foliage.uMorphFactor u
      | None => 0
      end
  | OrnamentGroup data =>
      match Ornaments.runMesh data (Ornaments.targetMorphOf state) frames
              (Some (Ornaments.newMesh (List.length data))) with
      | Some m => Ornaments.currentMorph m
      | None => 0
      end
  | GiftGroup data =>
      match Gifts.run state data frames (Some (Ornaments.newMesh Gifts.count)) with
      | Some m => Ornaments.currentMorph m
      | None => 0
      end
  end.

(** The simulated time the frames sum to. *)
Definition elapsed (frames : list (R * R)) : R :=
  fold_right (fun f acc => snd f + acc) 0 frames.

(** A frame whose delta keeps [rate * delta] within [0, 1]. *)
Definition stable (rate : R) (f : R * R) : Prop :=
  0 <= snd f /\ rate * snd f <= 1.

(** One exponential-smoothing step per delta, towards [target]. *)
Definition smooth (rate target : R) (deltas : list R) (p : R) : R :=
  fold_left (fun p d => lerp p target (rate * d)) deltas p.

(** [n] frames of the same length, at arbitrary elapsed time 0. *)
Definition steady (delta : R) (n : nat) : list (R * R) := repeat (0, delta) n.

End MorphClock.

(* ===================================================================== *)
(** * src/components/Foliage.tsx: particle data and the vertex shader *)
(* ===================================================================== *)

Module FoliageShader.
Import Three Random MathUtil Types.

(** The per-vertex attributes the component fills in its [useMemo]. *)
Record Particle : Type := mkParticle {
  aTreePosition : Vector3;
  aScatterPosition : Vector3;
  aRandom : R;
  aSize : R
}.

(** One iteration of the data loop. *)
Definition generateParticle : Rand Particle :=
  (let yOffset := - TREE_HEIGHT / 2 in
   tPos <- getTreePoint_default ;;
   sPos <- getScatterPoint_default ;;
   rnd <- random ;;
   let h := (vy tPos - yOffset) / TREE_HEIGHT in
   let scaleGradient := 0.8 + 0.4 * (1 - h) in
   sz <- random ;;
   ret (mkParticle tPos sPos rnd ((sz * 0.5 + 0.2) * scaleGradient)))%rand.

Definition generateParticles (count : nat) : Rand (list Particle) :=
  forPush count 0 (fun _ => generateParticle).

(** GLSL [mix(x, y, a)]. *)
Definition mix (x y a : R) : R := x * (1 - a) + y * a.

Definition mix3 (x y : Vector3) (a : R) : Vector3 :=
  mkVector3 (mix (vx x) (vx y) a) (mix (vy x) (vy y) a) (mix (vz x) (vz y) a).

(** [noiseAmp] of the vertex shader at eased morph value [t]. *)
Definition noiseAmp (t : R) : R := mix 1.0 0.2 t.

(** The [targetPos] the vertex shader computes in [main]. *)
Definition targetPos (u : Foliage.Uniforms) (a : Particle) : Vector3 :=
  let t := Foliage.easeInOutCubic (Foliage.uMorphFactor u) in
  let p := mix3 (aScatterPosition a) (aTreePosition a) t in
  let amp := noiseAmp t in
  mkVector3
    (vx p + sin (Foliage.uTime u * 1.5 + aRandom a * 10.0) * 0.1 * amp)
    (vy p + cos (Foliage.uTime u * 1.2 + aRandom a * 20.0) * 0.1 * amp)
    (vz p + sin (Foliage.uTime u * 1.8 + aRandom a * 5.0) * 0.1 * amp).

(** [vAlpha], the twinkle passed to the fragment shader. *)
Definition vAlpha (u : Foliage.Uniforms) (a : Particle) : R :=
  0.6 + 0.4 * sin (Foliage.uTime u * 2.0 + aRandom a * 100.0).

End FoliageShader.

(* ===================================================================== *)
(** * src/components/Experience.tsx: BaseSparkles *)
(* ===================================================================== *)

Module BaseSparkles.
Import Three Random.

Definition count : nat := 200.

(** One iteration of the position loop: the point and its [rnd] entry. *)
Definition generateSparkle : Rand (Vector3 * R) :=
  (a <- random ;;
   let r := 10 + a * 10 in
   b <- random ;;
   let theta := b * PI * 2 in
   c <- random ;;
   let y := -15 + c * 7 in
   d <- random ;;
   ret (mkVector3 (r * cos theta) y (r * sin theta), d))%rand.

Definition generate : Rand (list (Vector3 * R)) :=
  forPush count 0 (fun _ => generateSparkle).

(** The [useFrame] callback: the vertical offset and the y rotation of
    the whole point cloud at elapsed time [time]. *)
Definition useFrame (time : R) (mesh : option (R * R)) : option (R * R) :=
  match mesh with
  | None => None
  | Some _ => Some (sin (time * 0.2) * 0.5, time * 0.05)
  end.

End BaseSparkles.

(* ===================================================================== *)
(** * Frame sequences with the mode changing along the way *)
(* ===================================================================== *)

Module Timeline.
Import Three Types.

(** One frame: the mode of the render, the elapsed time, the delta. *)
Definition Frame : Type := (TreeState * R * R)%type.

Definition modeOf (f : Frame) : TreeState := fst (fst f).
Definition timeOf (f : Frame) : R := snd (fst f).
Definition deltaOf (f : Frame) : R := snd f.

Fixpoint foliage (frames : list Frame) (shaderRef : option Foliage.Uniforms)
  : option Foliage.Uniforms :=
  match frames with
  | [] => shaderRef
  | f :: rest =>
      foliage rest (Foliage.useFrame (modeOf f) (timeOf f) (deltaOf f) shaderRef)
  end.

Fixpoint ornaments (frames : list Frame) (g : Ornaments.Groups) : Ornaments.Groups :=
  match frames with
  | [] => g
  | f :: rest =>
      ornaments rest (Ornaments.useFrame (modeOf f) (timeOf f) (deltaOf f) g)
  end.

Fixpoint gifts (data : list OrnamentData) (frames : list Frame)
    (meshRef : option Ornaments.InstancedMesh) : option Ornaments.InstancedMesh :=
  match frames with
  | [] => meshRef
  | f :: rest =>
      gifts data rest (Gifts.useFrame (modeOf f) data (timeOf f) (deltaOf f) meshRef)
  end.

(** The morph value of a mesh that may be missing. *)
Definition morphOf (mesh : option Ornaments.InstancedMesh) : R :=
  match mesh with
  | Some m => Ornaments.currentMorph m
  | None => 0
  end.

Definition foliageMorph (shaderRef : option Foliage.Uniforms) : R :=
  match shaderRef with
  | Some u => Foliage.uMorphFactor u
  | None => 0
  end.

(** All morph values of the scene's instanced and shader groups. *)
Definition morphs (f : option Foliage.Uniforms) (g : Ornaments.Groups)
    (gift : option Ornaments.InstancedMesh) : list R :=
  [foliageMorph f; morphOf (Ornaments.goldRef g); morphOf (Ornaments.ceramicRef g);
   morphOf (Ornaments.satinRef g); morphOf (Ornaments.boxesRef g); morphOf gift].

Definition unitInterval (p : R) : Prop := 0 <= p <= 1.

(** Every delta is non-negative and at most half a second, so that
    [speed * delta <= 1] for the foliage (speed 2) and the meshes (1.5). *)
Definition steady (frames : list Frame) : Prop :=
  Forall (fun f => 0 <= deltaOf f <= 1 / 2) frames.

End Timeline.

(* ===================================================================== *)
(** * src/components/Experience.tsx: frames in a row *)
(* ===================================================================== *)

Module ExperienceRun.
Import Three Random Types Experience.

(** The frame callback called once per environment, the state of each
    call being the one the previous call left. *)
Fixpoint frames (envs : list FrameEnv) (e : State) : Rand State :=
  match envs with
  | [] => ret e
  | env :: rest =>
      (r <- useFrame env e ;; frames rest (fst r))%rand
  end.

(** The rotation of the main group, when the group is there. *)
Definition groupRotation (e : State) : Euler :=
  match groupRef e with
  | Some rot => rot
  | None => mkEuler 0 0 0
  end.

(** The component with hand tracking off, the main group turned by
    (1, -1, 0) and a rotation target left over from an earlier hand
    sample: once in Focus mode, once in Scattered mode. *)
Definition quietFocus : State :=
  mkState FOCUS (Some (UserPhotos.photoId 0)) ["blob:photo"%string] false (-1)
    (mkRotation 0.3 (-0.6)) (Some (mkEuler 1 (-1) 0)) (Some 0).

Definition quietScattered : State :=
  mkState SCATTERED None [] false (-1)
    (mkRotation 0.3 (-0.6)) (Some (mkEuler 1 (-1) 0)) (Some 0).

End ExperienceRun.

(* ===================================================================== *)
(** * src/components/Overlay.tsx and src/App.tsx: the mode button *)
(* ===================================================================== *)

Module Overlay.
Import Types.

Definition isTree (treeState : TreeState) : bool :=
  TreeState_eqb treeState TREE_SHAPE.

(** The caption of the mode button. *)
Definition buttonLabel (treeState : TreeState) : string :=
  if isTree treeState then "SCATTER MAGIC"%string else "ASSEMBLE TREE"%string.

(** The line above it. *)
Definition modeLine (treeState : TreeState) : string :=
  if isTree treeState then "Interactive Mode: Formed"%string
  else "Interactive Mode: Ethereal"%string.

End Overlay.

(* ===================================================================== *)
(** * Focus mode next to Scattered mode *)
(* ===================================================================== *)

Module FocusMode.
Import Types.

(** The mode with Focus read as Scattered. *)
Definition relaxed (state : TreeState) : TreeState :=
  match state with
  | FOCUS => SCATTERED
  | _ => state
  end.

(** A step of the scene with its mode relaxed. *)
Definition relax {Q : Type} (st : TreeState * option string * Scene.Event (Q := Q))
  : TreeState * option string * Scene.Event (Q := Q) :=
  (relaxed (fst (fst st)), snd (fst st), snd st).

End FocusMode.

(* ===================================================================== *)
(** * Point generators *)
(* ===================================================================== *)

Section PointGenerators.
Import Three Random MathUtil.

Lemma cbrt_cube (x : R) : cbrt x ^ 3 = x.
Proof.
  unfold cbrt. destruct (total_order_T x 0) as [[Hlt | Heq] | Hgt].
  - assert (H : exp (ln (- x) / 3) ^ 3 = - x).
    { simpl. rewrite Rmult_1_r, <- !exp_plus.
      replace (ln (- x) / 3 + (ln (- x) / 3 + ln (- x) / 3)) with (ln (- x)) by field.
      apply exp_ln. lra. }
    simpl in *. lra.
  - subst. simpl. ring.
  - simpl. rewrite Rmult_1_r, <- !exp_plus.
    replace (ln x / 3 + (ln x / 3 + ln x / 3)) with (ln x) by field.
    apply exp_ln. lra.
Qed.

Lemma cbrt_nonneg (x : R) : 0 <= x -> 0 <= cbrt x.
Proof.
  intros Hx. unfold cbrt.
  destruct (total_order_T x 0) as [[Hlt | Heq] | Hgt]; try lra.
  left. apply exp_pos.
Qed.

Lemma cube_le_inv (a b : R) : 0 <= a -> 0 <= b -> a ^ 3 <= b ^ 3 -> a <= b.
Proof.
  intros Ha Hb H. destruct (Rle_lt_dec a b) as [Hle | Hlt]; [exact Hle | exfalso].
  assert (b ^ 3 < a ^ 3); [| lra].
  simpl. rewrite !Rmult_1_r.
  assert (b * b < a * a) by nra.
  nra.
Qed.

Lemma cbrt_le_1 (x : R) : 0 <= x -> x < 1 -> cbrt x <= 1.
Proof.
  intros H0 H1. apply cube_le_inv.
  - now apply cbrt_nonneg.
  - lra.
  - rewrite cbrt_cube. simpl. lra.
Qed.

(** The spherical parametrisation has the radius as its norm. *)
Lemma spherical_norm (r phi theta : R) :
  0 <= r ->
  length (mkVector3 (r * sin phi * cos theta) (r * sin phi * sin theta)
                    (r * cos phi)) = r.
Proof.
  intros Hr. unfold length. simpl.
  pose proof (sin2_cos2 phi) as Hp. pose proof (sin2_cos2 theta) as Ht.
  unfold Rsqr in Hp, Ht.
  replace (r * sin phi * cos theta * (r * sin phi * cos theta)
           + r * sin phi * sin theta * (r * sin phi * sin theta)
           + r * cos phi * (r * cos phi))
    with (r * r * (sin phi * sin phi * (sin theta * sin theta + cos theta * cos theta)
                   + cos phi * cos phi)) by ring.
  rewrite Ht, Rmult_1_r, Hp, Rmult_1_r.
  now apply sqrt_square.
Qed.

(** The polar parametrisation has the radius as its distance from the axis. *)
Lemma polar_radial (r theta y : R) :
  0 <= r -> radial (mkVector3 (r * cos theta) y (r * sin theta)) = r.
Proof.
  intros Hr. unfold radial. simpl.
  pose proof (sin2_cos2 theta) as Ht. unfold Rsqr in Ht.
  replace (r * cos theta * (r * cos theta) + r * sin theta * (r * sin theta))
    with (r * r * (sin theta * sin theta + cos theta * cos theta)) by ring.
  rewrite Ht, Rmult_1_r. now apply sqrt_square.
Qed.

Lemma getScatterPoint_run (radius : R) (src : Source) (n : nat) :
  run (getScatterPoint radius) src n =
  let r := cbrt (src (S (S n))) * radius in
  let phi := acos (2 * src (S n) - 1) in
  let theta := 2 * PI * src n in
  mkVector3 (r * sin phi * cos theta) (r * sin phi * sin theta) (r * cos phi).
Proof. reflexivity. Qed.

Lemma getScatterPoint_cursor (radius : R) (src : Source) (n : nat) :
  snd (getScatterPoint radius src n) = (3 + n)%nat.
Proof. reflexivity. Qed.

Lemma getScatterPoint_length (radius : R) (src : Source) (n : nat) :
  0 <= radius -> uniform src ->
  length (run (getScatterPoint radius) src n) = cbrt (src (S (S n))) * radius.
Proof.
  intros Hr Hu. rewrite getScatterPoint_run. cbv zeta.
  apply spherical_norm.
  apply Rmult_le_pos; [apply cbrt_nonneg, Hu | exact Hr].
Qed.

Lemma getTreePoint_run (height radius yOffset : R) (src : Source) (n : nat) :
  run (getTreePoint height radius yOffset) src n =
  let h := src n in
  let r := radius * (1 - h) * (0.2 + 0.8 * sqrt (src (S n))) in
  let theta := src (S (S n)) * PI * 2 in
  mkVector3 (r * cos theta) (h * height + yOffset) (r * sin theta).
Proof. reflexivity. Qed.

Lemma getTreePoint_cursor (height radius yOffset : R) (src : Source) (n : nat) :
  snd (getTreePoint height radius yOffset src n) = (3 + n)%nat.
Proof. reflexivity. Qed.

Lemma sqrt_unit (s : R) : 0 <= s < 1 -> 0 <= sqrt s <= 1.
Proof.
  intros [H0 H1]. split; [apply sqrt_pos |].
  rewrite <- sqrt_1. apply sqrt_le_1_alt. lra.
Qed.

(** C5: for every radius r > 0 and every choice of the draws in [0,1),
    the point of [getScatterPoint r] has norm at most r; the cube of the
    norm is the third draw times r^3, so it ranges over [0, r^3) and its
    distribution function is the one of the uniform law on [0, r^3]:
    norm^3 <= c exactly when the draw is <= c / r^3. *)
Theorem getScatterPoint_volume_uniform :
  forall (radius : R) (src : Source) (n : nat),
    0 < radius -> uniform src ->
    let p := run (getScatterPoint radius) src n in
    let w := src (S (S n)) in
    length p <= radius
    /\ length p ^ 3 = w * radius ^ 3
    /\ 0 <= length p ^ 3 < radius ^ 3
    /\ (forall c, length p ^ 3 <= c <-> w <= c / radius ^ 3).
Proof.
  intros radius src n Hr Hu p w. subst p w.
  rewrite getScatterPoint_length by (lra || assumption).
  destruct (Hu (S (S n))) as [H0 H1].
  set (w := src (S (S n))) in *.
  assert (Hc : (cbrt w * radius) ^ 3 = w * radius ^ 3).
  { rewrite Rpow_mult_distr, cbrt_cube. reflexivity. }
  assert (Hr3 : 0 < radius ^ 3) by (apply pow_lt; exact Hr).
  split; [| split; [exact Hc | split]].
  - pose proof (cbrt_le_1 w H0 H1). pose proof (cbrt_nonneg w H0). nra.
  - rewrite Hc. nra.
  - intros c. rewrite Hc. split; intros H.
    + apply Rmult_le_reg_r with (radius ^ 3); [exact Hr3 |].
      replace (c / radius ^ 3 * radius ^ 3) with c by (field; lra). exact H.
    + apply Rmult_le_compat_r with (r := radius ^ 3) in H; [| lra].
      replace (c / radius ^ 3 * radius ^ 3) with c in H by (field; lra). exact H.
Qed.

(** C6: for every height h > 0, base radius b >= 0, offset and choice of
    the draws in [0,1), the point of [getTreePoint h b yOffset] has its y
    in [yOffset, yOffset + h) and its distance from the axis between 20%
    and 100% of the tapering bound b * (1 - (y - yOffset) / h). *)
Theorem getTreePoint_in_cone :
  forall (height radius yOffset : R) (src : Source) (n : nat),
    0 < height -> 0 <= radius -> uniform src ->
    let p := run (getTreePoint height radius yOffset) src n in
    let maxR := radius * (1 - (vy p - yOffset) / height) in
    yOffset <= vy p < yOffset + height
    /\ radial p <= maxR
    /\ 0.2 * maxR <= radial p.
Proof.
  intros height radius yOffset src n Hh Hb Hu p maxR. subst maxR p.
  rewrite getTreePoint_run. cbv zeta.
  destruct (Hu n) as [H0 H1]. pose proof (sqrt_unit _ (Hu (S n))) as [Hs0 Hs1].
  set (h := src n) in *. set (q := sqrt (src (S n))) in *.
  assert (Hm : 0 <= radius * (1 - h)) by nra.
  rewrite polar_radial by nra.
  cbn [vy].
  replace ((h * height + yOffset - yOffset) / height) with h by (field; lra).
  repeat split; nra.
Qed.

(** C5 at radius 15 with every draw equal to 1/2. *)
Lemma getScatterPoint_volume_uniform_witness :
  let src := fun _ : nat => 1 / 2 in
  let p := run (getScatterPoint 15) src 0 in
  let w := src 2%nat in
  length p <= 15
  /\ length p ^ 3 = w * 15 ^ 3
  /\ 0 <= length p ^ 3 < 15 ^ 3
  /\ (forall c, length p ^ 3 <= c <-> w <= c / 15 ^ 3).
Proof.
  apply (getScatterPoint_volume_uniform 15 (fun _ : nat => 1 / 2) 0%nat).
  - lra.
  - intros k. lra.
Defined.

(** C6 for the foliage cone (height 12, base radius 5.5, offset -6) with
    every draw equal to 1/4. *)
Lemma getTreePoint_in_cone_witness :
  let src := fun _ : nat => 1 / 4 in
  let p := run (getTreePoint 12 5.5 (-6)) src 0 in
  let maxR := 5.5 * (1 - (vy p - (-6)) / 12) in
  -6 <= vy p < -6 + 12
  /\ radial p <= maxR
  /\ 0.2 * maxR <= radial p.
Proof.
  apply (getTreePoint_in_cone 12 5.5 (-6) (fun _ : nat => 1 / 4) 0%nat).
  - lra.
  - lra.
  - intros k. lra.
Defined.

End PointGenerators.

(* ===================================================================== *)
(** * Morph clock *)
(* ===================================================================== *)

Section MorphClockFacts.
Import Three Types MorphClock.

Lemma foliage_run_morph (state : TreeState) (frames : list (R * R)) (u : Foliage.Uniforms) :
  exists u', Foliage.run state frames (Some u) = Some u'
    /\ Foliage.uMorphFactor u' =
       smooth 2 (Ornaments.targetMorphOf state) (map snd frames) (Foliage.uMorphFactor u).
Proof.
  revert u. induction frames as [| [time delta] rest IH]; intros u.
  - exists u. split; reflexivity.
  - simpl. destruct (IH (Foliage.mkUniforms time
        (lerp (Foliage.uMorphFactor u)
           (if TreeState_eqb state TREE_SHAPE then 1 else 0) (2 * delta)))) as [u' [Hr Hm]].
    exists u'. split; [exact Hr |]. rewrite Hm. reflexivity.
Qed.

Lemma ornaments_run_morph (data : list OrnamentData) (target : R)
    (frames : list (R * R)) (m : Ornaments.InstancedMesh) :
  exists m', Ornaments.runMesh data target frames (Some m) = Some m'
    /\ Ornaments.currentMorph m' =
       smooth 1.5 target (map snd frames) (Ornaments.currentMorph m).
Proof.
  revert m. induction frames as [| [time delta] rest IH]; intros m.
  - exists m. split; reflexivity.
  - simpl. match goal with |- context [Ornaments.runMesh _ _ _ (Some ?x)] =>
      destruct (IH x) as [m' [Hr Hm]] end.
    exists m'. split; [exact Hr |]. rewrite Hm. reflexivity.
Qed.

Lemma gifts_run_morph (state : TreeState) (data : list OrnamentData)
    (frames : list (R * R)) (m : Ornaments.InstancedMesh) :
  exists m', Gifts.run state data frames (Some m) = Some m'
    /\ Ornaments.currentMorph m' =
       smooth 1.5 (Ornaments.targetMorphOf state) (map snd frames) (Ornaments.currentMorph m).
Proof.
  revert m. induction frames as [| [time delta] rest IH]; intros m.
  - exists m. split; reflexivity.
  - simpl. match goal with |- context [Gifts.run _ _ _ (Some ?x)] =>
      destruct (IH x) as [m' [Hr Hm]] end.
    exists m'. split; [exact Hr |]. rewrite Hm. reflexivity.
Qed.

(** Every group's progress is the smoothing recurrence started at 0. *)
Lemma progressAfter_smooth (g : Group) (state : TreeState) (frames : list (R * R)) :
  progressAfter g state frames =
  smooth (smoothingRate g) (Ornaments.targetMorphOf state) (map snd frames) 0.
Proof.
  destruct g as [| data | data]; unfold progressAfter.
  - destruct (foliage_run_morph state frames Foliage.initialUniforms) as [u' [-> ->]].
    reflexivity.
  - destruct (ornaments_run_morph data (Ornaments.targetMorphOf state) frames
                (Ornaments.newMesh (List.length data))) as [m' [-> ->]].
    reflexivity.
  - destruct (gifts_run_morph state data frames (Ornaments.newMesh Gifts.count))
      as [m' [-> ->]].
    reflexivity.
Qed.

Lemma smooth_snoc (rate target : R) (deltas : list R) (d p : R) :
  smooth rate target (deltas ++ [d]) p =
  lerp (smooth rate target deltas p) target (rate * d).
Proof. unfold smooth. rewrite fold_left_app. reflexivity. Qed.

Lemma elapsed_app (pre post : list (R * R)) :
  elapsed (pre ++ post) = elapsed pre + elapsed post.
Proof.
  induction pre as [| f pre IH]; simpl.
  - lra.
  - rewrite IH. lra.
Qed.

(** A stable step towards 1 stays in [p, 1]. *)
Lemma lerp_towards_one (p k : R) :
  0 <= p <= 1 -> 0 <= k <= 1 -> p <= lerp p 1 k <= 1.
Proof. intros Hp Hk. unfold lerp. nra. Qed.

Lemma smooth_unit_interval (rate : R) (deltas : list R) (p : R) :
  0 <= rate ->
  Forall (fun d => 0 <= d /\ rate * d <= 1) deltas ->
  0 <= p <= 1 ->
  p <= smooth rate 1 deltas p <= 1.
Proof.
  intros Hrate Hall. revert p.
  induction Hall as [| d rest [Hd0 Hd1] _ IH]; intros p Hp.
  - unfold smooth. simpl. lra.
  - change (smooth rate 1 (d :: rest) p)
      with (smooth rate 1 rest (lerp p 1 (rate * d))).
    assert (Hk : 0 <= rate * d <= 1) by (split; [apply Rmult_le_pos |]; lra).
    pose proof (lerp_towards_one p (rate * d) Hp Hk) as Hstep.
    assert (Hp' : 0 <= lerp p 1 (rate * d) <= 1) by lra.
    specialize (IH _ Hp'). lra.
Qed.

(** The gap to the target shrinks at least exponentially in the elapsed
    time. *)
Lemma smooth_gap (rate : R) (deltas : list R) (p : R) :
  0 <= rate ->
  Forall (fun d => 0 <= d /\ rate * d <= 1) deltas ->
  0 <= p <= 1 ->
  1 - smooth rate 1 deltas p
  <= (1 - p) * exp (- rate * fold_right Rplus 0 deltas).
Proof.
  intros Hrate Hall. revert p.
  induction Hall as [| d rest [Hd0 Hd1] Hrest IH]; intros p Hp.
  - unfold smooth. simpl. replace (- rate * 0) with 0 by ring. rewrite exp_0. lra.
  - change (smooth rate 1 (d :: rest) p)
      with (smooth rate 1 rest (lerp p 1 (rate * d))).
    change (fold_right Rplus 0 (d :: rest)) with (d + fold_right Rplus 0 rest).
    assert (Hk : 0 <= rate * d <= 1) by (split; [apply Rmult_le_pos |]; lra).
    pose proof (lerp_towards_one p (rate * d) Hp Hk) as Hstep.
    assert (Hp' : 0 <= lerp p 1 (rate * d) <= 1) by lra.
    specialize (IH _ Hp').
    eapply Rle_trans; [exact IH |].
    replace (- rate * (d + fold_right Rplus 0 rest))
      with (- (rate * d) + - rate * fold_right Rplus 0 rest) by ring.
    rewrite exp_plus.
    pose proof (exp_ineq1_le (- (rate * d))) as He.
    pose proof (exp_pos (- rate * fold_right Rplus 0 rest)) as Hpos.
    assert (Hgap : 1 - lerp p 1 (rate * d) = (1 - p) * (1 - rate * d))
      by (unfold lerp; ring).
    rewrite Hgap.
    assert (H1 : (1 - p) * (1 - rate * d) <= (1 - p) * exp (- (rate * d))).
    { apply Rmult_le_compat_l; lra. }
    rewrite <- Rmult_assoc.
    apply Rmult_le_compat_r; lra.
Qed.

Lemma stable_deltas (rate : R) (frames : list (R * R)) :
  Forall (stable rate) frames ->
  Forall (fun d => 0 <= d /\ rate * d <= 1) (map snd frames).
Proof.
  induction 1 as [| f rest Hf _ IH]; simpl; constructor; auto.
Qed.

Lemma elapsed_deltas (frames : list (R * R)) :
  elapsed frames = fold_right Rplus 0 (map snd frames).
Proof.
  induction frames as [| f rest IH]; simpl; [reflexivity | now rewrite IH].
Qed.

Lemma smoothingRate_pos (g : Group) : 0 < smoothingRate g.
Proof. destruct g; simpl; lra. Qed.

Lemma targetMorphOf_formed : Ornaments.targetMorphOf TREE_SHAPE = 1.
Proof. reflexivity. Qed.

(** C1, amended: with the mode held at Formed and every frame's delta
    non-negative and short enough that rate * delta <= 1 (the code does
    not clamp it), each group's morph progress, started at 0, stays in
    [0, 1], does not decrease from one frame to the next, and is within
    exp (- rate * T) of 1 after frames summing to T, so that it comes as
    close to 1 as wanted once T is large enough. *)
Theorem morph_progress_stable_frames :
  forall (g : Group) (frames : list (R * R)),
    Forall (stable (smoothingRate g)) frames ->
    0 <= progressAfter g TREE_SHAPE frames <= 1
    /\ (forall pre f post, frames = pre ++ f :: post ->
          progressAfter g TREE_SHAPE pre <= progressAfter g TREE_SHAPE (pre ++ [f]))
    /\ 1 - progressAfter g TREE_SHAPE frames <= exp (- smoothingRate g * elapsed frames)
    /\ (forall eps, 0 < eps ->
          - ln eps / smoothingRate g <= elapsed frames ->
          1 - eps <= progressAfter g TREE_SHAPE frames).
Proof.
  intros g frames Hall.
  pose proof (smoothingRate_pos g) as Hrate.
  assert (Hgap : 1 - progressAfter g TREE_SHAPE frames
                 <= exp (- smoothingRate g * elapsed frames)).
  { rewrite progressAfter_smooth, targetMorphOf_formed, elapsed_deltas.
    pose proof (smooth_gap (smoothingRate g) (map snd frames) 0) as H.
    rewrite Rminus_0_r, Rmult_1_l in H.
    apply H; [lra | now apply stable_deltas | lra]. }
  split; [| split; [| split]].
  - rewrite progressAfter_smooth, targetMorphOf_formed.
    apply (smooth_unit_interval (smoothingRate g)); [lra | now apply stable_deltas | lra].
  - intros pre f post ->.
    apply Forall_app in Hall as [Hpre Hrest].
    inversion Hrest as [| f' post' Hf _]; subst.
    rewrite !progressAfter_smooth, targetMorphOf_formed, map_app.
    change (map snd [f]) with [snd f]. rewrite smooth_snoc.
    destruct Hf as [Hf0 Hf1].
    pose proof (smooth_unit_interval (smoothingRate g) (map snd pre) 0) as Hin.
    apply lerp_towards_one.
    + split; [| apply Hin; [lra | now apply stable_deltas | lra]].
      apply Rle_trans with 0; [lra |].
      apply Hin; [lra | now apply stable_deltas | lra].
    + split; [apply Rmult_le_pos; lra | lra].
  - exact Hgap.
  - intros eps Heps HT.
    assert (Hle : exp (- smoothingRate g * elapsed frames) <= eps).
    { rewrite <- (exp_ln eps Heps).
      assert (Harg : - smoothingRate g * elapsed frames <= ln eps).
      { apply Rmult_le_compat_l with (r := smoothingRate g) in HT; [| lra].
        replace (smoothingRate g * (- ln eps / smoothingRate g)) with (- ln eps) in HT
          by (field; lra).
        lra. }
      destruct Harg as [Hlt | Heq].
      - left. now apply exp_increasing.
      - rewrite Heq. lra. }
    lra.
Qed.

(** C1 on two frames of 1/60 s for an ornament group without entities. *)
Lemma morph_progress_stable_frames_witness :
  let g := OrnamentGroup [] in
  let frames := steady (1 / 60) 2 in
  0 <= progressAfter g TREE_SHAPE frames <= 1
  /\ (forall pre f post, frames = pre ++ f :: post ->
        progressAfter g TREE_SHAPE pre <= progressAfter g TREE_SHAPE (pre ++ [f]))
  /\ 1 - progressAfter g TREE_SHAPE frames <= exp (- smoothingRate g * elapsed frames)
  /\ (forall eps, 0 < eps ->
        - ln eps / smoothingRate g <= elapsed frames ->
        1 - eps <= progressAfter g TREE_SHAPE frames).
Proof.
  apply (morph_progress_stable_frames (OrnamentGroup []) (steady (1 / 60) 2)).
  repeat constructor; simpl; lra.
Defined.

(** C1 as stated fails: the deltas of the frames below are non-negative,
    yet after the first (a one-second frame) the ornaments' progress is
    above 1, and the second frame then lowers it. *)
Lemma morph_progress_long_frame_counterexample :
  let g := OrnamentGroup [] in
  let frames := [(1, 1); (2, 1)] in
  Forall (fun f => 0 <= snd f) frames
  /\ ~ (progressAfter g TREE_SHAPE [(1, 1)] <= 1)
  /\ ~ (progressAfter g TREE_SHAPE [(1, 1)] <= progressAfter g TREE_SHAPE frames).
Proof.
  cbv zeta. split; [repeat constructor; simpl; lra |].
  unfold progressAfter, Ornaments.runMesh, Ornaments.updateInstances,
    Ornaments.currentMorph, Ornaments.targetMorphOf, lerp.
  simpl. split; lra.
Qed.

End MorphClockFacts.

(* ===================================================================== *)
(** * Ornaments: instance buffer and end-to-end run *)
(* ===================================================================== *)

Section OrnamentsFacts.
Import Three Random MathUtil Types Ornaments.

Lemma setMatrixAt_length (i : nat) (m : Transform) (buf : list Transform) :
  List.length (setMatrixAt i m buf) = List.length buf.
Proof.
  revert i. induction buf as [| b rest IH]; intros [| j]; simpl; auto.
Qed.

Lemma nth_error_setMatrixAt_same (i : nat) (m : Transform) (buf : list Transform) :
  (i < List.length buf)%nat -> nth_error (setMatrixAt i m buf) i = Some m.
Proof.
  revert i. induction buf as [| b rest IH]; intros [| j] H; simpl in *; try lia.
  - reflexivity.
  - apply IH. lia.
Qed.

Lemma nth_error_setMatrixAt_other (i j : nat) (m : Transform) (buf : list Transform) :
  i <> j -> nth_error (setMatrixAt i m buf) j = nth_error buf j.
Proof.
  revert i j. induction buf as [| b rest IH]; intros [| i] [| j] H; simpl; try reflexivity.
  - contradiction.
  - apply IH. congruence.
Qed.

Lemma instanceLoop_length (k : nat) (data : list OrnamentData) (t time : R)
    (buf : list Transform) :
  List.length (instanceLoop k data t time buf) = List.length buf.
Proof.
  revert k buf. induction data as [| item rest IH]; intros k buf; simpl.
  - reflexivity.
  - rewrite IH. apply setMatrixAt_length.
Qed.

(** The loop from index [k] on leaves the entries below [k] alone. *)
Lemma instanceLoop_below (k i : nat) (data : list OrnamentData) (t time : R)
    (buf : list Transform) :
  (i < k)%nat ->
  nth_error (instanceLoop k data t time buf) i = nth_error buf i.
Proof.
  revert k buf. induction data as [| item rest IH]; intros k buf H; simpl.
  - reflexivity.
  - rewrite IH by lia. apply nth_error_setMatrixAt_other. lia.
Qed.

(** After the loop, the entry of every entity is its transform. *)
Lemma instanceLoop_nth (k j : nat) (data : list OrnamentData) (t time : R)
    (buf : list Transform) (item : OrnamentData) :
  nth_error data j = Some item ->
  (k + j < List.length buf)%nat ->
  nth_error (instanceLoop k data t time buf) (k + j)
  = Some (instanceTransform (k + j) item t time).
Proof.
  revert k j buf. induction data as [| d rest IH]; intros k j buf Hj Hlen.
  - destruct j; discriminate.
  - destruct j as [| j]; simpl in Hj |- *.
    + injection Hj as ->. rewrite Nat.add_0_r in *.
      rewrite instanceLoop_below by lia.
      now apply nth_error_setMatrixAt_same.
    + replace (k + S j)%nat with (S k + j)%nat by lia.
      apply IH; [exact Hj |].
      rewrite setMatrixAt_length. lia.
Qed.

Lemma runMesh_app (data : list OrnamentData) (target : R)
    (pre post : list (R * R)) (mesh : option InstancedMesh) :
  runMesh data target (pre ++ post) mesh
  = runMesh data target post (runMesh data target pre mesh).
Proof.
  revert mesh. induction pre as [| [time delta] pre IH]; intros mesh; simpl.
  - reflexivity.
  - apply IH.
Qed.

Lemma runMesh_buffer_length (data : list OrnamentData) (target : R)
    (frames : list (R * R)) (m m' : InstancedMesh) :
  runMesh data target frames (Some m) = Some m' ->
  List.length (instanceMatrix m') = List.length (instanceMatrix m).
Proof.
  revert m. induction frames as [| [time delta] rest IH]; intros m H; simpl in H.
  - injection H as ->. reflexivity.
  - apply IH in H. rewrite H. simpl. apply instanceLoop_length.
Qed.

(** Each of the four groups runs on its own mesh and data. *)
Lemma run_groups (state : TreeState) (frames : list (R * R)) (g : Groups) :
  run state frames g =
  mkGroups
    (runMesh (goldData g) (targetMorphOf state) frames (goldRef g)) (goldData g)
    (runMesh (ceramicData g) (targetMorphOf state) frames (ceramicRef g)) (ceramicData g)
    (runMesh (satinData g) (targetMorphOf state) frames (satinRef g)) (satinData g)
    (runMesh (boxData g) (targetMorphOf state) frames (boxesRef g)) (boxData g).
Proof.
  revert g. induction frames as [| [time delta] rest IH]; intros g; simpl.
  - destruct g; reflexivity.
  - rewrite IH. reflexivity.
Qed.

(** Equal deltas give a closed form of the smoothing recurrence. *)
Lemma smooth_repeat (rate delta : R) (n : nat) (p : R) :
  MorphClock.smooth rate 1 (repeat delta n) p
  = 1 - (1 - p) * (1 - rate * delta) ^ n.
Proof.
  revert p. induction n as [| n IH]; intros p.
  - unfold MorphClock.smooth. simpl. ring.
  - change (MorphClock.smooth rate 1 (repeat delta (S n)) p)
      with (MorphClock.smooth rate 1 (repeat delta n) (lerp p 1 (rate * delta))).
    rewrite IH. unfold lerp. simpl. ring.
Qed.

Lemma pow_39_40_300 : (39 / 40) ^ 300 <= 1 / 1900.
Proof.
  assert (H : 1900 * 39 ^ 300 <= 40 ^ 300).
  { rewrite !pow_IZR, <- mult_IZR. apply IZR_le. vm_compute. discriminate. }
  assert (Hpos : 0 < 40 ^ 300) by (apply pow_lt; lra).
  unfold Rdiv at 1. rewrite Rpow_mult_distr, pow_inv.
  apply Rmult_le_reg_r with (40 ^ 300); [exact Hpos |].
  rewrite Rmult_assoc, Rinv_l by lra. lra.
Qed.

Lemma map_snd_frames (times : list R) (delta : R) :
  map snd (map (fun time => (time, delta)) times) = repeat delta (List.length times).
Proof.
  induction times as [| time rest IH]; simpl; [reflexivity | now rewrite IH].
Qed.

Lemma length_bounds_coords (v : Vector3) (r : R) :
  length v <= r -> - r <= vx v <= r /\ - r <= vy v <= r /\ - r <= vz v <= r.
Proof.
  unfold length. intros H.
  set (q := vx v * vx v + vy v * vy v + vz v * vz v) in *.
  assert (Hq : 0 <= q) by (unfold q; nra).
  pose proof (sqrt_pos q) as Hs. pose proof (sqrt_sqrt q Hq) as Hss.
  assert (Hr : q <= r * r) by nra.
  unfold q in Hr.
  repeat split; nra.
Qed.

Lemma sqrt_lt_bound (x e : R) : 0 <= x -> 0 < e -> x < e * e -> sqrt x < e.
Proof.
  intros Hx He H. rewrite <- (sqrt_square e) by lra.
  apply sqrt_lt_1_alt. lra.
Qed.

(** Once the morph value is within 1/1900 of 1, a well-placed entity is
    drawn within 0.05 of its tree position, idle motion included. *)
Lemma instance_near_tree (i : nat) (item : OrnamentData) (t time : R) :
  wellPlaced item -> 0 <= 1 - t <= 1 / 1900 ->
  distanceTo (position (instanceTransform i item t time)) (od_tree item) < 0.05.
Proof.
  intros (Htx & Hty & Htz & Hsc) Hg.
  apply length_bounds_coords in Hsc as (Hsx & Hsy & Hsz).
  unfold distanceTo, instanceTransform, lerpVectors, floatAmp. cbn [position vx vy vz].
  pose proof (COS_bound (time * od_speed item * 0.5 + INR i)) as Hc.
  pose proof (SIN_bound (time * od_speed item + INR i)) as Hs.
  set (c := cos _) in *. set (sn := sin _) in *.
  destruct (od_scatter item) as [sx sy sz], (od_tree item) as [tx ty tz].
  cbn [vx vy vz] in *.
  set (g := 1 - t) in *.
  replace (sx + (tx - sx) * t + c * (g * 0.5) - tx)
    with (g * (sx - tx) + c * g * 0.5) by (unfold g; ring).
  replace (sy + (ty - sy) * t + sn * (g * 0.5) - ty)
    with (g * (sy - ty) + sn * g * 0.5) by (unfold g; ring).
  replace (sz + (tz - sz) * t - tz) with (g * (sz - tz)) by (unfold g; ring).
  set (dx := g * (sx - tx) + c * g * 0.5).
  set (dy := g * (sy - ty) + sn * g * 0.5).
  set (dz := g * (sz - tz)).
  assert (Hdx : - (26 * g) <= dx <= 26 * g) by (unfold dx; split; nra).
  assert (Hdy : - (27 * g) <= dy <= 27 * g) by (unfold dy; split; nra).
  assert (Hdz : - (26 * g) <= dz <= 26 * g) by (unfold dz; split; nra).
  clearbody dx dy dz.
  assert (Hx2 : dx * dx <= (26 * g) * (26 * g)) by nra.
  assert (Hy2 : dy * dy <= (27 * g) * (27 * g)) by nra.
  assert (Hz2 : dz * dz <= (26 * g) * (26 * g)) by nra.
  assert (Hg2 : g * g <= 1 / 1900 * (1 / 1900)) by nra.
  apply sqrt_lt_bound; nra.
Qed.

Lemma forPush_Forall {A : Type} (P : A -> Prop) (count start : nat)
    (body : nat -> Rand A) (src : Source) (n : nat) :
  (forall i k, P (fst (body i src k))) ->
  Forall P (fst (forPush count start body src n)).
Proof.
  intros HP. revert start n. induction count as [| c IH]; intros start n; simpl.
  - constructor.
  - unfold bind. specialize (HP start n).
    destruct (body start src n) as [a n1]. specialize (IH (S start) n1).
    destruct (forPush c (S start) body src n1) as [rest n2]. simpl in *.
    now constructor.
Qed.

Lemma forPush_length {A : Type} (count start : nat) (body : nat -> Rand A)
    (src : Source) (n : nat) :
  List.length (fst (forPush count start body src n)) = count.
Proof.
  revert start n. induction count as [| c IH]; intros start n; simpl.
  - reflexivity.
  - unfold bind. destruct (body start src n) as [a n1]. specialize (IH (S start) n1).
    destruct (forPush c (S start) body src n1) as [rest n2]. simpl in *. now rewrite IH.
Qed.

Lemma planar_length (r theta : R) :
  0 <= r -> length (mkVector3 (r * cos theta) 0 (r * sin theta)) = r.
Proof.
  intros Hr. unfold length. cbn [vx vy vz].
  pose proof (sin2_cos2 theta) as Ht. unfold Rsqr in Ht.
  replace (r * cos theta * (r * cos theta) + 0 * 0 + r * sin theta * (r * sin theta))
    with (r * r * (sin theta * sin theta + cos theta * cos theta)) by ring.
  rewrite Ht, Rmult_1_r. now apply sqrt_square.
Qed.

(** A point at distance [r] from the axis, pushed outwards by [push]
    along its radial direction, stays within [r + push] of the axis in
    both horizontal coordinates. *)
Lemma pushed_outwards (r theta y push bound : R) :
  0 <= r -> 0 <= push -> r + push <= bound ->
  let tp := mkVector3 (r * cos theta) y (r * sin theta) in
  let radialDir := normalize (mkVector3 (vx tp) 0 (vz tp)) in
  let q := add tp (multiplyScalar radialDir push) in
  - bound <= vx q <= bound /\ vy q = y /\ - bound <= vz q <= bound.
Proof.
  intros Hr Hp Hb. cbv zeta. cbn [vx vy vz].
  unfold normalize. rewrite planar_length by exact Hr.
  pose proof (COS_bound theta) as Hc. pose proof (SIN_bound theta) as Hs.
  unfold add, divideScalar, multiplyScalar. cbn [vx vy vz].
  destruct (Req_dec_T r 0) as [-> | Hne].
  - repeat split; try nra.
  - replace (r * cos theta + r * cos theta * (1 / r) * push)
      with (cos theta * (r + push)) by (field; exact Hne).
    replace (r * sin theta + r * sin theta * (1 / r) * push)
      with (sin theta * (r + push)) by (field; exact Hne).
    repeat split; try nra.
Qed.

Lemma generateOrnament_wellPlaced (type : OrnamentType) (palette : list Color)
    (src : Source) (n : nat) :
  uniform src -> wellPlaced (fst (generateOrnament type palette src n)).
Proof.
  intros Hu. unfold wellPlaced.
  assert (Htree : od_tree (fst (generateOrnament type palette src n)) =
    let tp := Random.run (getTreePoint 12 5.0 (-6)) src n in
    add tp (multiplyScalar (normalize (mkVector3 (vx tp) 0 (vz tp))) 0.4))
    by reflexivity.
  assert (Hscatter : od_scatter (fst (generateOrnament type palette src n)) =
    Random.run (getScatterPoint 20) src (3 + n)) by reflexivity.
  rewrite Htree, Hscatter. clear Htree Hscatter.
  destruct (Hu n) as [H0 H1].
  assert (Hq : 0 <= sqrt (src (S n)) <= 1).
  { destruct (Hu (S n)). split; [apply sqrt_pos |].
    rewrite <- sqrt_1. apply sqrt_le_1_alt. lra. }
  rewrite getTreePoint_run. cbv zeta.
  set (r := 5.0 * (1 - src n) * (0.2 + 0.8 * sqrt (src (S n)))).
  assert (Hr : 0 <= r <= 5) by (unfold r; split; nra).
  destruct (pushed_outwards r (src (S (S n)) * PI * 2) (src n * 12 + -6) 0.4 5.4)
    as (Hx & Hy & Hz); try lra.
  cbv zeta in Hx, Hy, Hz.
  repeat split; try lra; try (rewrite Hy; nra).
  rewrite getScatterPoint_length by (lra || assumption).
  pose proof (Hu (S (S (3 + n)))) as [Hw0 Hw1].
  pose proof (cbrt_le_1 _ Hw0 Hw1).
  pose proof (cbrt_nonneg _ Hw0). nra.
Qed.

Lemma share_600 :
  share 600 0.3 = 180%nat /\ share 600 0.4 = 240%nat /\ share 600 0.15 = 90%nat.
Proof.
  unfold share. rewrite INR_IZR_INZ. change (Z.of_nat 600) with 600%Z.
  repeat split.
  - rewrite (Zfloor_eq 180) by lra. reflexivity.
  - rewrite (Zfloor_eq 240) by lra. reflexivity.
  - rewrite (Zfloor_eq 90) by lra. reflexivity.
Qed.

(** What [mount] builds: four generated data sets, well placed, each
    with a fresh mesh of its size. *)
Lemma mount_shape (count : nat) (src : Source) (n : nat) :
  uniform src ->
  let g := Random.run (mount count) src n in
  (Forall wellPlaced (goldData g)
   /\ goldRef g = Some (newMesh (List.length (goldData g)))
   /\ List.length (goldData g) = share count 0.3)
  /\ (Forall wellPlaced (ceramicData g)
      /\ ceramicRef g = Some (newMesh (List.length (ceramicData g)))
      /\ List.length (ceramicData g) = share count 0.4)
  /\ (Forall wellPlaced (satinData g)
      /\ satinRef g = Some (newMesh (List.length (satinData g)))
      /\ List.length (satinData g) = share count 0.3)
  /\ (Forall wellPlaced (boxData g)
      /\ boxesRef g = Some (newMesh (List.length (boxData g)))
      /\ List.length (boxData g) = share count 0.15).
Proof.
  intros Hu. cbv zeta.
  unfold Random.run, mount, bind, generateOrnamentData.
  repeat match goal with
  | |- context [forPush ?c 0%nat ?b src ?k] =>
      let HF := fresh "HF" in
      let HL := fresh "HL" in
      assert (HF : Forall wellPlaced (fst (forPush c 0%nat b src k)))
        by (apply forPush_Forall; intros; now apply generateOrnament_wellPlaced);
      pose proof (forPush_length c 0%nat b src k) as HL;
      destruct (forPush c 0%nat b src k) as [? ?]; cbn [fst] in HF, HL
  end.
  cbn [fst ret goldData goldRef ceramicData ceramicRef satinData satinRef boxData boxesRef].
  repeat split; assumption.
Qed.

(** One group over 300 frames of 1/60 s with target 1, from a fresh
    mesh: it reaches the tree. *)
Lemma mesh_settles (data : list OrnamentData) (times : list R) :
  Forall wellPlaced data -> List.length times = 300%nat ->
  formedWithin 0.05
    (runMesh data 1 (map (fun time => (time, 1 / 60)) times)
       (Some (newMesh (List.length data))))
    data.
Proof.
  intros Hdata Hlen.
  set (frames := map (fun time => (time, 1 / 60)) times).
  destruct (ornaments_run_morph data 1 frames (newMesh (List.length data)))
    as [m [Hrun Hmorph]].
  unfold frames in Hmorph. rewrite map_snd_frames, Hlen, smooth_repeat in Hmorph.
  change (currentMorph (newMesh (List.length data))) with 0 in Hmorph.
  replace (1 - 1.5 * (1 / 60)) with (39 / 40) in Hmorph by lra.
  pose proof pow_39_40_300 as Hpow.
  assert (Hpos : 0 <= (39 / 40) ^ 300) by (apply pow_le; lra).
  assert (Hgap : 0 <= 1 - currentMorph m <= 1 / 1900) by (rewrite Hmorph; lra).
  exists m. split; [exact Hrun |]. split; [lra |]. split; [unfold floatAmp; lra |].
  intros i item Hi.
  (* the last frame wrote every entry of the buffer *)
  destruct (exists_last (l := times)) as [pre [last Htimes]].
  { intros ->. discriminate. }
  unfold frames in Hrun. rewrite Htimes, map_app, runMesh_app in Hrun.
  destruct (ornaments_run_morph data 1 (map (fun time => (time, 1 / 60)) pre)
              (newMesh (List.length data))) as [m1 [Hrun1 _]].
  pose proof (runMesh_buffer_length _ _ _ _ _ Hrun1) as Hlen1.
  simpl in Hlen1. rewrite repeat_length in Hlen1.
  rewrite Hrun1 in Hrun. simpl in Hrun. injection Hrun as Hm.
  assert (Ht : currentMorph m = lerp (currentMorph m1) 1 (1.5 * (1 / 60)))
    by (rewrite <- Hm; reflexivity).
  assert (Hi' : (i < List.length data)%nat)
    by (apply nth_error_Some; congruence).
  exists (instanceTransform i item (currentMorph m) last). split.
  - rewrite <- Hm. cbn [instanceMatrix]. rewrite <- Ht.
    apply (instanceLoop_nth 0 i); [exact Hi |]. simpl. lia.
  - apply instance_near_tree; [| exact Hgap].
    rewrite Forall_forall in Hdata. apply Hdata. eapply nth_error_In. exact Hi.
Qed.

(** C4: mount the ornaments with count 600 (600 spheres in three groups
    and 90 boxes), whatever the random draws, and run 300 frames of
    1/60 s (5 simulated seconds, any elapsed-time stamps) in Formed mode
    from the fresh meshes (morph 0).  Then in each of the four groups the
    final morph value is above 0.95, the idle-motion amplitude is below
    0.05 (and is exactly 0 at morph value 1), and every instance is drawn
    within 0.05 of the tree position of its entity. *)
Theorem ornaments_formed_after_five_seconds :
  forall (src : Source) (n : nat) (times : list R),
    uniform src -> List.length times = 300%nat ->
    let groups := Random.run (mount 600) src n in
    let frames := map (fun time => (time, 1 / 60)) times in
    let final := run TREE_SHAPE frames groups in
    (List.length (goldData final) + List.length (ceramicData final)
       + List.length (satinData final) = 600)%nat
    /\ List.length (boxData final) = 90%nat
    /\ formedWithin 0.05 (goldRef final) (goldData final)
    /\ formedWithin 0.05 (ceramicRef final) (ceramicData final)
    /\ formedWithin 0.05 (satinRef final) (satinData final)
    /\ formedWithin 0.05 (boxesRef final) (boxData final)
    /\ floatAmp 1 = 0.
Proof.
  intros src n times Hu Hlen. cbv zeta.
  rewrite run_groups. cbn [goldData goldRef ceramicData ceramicRef satinData satinRef
                            boxData boxesRef].
  destruct (mount_shape 600 src n Hu)
    as ((Hg & Hgr & Hgl) & (Hc & Hcr & Hcl) & (Hs & Hsr & Hsl) & (Hb & Hbr & Hbl)).
  destruct share_600 as (S3 & S4 & S15).
  rewrite Hgr, Hcr, Hsr, Hbr. change (targetMorphOf TREE_SHAPE) with 1.
  split; [rewrite Hgl, Hcl, Hsl, S3, S4; reflexivity |].
  split; [rewrite Hbl, S15; reflexivity |].
  repeat split; try (now apply mesh_settles).
  unfold floatAmp. lra.
Qed.

(** C4 for the source of draws that always yields 1/2 and 300 frames
    stamped 0. *)
Lemma ornaments_formed_after_five_seconds_witness :
  let src := fun _ : nat => 1 / 2 in
  let groups := Random.run (mount 600) src 0 in
  let frames := map (fun time => (time, 1 / 60)) (repeat 0 300) in
  let final := run TREE_SHAPE frames groups in
  (List.length (goldData final) + List.length (ceramicData final)
     + List.length (satinData final) = 600)%nat
  /\ List.length (boxData final) = 90%nat
  /\ formedWithin 0.05 (goldRef final) (goldData final)
  /\ formedWithin 0.05 (ceramicRef final) (ceramicData final)
  /\ formedWithin 0.05 (satinRef final) (satinData final)
  /\ formedWithin 0.05 (boxesRef final) (boxData final)
  /\ floatAmp 1 = 0.
Proof.
  apply (ornaments_formed_after_five_seconds (fun _ : nat => 1 / 2) 0%nat (repeat 0 300)).
  - intros k. lra.
  - apply repeat_length.
Defined.

End OrnamentsFacts.

(* ===================================================================== *)
(** * Gesture classifier and the frame callback of Experience *)
(* ===================================================================== *)

Section ExperienceFacts.
Import Three Random Types Experience.

(** A sample whose fingertip average is defined has all 21 landmarks the
    classifier reads. *)
Lemma avgDistToWrist_defined (landmarks : list Landmark) (avg : R) :
  avgDistToWrist landmarks = Some avg ->
  exists pinch handCenter,
    pinchDist landmarks = Some pinch /\ nth_error landmarks 9 = Some handCenter.
Proof.
  unfold avgDistToWrist, sumDistToWrist, pinchDist. cbn [fold_left].
  intros H.
  assert (H20 : nth_error landmarks 20 <> None).
  { intros Hn. rewrite Hn in H.
    destruct (dist (nth_error landmarks 8) (nth_error landmarks 0));
      [destruct (dist (nth_error landmarks 12) (nth_error landmarks 0));
       [destruct (dist (nth_error landmarks 16) (nth_error landmarks 0)) |] |];
      discriminate. }
  apply nth_error_Some in H20.
  destruct (nth_error landmarks 4) as [thumb |] eqn:E4;
    [| apply nth_error_None in E4; lia].
  destruct (nth_error landmarks 8) as [index |] eqn:E8;
    [| apply nth_error_None in E8; lia].
  destruct (nth_error landmarks 9) as [center |] eqn:E9;
    [| apply nth_error_None in E9; lia].
  eexists _, center. split; reflexivity.
Qed.

(** The hand-rotation part writes the rotation target only. *)
Lemma handRotation_mode (landmarks : list Landmark) (e e1 : State) :
  treeState (fst (handRotation landmarks e e1)) = treeState e1
  /\ focusedPhotoId (fst (handRotation landmarks e e1)) = focusedPhotoId e1
  /\ userPhotos (fst (handRotation landmarks e e1)) = userPhotos e1.
Proof.
  unfold handRotation.
  destruct (negb (TreeState_eqb (treeState e) TREE_SHAPE));
    [destruct (nth_error landmarks 9) |]; repeat split.
Qed.

(** With a defined sample, the mode after [detectGestures] is the one
    [classify] decides. *)
Lemma detectGestures_classify (landmarks : list Landmark) (e : State)
    (src : Source) (n : nat) (avg pinch : R) :
  avgDistToWrist landmarks = Some avg ->
  pinchDist landmarks = Some pinch ->
  let final := fst (Random.run (detectGestures landmarks e) src n) in
  let decided := Random.run (classify avg pinch e) src n in
  treeState final = treeState decided
  /\ focusedPhotoId final = focusedPhotoId decided
  /\ userPhotos final = userPhotos decided.
Proof.
  intros Havg Hpinch. cbv zeta.
  unfold detectGestures, Random.run. rewrite Havg, Hpinch. unfold bind.
  destruct (classify avg pinch e src n) as [e1 n1]. cbn [fst ret].
  apply handRotation_mode.
Qed.

Lemma classify_fist (avg pinch : R) (e : State) (src : Source) (n : nat) :
  avg < 0.15 ->
  treeState (Random.run (classify avg pinch e) src n) = TREE_SHAPE
  /\ focusedPhotoId (Random.run (classify avg pinch e) src n) = focusedPhotoId e
  /\ userPhotos (Random.run (classify avg pinch e) src n) = userPhotos e.
Proof.
  intros H. unfold classify, Random.run.
  destruct (Rlt_dec avg 0.15) as [_ | Hn]; [| contradiction].
  destruct (treeState e) eqn:E; cbn; rewrite ?E; repeat split.
Qed.

Lemma classify_open (avg pinch : R) (e : State) (src : Source) (n : nat) :
  ~ avg < 0.15 -> avg > 0.35 ->
  treeState (Random.run (classify avg pinch e) src n) = SCATTERED
  /\ focusedPhotoId (Random.run (classify avg pinch e) src n) = focusedPhotoId e.
Proof.
  intros H1 H2. unfold classify, Random.run.
  destruct (Rlt_dec avg 0.15) as [Hc | _]; [contradiction |].
  destruct (Rgt_dec avg 0.35) as [_ | Hn]; [| contradiction].
  destruct (treeState e) eqn:E; cbn; rewrite ?E; repeat split.
Qed.

(** A fist sample classified any number of times (at least once) leaves
    the mode Formed. *)
Lemma classifyTimes_fist (k : nat) (landmarks : list Landmark) (avg : R) :
  avgDistToWrist landmarks = Some avg -> avg < 0.15 ->
  forall (e : State) (src : Source) (n : nat),
    treeState (Random.run (classifyTimes (S k) landmarks e) src n) = TREE_SHAPE.
Proof.
  intros Havg Hfist.
  destruct (avgDistToWrist_defined _ _ Havg) as (pinch & hc & Hpinch & _).
  induction k as [| k IH]; intros e src n.
  - pose proof (detectGestures_classify landmarks e src n avg pinch Havg Hpinch) as [Hm _].
    pose proof (classify_fist avg pinch e src n Hfist) as [Hc _].
    cbv zeta in Hm. rewrite Hc in Hm.
    unfold Random.run in *. cbn [classifyTimes]. unfold bind.
    destruct (detectGestures landmarks e src n) as [r n1]. exact Hm.
  - unfold Random.run in *. change (classifyTimes (S (S k)) landmarks e)
      with (bind (detectGestures landmarks e)
                 (fun r => classifyTimes (S k) landmarks (fst r))).
    unfold bind at 1. destruct (detectGestures landmarks e src n) as [r n1].
    apply IH.
Qed.

(** C2: for every hand sample whose fingertip average is defined, an
    average below 0.15 sets the mode to Formed whatever the pinch
    distance and the prior mode (the focused id is left alone), otherwise
    an average above 0.35 sets it to Scattered; and a fist sample
    classified again and again keeps the mode Formed. *)
Theorem fist_and_open_hand_rules :
  forall (landmarks : list Landmark) (avg : R) (e : State) (src : Source) (n : nat),
    avgDistToWrist landmarks = Some avg ->
    let final := fst (Random.run (detectGestures landmarks e) src n) in
    (avg < 0.15 ->
       treeState final = TREE_SHAPE
       /\ focusedPhotoId final = focusedPhotoId e
       /\ forall k, treeState (Random.run (classifyTimes (S k) landmarks e) src n)
                    = TREE_SHAPE)
    /\ (~ avg < 0.15 -> avg > 0.35 ->
          treeState final = SCATTERED /\ focusedPhotoId final = focusedPhotoId e).
Proof.
  intros landmarks avg e src n Havg. cbv zeta.
  destruct (avgDistToWrist_defined _ _ Havg) as (pinch & hc & Hpinch & _).
  pose proof (detectGestures_classify landmarks e src n avg pinch Havg Hpinch)
    as (Hm & Hf & _). cbv zeta in Hm, Hf.
  split.
  - intros Hfist. destruct (classify_fist avg pinch e src n Hfist) as (Hc & Hi & _).
    repeat split; try congruence.
    intros k. now apply (classifyTimes_fist k landmarks avg).
  - intros Hn Hopen. destruct (classify_open avg pinch e src n Hn Hopen) as (Hc & Hi).
    split; congruence.
Qed.

Lemma sample_avg (reach gap : R) :
  0 <= reach -> avgDistToWrist (sample reach gap) = Some reach.
Proof.
  intros Hr. unfold avgDistToWrist, sumDistToWrist, sample. cbn.
  replace ((reach - 0) * ((reach - 0) * 1) + (0 - 0) * ((0 - 0) * 1)
           + (0 - 0) * ((0 - 0) * 1)) with (reach * reach) by ring.
  rewrite sqrt_square by exact Hr. f_equal. field.
Qed.

Lemma sample_pinch (reach gap : R) :
  0 <= gap -> pinchDist (sample reach gap) = Some gap.
Proof.
  intros Hg. unfold pinchDist, sample. cbn.
  replace ((reach - reach) * ((reach - reach) * 1) + (gap - 0) * ((gap - 0) * 1)
           + (0 - 0) * ((0 - 0) * 1)) with (gap * gap) by ring.
  now rewrite sqrt_square.
Qed.

(** C2 on the fist sample with all fingertip distances 0.05 and on the
    open-hand sample with all distances 0.5, from the initial state. *)
Lemma fist_and_open_hand_rules_witness :
  let e := initialState [] in
  let src := fun _ : nat => 0 in
  (let final := fst (Random.run (detectGestures (sample 0.05 0) e) src 0) in
   treeState final = TREE_SHAPE
   /\ focusedPhotoId final = focusedPhotoId e
   /\ forall k, treeState (Random.run (classifyTimes (S k) (sample 0.05 0) e) src 0)
                = TREE_SHAPE)
  /\ (let final := fst (Random.run (detectGestures (sample 0.5 0) e) src 0) in
      treeState final = SCATTERED /\ focusedPhotoId final = focusedPhotoId e).
Proof.
  cbv zeta. split.
  - apply (fist_and_open_hand_rules (sample 0.05 0) 0.05 (initialState [])
             (fun _ : nat => 0) 0%nat).
    + apply sample_avg. lra.
    + lra.
  - apply (fist_and_open_hand_rules (sample 0.5 0) 0.5 (initialState [])
             (fun _ : nat => 0) 0%nat).
    + apply sample_avg. lra.
    + lra.
    + lra.
Defined.

Lemma classify_pinch (avg pinch : R) (e : State) (src : Source) (n : nat) :
  ~ avg < 0.15 -> ~ avg > 0.35 -> pinch < 0.05 ->
  Random.run (classify avg pinch e) src n =
  if negb (TreeState_eqb (treeState e) FOCUS)
     && (0 <? List.length (userPhotos e))%nat
  then setFocusedPhotoId (Some (randomId (src n) (userPhotos e)))
         (setTreeState FOCUS e)
  else e.
Proof.
  intros H1 H2 H3. unfold classify, Random.run.
  destruct (Rlt_dec avg 0.15) as [Hc | _]; [contradiction |].
  destruct (Rgt_dec avg 0.35) as [Hc | _]; [contradiction |].
  destruct (Rlt_dec pinch 0.05) as [_ | Hc]; [| contradiction].
  destruct (negb (TreeState_eqb (treeState e) FOCUS)
            && (0 <? List.length (userPhotos e))%nat); reflexivity.
Qed.

(** The index the pinch rule draws is one of the photo indices. *)
Lemma randomId_photoId (d : R) (photos : list string) :
  0 <= d < 1 -> photos <> [] ->
  exists i, (i < List.length photos)%nat
            /\ randomId d photos = UserPhotos.photoId i.
Proof.
  intros [Hd0 Hd1] Hne.
  assert (Hlen : 0 < INR (List.length photos)).
  { apply lt_0_INR. destruct photos; [contradiction | simpl; lia]. }
  set (k := Zfloor (d * INR (List.length photos))).
  assert (Hk0 : (0 <= k)%Z).
  { apply Zfloor_lub. simpl. nra. }
  assert (Hk1 : (k < Z.of_nat (List.length photos))%Z).
  { apply lt_IZR. rewrite <- INR_IZR_INZ.
    pose proof (Zfloor_bound (d * INR (List.length photos))) as [Hb _].
    fold k in Hb. nra. }
  exists (Z.to_nat k). split; [lia |].
  unfold randomId, UserPhotos.photoId. fold k. now rewrite Z2Nat.id.
Qed.

(** The ids of the generated photo entities are [photo-0], [photo-1], ... *)
Lemma mapFrom_ids (photos : list string) (index : nat) (src : Source) (n : nat) :
  map pd_id (fst (UserPhotos.mapFrom index photos src n))
  = map UserPhotos.photoId (seq index (List.length photos)).
Proof.
  revert index n. induction photos as [| url rest IH]; intros index n.
  - reflexivity.
  - cbn [UserPhotos.mapFrom List.length seq map]. unfold bind.
    assert (Hid : pd_id (fst (UserPhotos.generatePhoto url index src n))
                  = UserPhotos.photoId index) by reflexivity.
    destruct (UserPhotos.generatePhoto url index src n) as [d n1].
    specialize (IH (S index) n1).
    destruct (UserPhotos.mapFrom (S index) rest src n1) as [ds n2].
    cbn [fst ret map] in *. now rewrite Hid, IH.
Qed.

Lemma photoId_exists (photos : list string) (i : nat) (src : Source) (n : nat) :
  (i < List.length photos)%nat ->
  In (UserPhotos.photoId i)
     (map pd_id (Random.run (UserPhotos.photosData photos) src n)).
Proof.
  intros Hi. unfold Random.run, UserPhotos.photosData. rewrite mapFrom_ids.
  apply in_map, in_seq. lia.
Qed.

(** C3: for every hand sample whose fingertip average lies in
    [0.15, 0.35] and whose thumb-to-index distance is below 0.05, and
    every draw of the random source: when the mode is not Focus and there
    is a photo, the mode becomes Focus and the focused id is [photo-i]
    for some i below the number of photos, which is the id of a generated
    photo entity; when the mode is Focus already or there is no photo,
    mode and focused id stay as they are. *)
Theorem pinch_rule :
  forall (landmarks : list Landmark) (avg pinch : R) (e : State)
         (src : Source) (n : nat),
    uniform src ->
    avgDistToWrist landmarks = Some avg ->
    pinchDist landmarks = Some pinch ->
    0.15 <= avg <= 0.35 -> pinch < 0.05 ->
    let final := fst (Random.run (detectGestures landmarks e) src n) in
    (treeState e <> FOCUS -> userPhotos e <> [] ->
       treeState final = FOCUS
       /\ exists i,
            (i < List.length (userPhotos e))%nat
            /\ focusedPhotoId final = Some (UserPhotos.photoId i)
            /\ forall src' n',
                 In (UserPhotos.photoId i)
                    (map pd_id
                       (Random.run (UserPhotos.photosData (userPhotos e)) src' n')))
    /\ (treeState e = FOCUS \/ userPhotos e = [] ->
          treeState final = treeState e
          /\ focusedPhotoId final = focusedPhotoId e).
Proof.
  intros landmarks avg pinch e src n Hu Havg Hpinch [Hlo Hhi] Hp. cbv zeta.
  pose proof (detectGestures_classify landmarks e src n avg pinch Havg Hpinch)
    as (Hm & Hf & _). cbv zeta in Hm, Hf.
  rewrite classify_pinch in Hm, Hf by lra.
  split.
  - intros Hmode Hphotos.
    assert (Hguard : negb (TreeState_eqb (treeState e) FOCUS)
                     && (0 <? List.length (userPhotos e))%nat = true).
    { apply andb_true_iff. split.
      - destruct (treeState e); try reflexivity. contradiction.
      - apply Nat.ltb_lt. destruct (userPhotos e); [contradiction | simpl; lia]. }
    rewrite Hguard in Hm, Hf.
    cbn [focusedPhotoId setFocusedPhotoId setTreeState treeState] in Hm, Hf.
    split; [exact Hm |].
    destruct (randomId_photoId (src n) (userPhotos e) (Hu n) Hphotos) as (i & Hi & Hid).
    exists i. split; [exact Hi |]. split; [now rewrite Hf, Hid |].
    intros src' n'. now apply photoId_exists.
  - intros Hstay.
    assert (Hguard : negb (TreeState_eqb (treeState e) FOCUS)
                     && (0 <? List.length (userPhotos e))%nat = false).
    { destruct Hstay as [-> | ->]; [reflexivity | apply andb_false_r]. }
    rewrite Hguard in Hm, Hf. split; assumption.
Qed.

(** C3 on the sample with thumb-to-index distance 0.02 and the other
    distances 0.25, from Scattered with one photo. *)
Lemma pinch_rule_witness :
  let e := initialState ["blob:photo"%string] in
  let src := fun _ : nat => 1 / 2 in
  let final := fst (Random.run (detectGestures (sample 0.25 0.02) e) src 0) in
  (treeState e <> FOCUS -> userPhotos e <> [] ->
     treeState final = FOCUS
     /\ exists i,
          (i < List.length (userPhotos e))%nat
          /\ focusedPhotoId final = Some (UserPhotos.photoId i)
          /\ forall src' n',
               In (UserPhotos.photoId i)
                  (map pd_id
                     (Random.run (UserPhotos.photosData (userPhotos e)) src' n')))
  /\ (treeState e = FOCUS \/ userPhotos e = [] ->
        treeState final = treeState e
        /\ focusedPhotoId final = focusedPhotoId e).
Proof.
  apply (pinch_rule (sample 0.25 0.02) 0.25 0.02 (initialState ["blob:photo"%string])
           (fun _ : nat => 1 / 2) 0%nat).
  - intros k. lra.
  - apply sample_avg. lra.
  - apply sample_pinch. lra.
  - lra.
  - lra.
Defined.

Lemma freshFrame_Some (env : FrameEnv) (e : State) (video : Video) (d : Detection) :
  freshFrame env e = Some (video, d) ->
  handLandmarker env = Some d /\ videoRef env = Some video
  /\ currentTime video <> lastVideoTimeRef e.
Proof.
  unfold freshFrame. intros H.
  destruct (visionEnabled e); [| discriminate].
  destruct (handLandmarker env) as [d' |]; [| discriminate].
  destruct (videoRef env) as [v |]; [| discriminate].
  destruct (Req_dec_T (currentTime v) (lastVideoTimeRef e)) as [Heq | Hne].
  - rewrite andb_false_r in H. discriminate.
  - destruct (_ && _) in H; [| discriminate].
    injection H as -> ->. repeat split. exact Hne.
Qed.

(** The rotation of the group and of the star are not application state. *)
Lemma appState_animate (mode : TreeState) (e : State) :
  appState (spinStar (animateGroup mode e)) = appState e.
Proof.
  unfold spinStar, animateGroup.
  destruct (groupRef e) as [rot |]; [destruct mode |]; cbn;
    destruct (starRef e); reflexivity.
Qed.

(** The frame callback never throws, whatever the frame brings. *)
Lemma useFrame_completes (env : FrameEnv) (e : State) (src : Source) (n : nat) :
  snd (Random.run (useFrame env e) src n) = Normal.
Proof.
  unfold Random.run, useFrame, bind.
  assert (H : snd (fst (processFrame env e src n)) = Normal).
  { unfold processFrame.
    destruct (freshFrame env e) as [[video d] |]; [| reflexivity].
    unfold tryCatch, bind.
    match goal with |- context [match ?m src n with _ => _ end] =>
      destruct (m src n) as [r k] end.
    reflexivity. }
  destruct (processFrame env e src n) as [r n1]. cbn [fst] in H.
  rewrite H. reflexivity.
Qed.

(** On a frame without signal the processing step changes nothing of the
    application state. *)
Lemma processFrame_unavailable (env : FrameEnv) (e : State) (src : Source) (n : nat) :
  Unavailable env e ->
  appState (fst (fst (processFrame env e src n))) = appState e
  /\ snd (fst (processFrame env e src n)) = Normal.
Proof.
  intros Hun. unfold processFrame.
  destruct Hun as [Hnone | v Hv' Heq | lms Hd' Hlms | Hd'].
  - rewrite Hnone. split; reflexivity.
  - destruct (freshFrame env e) as [[video d] |] eqn:Hfresh; [| split; reflexivity].
    apply freshFrame_Some in Hfresh as (Hd & Hv & Hne).
    rewrite Hv in Hv'. injection Hv' as <-. contradiction.
  - destruct (freshFrame env e) as [[video d] |] eqn:Hfresh; [| split; reflexivity].
    apply freshFrame_Some in Hfresh as (Hd & Hv & Hne).
    rewrite Hd in Hd'. injection Hd' as ->.
    destruct Hlms as [-> | ->]; split; reflexivity.
  - destruct (freshFrame env e) as [[video d] |] eqn:Hfresh; [| split; reflexivity].
    apply freshFrame_Some in Hfresh as (Hd & Hv & Hne).
    rewrite Hd in Hd'. injection Hd' as ->. split; reflexivity.
Qed.

(** C7: on a frame where the feed is not ready, no new video frame is
    there, no hand is detected or the inference throws, the frame
    callback leaves the mode, the focused id and the rotation target as
    they were and completes normally; and so does every later frame
    complete normally. *)
Theorem no_signal_keeps_application_state :
  forall (env : FrameEnv) (e : State) (src : Source) (n : nat),
    Unavailable env e ->
    let r := Random.run (useFrame env e) src n in
    treeState (fst r) = treeState e
    /\ focusedPhotoId (fst r) = focusedPhotoId e
    /\ targetRotation (fst r) = targetRotation e
    /\ snd r = Normal
    /\ forall env' src' n', snd (Random.run (useFrame env' (fst r)) src' n') = Normal.
Proof.
  intros env e src n Hun. cbv zeta.
  assert (Happ : appState (fst (Random.run (useFrame env e) src n)) = appState e).
  { destruct (processFrame_unavailable env e src n Hun) as [Hs Hc].
    unfold Random.run, useFrame, bind.
    destruct (processFrame env e src n) as [[e1 c] n1]. cbn [fst snd] in *.
    subst c. cbn [fst ret]. now rewrite appState_animate. }
  unfold appState in Happ. injection Happ as Hm Hf Ht.
  repeat split; try assumption.
  - apply useFrame_completes.
  - intros env' src' n'. apply useFrame_completes.
Qed.

(** C7 on a frame whose inference throws, from the initial state. *)
Lemma no_signal_keeps_application_state_witness :
  let env := mkFrameEnv (Some DetectThrows) (Some (mkVideo 4 false 1280 720 0)) in
  let e := initialState [] in
  let r := Random.run (useFrame env e) (fun _ : nat => 0) 0 in
  treeState (fst r) = treeState e
  /\ focusedPhotoId (fst r) = focusedPhotoId e
  /\ targetRotation (fst r) = targetRotation e
  /\ snd r = Normal
  /\ forall env' src' n', snd (Random.run (useFrame env' (fst r)) src' n') = Normal.
Proof.
  apply (no_signal_keeps_application_state
           (mkFrameEnv (Some DetectThrows) (Some (mkVideo 4 false 1280 720 0)))
           (initialState []) (fun _ : nat => 0) 0%nat).
  apply InferenceError. reflexivity.
Defined.

(** The classifier does not read the focused id: the mode, the rotation
    target and the completion it produces are the same whatever the id. *)
Lemma detectGestures_ignores_focused_id (landmarks : list Landmark) (e : State)
    (id : option string) (src : Source) (n : nat) :
  let r1 := Random.run (detectGestures landmarks e) src n in
  let r2 := Random.run (detectGestures landmarks (setFocusedPhotoId id e)) src n in
  treeState (fst r1) = treeState (fst r2)
  /\ targetRotation (fst r1) = targetRotation (fst r2)
  /\ snd r1 = snd r2.
Proof.
  cbv zeta. unfold Random.run, detectGestures.
  destruct (avgDistToWrist landmarks) as [avg |]; [| repeat split].
  destruct (pinchDist landmarks) as [pinch |]; [| repeat split].
  unfold bind, classify, handRotation.
  generalize (nth_error landmarks 9). intros handCenter.
  cbn [treeState userPhotos setFocusedPhotoId].
  destruct (Rlt_dec avg 0.15); [| destruct (Rgt_dec avg 0.35);
                                   [| destruct (Rlt_dec pinch 0.05)]];
    destruct (treeState e); cbn;
    try (destruct (userPhotos e); cbn);
    destruct handCenter; repeat split.
Qed.

(** Neither does the rotation of the main group. *)
Lemma animateGroup_ignores_focused_id (mode : TreeState) (e : State) (id : option string) :
  groupRef (animateGroup mode (setFocusedPhotoId id e)) = groupRef (animateGroup mode e).
Proof.
  unfold animateGroup. cbn [groupRef setFocusedPhotoId targetRotation].
  destruct (groupRef e); [destruct mode |]; reflexivity.
Qed.

End ExperienceFacts.

(* ===================================================================== *)
(** * Photo frames: focus zoom and the focused id *)
(* ===================================================================== *)

Section PhotoFacts.
Import Three Random Types UserPhotos.
Context {Q : Type} {qops : QuaternionOps Q}.

Lemma clamp_bounds (v lo hi : R) : lo <= hi -> lo <= clamp v lo hi <= hi.
Proof.
  intros H. unfold clamp, Rmax, Rmin.
  destruct (Rle_dec hi v); destruct (Rle_dec lo _); lra.
Qed.

Lemma clamp_inside (v lo hi : R) : lo <= v <= hi -> clamp v lo hi = v.
Proof.
  intros H. unfold clamp, Rmax, Rmin.
  destruct (Rle_dec hi v); destruct (Rle_dec lo _); lra.
Qed.

Lemma render_zoomInBounds (isFocused : bool) (state : TreeState)
    (s : PhotoFrameState (Q := Q)) :
  zoomInBounds s -> zoomInBounds (render isFocused state s).
Proof.
  unfold zoomInBounds, render, zoomEffect. intros H.
  destruct (effectDeps s) as [[f st] |];
    [destruct (Bool.eqb f isFocused && TreeState_eqb st state) |];
    try exact H;
    destruct (negb isFocused || negb (TreeState_eqb state FOCUS)); simpl; lra.
Qed.

Lemma wheel_zoomInBounds (deltaY : R) (s : PhotoFrameState (Q := Q)) :
  zoomInBounds s -> zoomInBounds (wheel deltaY s).
Proof.
  unfold zoomInBounds, wheel, handleWheel. intros H.
  destruct (wheelListener s); [| exact H].
  cbn [focusDistance].
  pose proof (clamp_bounds (focusDistance s + deltaY * 0.02) 5.0 40.0) as Hc. lra.
Qed.

Lemma useFrame_focusDistance (data : UserPhotoData) (state : TreeState)
    (isFocused : bool) (env : FrameEnv) (s : PhotoFrameState (Q := Q)) :
  focusDistance (useFrame data state isFocused env s) = focusDistance s.
Proof.
  unfold useFrame. destruct (groupRef s); [| reflexivity].
  destruct (targets data state isFocused env s) as [[tp tr] ts]. reflexivity.
Qed.

Lemma step_zoomInBounds (data : UserPhotoData) (state : TreeState)
    (focusedId : option string) (ev : Event) (s : PhotoFrameState (Q := Q)) :
  zoomInBounds s -> zoomInBounds (step data state focusedId ev s).
Proof.
  intros H. unfold step. destruct ev as [deltaY | env].
  - now apply wheel_zoomInBounds, render_zoomInBounds.
  - unfold zoomInBounds. rewrite useFrame_focusDistance.
    now apply render_zoomInBounds.
Qed.

Lemma runPhoto_zoomInBounds (data : UserPhotoData)
    (steps : list (TreeState * option string * Event)) (s : PhotoFrameState (Q := Q)) :
  zoomInBounds s -> zoomInBounds (runPhoto data steps s).
Proof.
  revert s. induction steps as [| [[state focusedId] ev] rest IH]; intros s H; simpl.
  - exact H.
  - apply IH. now apply step_zoomInBounds.
Qed.

(** While the handler is registered and no intermediate value leaves the
    clamp interval, the wheel deltas simply add up. *)
Lemma wheels_sum (deltas : list R) (s : PhotoFrameState (Q := Q)) :
  wheelListener s = true ->
  withinBounds deltas (focusDistance s) ->
  focusDistance (wheels deltas s)
  = focusDistance s + fold_right Rplus 0 deltas * 0.02.
Proof.
  revert s. induction deltas as [| d rest IH]; intros s Hl Hb; simpl.
  - ring.
  - destruct Hb as [Hd Hrest].
    assert (Hw : focusDistance (wheel d s) = focusDistance s + d * 0.02).
    { unfold wheel. rewrite Hl. cbn [handleWheel focusDistance].
      apply clamp_inside. lra. }
    assert (Hl' : wheelListener (wheel d s) = true).
    { unfold wheel. rewrite Hl. exact Hl. }
    rewrite IH; [| exact Hl' | now rewrite Hw].
    rewrite Hw. ring.
Qed.

(** C8: along every sequence of renders, wheel events and frames from
    the mount of a photo frame, the zoom distance stays in [5, 40];
    a render that enters focus (focused and mode Focus, after a render
    that was not) sets it to 15 and registers the wheel handler; and
    while the handler is registered, wheel deltas that sum to 0 and whose
    intermediate distances stay within the clamp bounds bring the
    distance back to where it started. *)
Theorem focus_zoom_bounds_and_round_trip :
  forall (data : UserPhotoData)
         (steps : list (TreeState * option string * Event (Q := Q)))
         (deltas : list R),
    let s := runPhoto data steps mountFrame in
    5 <= focusDistance s <= 40
    /\ (effectDeps s <> Some (true, FOCUS) ->
          focusDistance (render true FOCUS s) = 15
          /\ wheelListener (render true FOCUS s) = true)
    /\ (wheelListener s = true ->
          withinBounds deltas (focusDistance s) ->
          fold_right Rplus 0 deltas = 0 ->
          focusDistance (wheels deltas s) = focusDistance s
          /\ 5 <= focusDistance (wheels deltas s) <= 40).
Proof.
  intros data steps deltas s.
  assert (Hs : zoomInBounds s).
  { apply runPhoto_zoomInBounds. unfold zoomInBounds, mountFrame. simpl. lra. }
  split; [exact Hs |]. split.
  - intros Hdeps. unfold render.
    destruct (effectDeps s) as [[f st] |] eqn:E.
    + destruct (Bool.eqb f true && TreeState_eqb st FOCUS) eqn:Eb.
      * exfalso. apply Hdeps. apply andb_true_iff in Eb as [Hf Hst].
        apply Bool.eqb_prop in Hf. subst f.
        destruct st; try discriminate. reflexivity.
      * unfold zoomEffect. simpl. split; [lra | reflexivity].
    + unfold zoomEffect. simpl. split; [lra | reflexivity].
  - intros Hl Hb Hsum.
    pose proof (wheels_sum deltas s Hl Hb) as Hw. rewrite Hsum in Hw.
    assert (Heq : focusDistance (wheels deltas s) = focusDistance s) by lra.
    split; [exact Heq |]. rewrite Heq. exact Hs.
Qed.

Lemma groupRef_render (isFocused : bool) (state : TreeState)
    (s : PhotoFrameState (Q := Q)) :
  groupRef (render isFocused state s) = groupRef s.
Proof.
  unfold render, zoomEffect.
  destruct (effectDeps s) as [[f st] |];
    [destruct (Bool.eqb f isFocused && TreeState_eqb st state) |];
    try reflexivity;
    destruct (negb isFocused || negb (TreeState_eqb state FOCUS)); reflexivity.
Qed.

Lemma groupRef_wheel (deltaY : R) (s : PhotoFrameState (Q := Q)) :
  groupRef (wheel deltaY s) = groupRef s.
Proof. unfold wheel. destruct (wheelListener s); reflexivity. Qed.

(** Outside Focus the targets of a frame depend neither on the focus
    flag nor on the frame's own state. *)
Lemma targets_unfocused (data : UserPhotoData) (state : TreeState)
    (f1 f2 : bool) (env : FrameEnv) (s1 s2 : PhotoFrameState (Q := Q)) :
  state <> FOCUS ->
  targets data state f1 env s1 = targets data state f2 env s2.
Proof.
  intros H. unfold targets. destruct state; try contradiction; reflexivity.
Qed.

Lemma groupRef_step_unfocused (data : UserPhotoData) (state : TreeState)
    (id1 id2 : option string) (ev : Event) (s1 s2 : PhotoFrameState (Q := Q)) :
  state <> FOCUS ->
  groupRef s1 = groupRef s2 ->
  groupRef (step data state id1 ev s1) = groupRef (step data state id2 ev s2).
Proof.
  intros Hmode Hg. unfold step. destruct ev as [deltaY | env].
  - now rewrite !groupRef_wheel, !groupRef_render.
  - unfold useFrame. rewrite !groupRef_render, <- Hg.
    destruct (groupRef s1) as [g |] eqn:E; [| rewrite !groupRef_render; congruence].
    rewrite (targets_unfocused data state (isFocusedOf id1 data) (isFocusedOf id2 data)
               env (render (isFocusedOf id1 data) state s1)
               (render (isFocusedOf id2 data) state s2) Hmode).
    destruct (targets data state (isFocusedOf id2 data) env
                (render (isFocusedOf id2 data) state s2)) as [[tp tr] ts].
    reflexivity.
Qed.

(** Two photo groups with the same entities and the same transforms. *)
Definition sameTransforms (ps1 ps2 : list (UserPhotoData * PhotoFrameState (Q := Q)))
  : Prop :=
  Forall2 (fun a b => fst a = fst b /\ groupRef (snd a) = groupRef (snd b)) ps1 ps2.

Lemma sameTransforms_refl (ps : list (UserPhotoData * PhotoFrameState (Q := Q))) :
  sameTransforms ps ps.
Proof. induction ps; constructor; auto. Qed.

Lemma sameTransforms_transforms (ps1 ps2 : list (UserPhotoData * PhotoFrameState (Q := Q))) :
  sameTransforms ps1 ps2 -> transforms ps1 = transforms ps2.
Proof.
  induction 1 as [| a b r1 r2 [_ Hg] _ IH]; simpl; [reflexivity |].
  now rewrite Hg, IH.
Qed.

Lemma stepAll_unfocused (state : TreeState) (id1 id2 : option string) (ev : Event)
    (ps1 ps2 : list (UserPhotoData * PhotoFrameState (Q := Q))) :
  state <> FOCUS -> sameTransforms ps1 ps2 ->
  sameTransforms (stepAll state id1 ev ps1) (stepAll state id2 ev ps2).
Proof.
  intros Hmode. induction 1 as [| a b r1 r2 [Hd Hg] _ IH]; simpl; constructor.
  - cbn [fst snd]. split; [exact Hd |]. rewrite Hd.
    now apply groupRef_step_unfocused.
  - exact IH.
Qed.

End PhotoFacts.

(** C8 on the first photo: focused in Focus mode, then a scroll out by
    100 and a scroll in by 100. *)
Lemma focus_zoom_bounds_and_round_trip_witness :
  let focus := [(Types.FOCUS, Some (UserPhotos.photoId 0), UserPhotos.Wheel 0)] in
  let s :=
    UserPhotos.runPhoto UserPhotos.samplePhoto focus
      (UserPhotos.mountFrame (Q := Quaternion.t)) in
  UserPhotos.focusDistance (UserPhotos.wheels [100; -100] s)
  = UserPhotos.focusDistance s
  /\ 5 <= UserPhotos.focusDistance (UserPhotos.wheels [100; -100] s) <= 40.
Proof.
  cbv zeta.
  set (focus := [(Types.FOCUS, Some (UserPhotos.photoId 0), UserPhotos.Wheel 0)]).
  assert (Hs : UserPhotos.focusDistance
                 (UserPhotos.runPhoto UserPhotos.samplePhoto focus
                    (UserPhotos.mountFrame (Q := Quaternion.t))) = 15).
  { cbn. rewrite clamp_inside by lra. lra. }
  apply (proj2 (proj2 (focus_zoom_bounds_and_round_trip UserPhotos.samplePhoto
                         focus [100; -100]))).
  - reflexivity.
  - rewrite Hs. simpl. lra.
  - simpl. lra.
Defined.

(* ===================================================================== *)
(** * The scene: the focused id outside Focus, and regeneration *)
(* ===================================================================== *)

Section SceneFacts.
Import Three Random Types Scene.
Context {Q : Type} {qops : QuaternionOps Q}.

Lemma sameRendering_refl (s : Scene (Q := Q)) : sameRendering s s.
Proof. repeat split. apply sameTransforms_refl. Qed.

Lemma sameRendering_rendered (s1 s2 : Scene (Q := Q)) :
  sameRendering s1 s2 -> rendered s1 = rendered s2.
Proof.
  intros (Hf & Ho & _ & Hg & Hp). unfold rendered.
  rewrite Hf, Ho, Hg. f_equal. now apply sameTransforms_transforms.
Qed.

Lemma step_unfocused (state : TreeState) (id1 id2 : option string) (ev : Event)
    (s1 s2 : Scene (Q := Q)) :
  state <> FOCUS -> sameRendering s1 s2 ->
  sameRendering (step state id1 ev s1) (step state id2 ev s2).
Proof.
  intros Hmode (Hf & Ho & Hd & Hg & Hp).
  destruct ev as [delta env | deltaY]; unfold sameRendering; cbn;
    rewrite ?Hf, ?Ho, ?Hd, ?Hg; repeat split;
    now apply stepAll_unfocused.
Qed.

Lemma execute_unfocused (steps1 steps2 : list (TreeState * option string * Event))
    (s1 s2 : Scene (Q := Q)) :
  map unfocused steps1 = map unfocused steps2 ->
  Forall (fun st => fst (fst st) <> FOCUS) steps1 ->
  sameRendering s1 s2 ->
  sameRendering (execute steps1 s1) (execute steps2 s2).
Proof.
  revert steps2 s1 s2.
  induction steps1 as [| [[state id1] ev] rest IH]; intros steps2 s1 s2 Hmap Hall Hs.
  - destruct steps2; [exact Hs | discriminate].
  - destruct steps2 as [| [[state2 id2] ev2] rest2]; [discriminate |].
    injection Hmap as Hst Hev Hrest. cbn in Hst, Hev. subst state2 ev2.
    inversion Hall as [| ? ? Hmode Hall']; subst. cbn in Hmode.
    cbn [execute]. apply IH; [exact Hrest | exact Hall' |].
    now apply step_unfocused.
Qed.

Lemma Forall_firstn_keeps {A : Type} (P : A -> Prop) (k : nat) (l : list A) :
  Forall P l -> Forall P (firstn k l).
Proof.
  intros H. revert k. induction H as [| a l Ha _ IH]; intros [| k]; simpl;
    constructor; auto.
Qed.

(** C10: take two executions of the scene with the same modes and
    events, step by step, that differ at most in the focused id, the mode
    never being Focus.  From the same scene they hand the renderer the
    same uniforms, instance matrices and photo transforms after every
    step. *)
Theorem focused_id_ignored_outside_focus :
  forall (steps1 steps2 : list (TreeState * option string * Event))
         (s : Scene (Q := Q)) (k : nat),
    map unfocused steps1 = map unfocused steps2 ->
    Forall (fun st => fst (fst st) <> FOCUS) steps1 ->
    rendered (execute (firstn k steps1) s) = rendered (execute (firstn k steps2) s).
Proof.
  intros steps1 steps2 s k Hmap Hall.
  apply sameRendering_rendered, execute_unfocused.
  - now rewrite <- !firstn_map, Hmap.
  - now apply Forall_firstn_keeps.
  - apply sameRendering_refl.
Qed.

(** The meshes [mount] constructs are fresh, whatever the draws. *)
Lemma mount_refs (count : nat) (src : Source) (n : nat) :
  let g := Random.run (Ornaments.mount count) src n in
  Ornaments.goldRef g = Some (Ornaments.newMesh (List.length (Ornaments.goldData g)))
  /\ Ornaments.ceramicRef g = Some (Ornaments.newMesh (List.length (Ornaments.ceramicData g)))
  /\ Ornaments.satinRef g = Some (Ornaments.newMesh (List.length (Ornaments.satinData g)))
  /\ Ornaments.boxesRef g = Some (Ornaments.newMesh (List.length (Ornaments.boxData g))).
Proof.
  cbv zeta. unfold Random.run, Ornaments.mount, bind.
  repeat match goal with
  | |- context [Ornaments.generateOrnamentData ?c ?ty ?pal src ?k] =>
      destruct (Ornaments.generateOrnamentData c ty pal src k) as [? ?]
  end.
  repeat split.
Qed.

Lemma fresh_mesh_startsFrom (count : nat) (data : list OrnamentData)
    (state : TreeState) (time delta : R) :
  Ornaments.startsFrom 0 state delta
    (Ornaments.updateInstances (Some (Ornaments.newMesh count)) data
       (Ornaments.targetMorphOf state) time delta).
Proof. eexists. split; reflexivity. Qed.

Lemma regenerateOrnaments_run (count : nat) (s : Scene (Q := Q)) (src : Source) (n : nat) :
  Random.run (regenerateOrnaments count s) src n
  = mkScene (foliage s) (Random.run (Ornaments.mount count) src n)
      (giftsData s) (giftsRef s) (photos s).
Proof.
  unfold Random.run, regenerateOrnaments, bind.
  destruct (Ornaments.mount count src n) as [g n1]. reflexivity.
Qed.

Lemma regeneratePhotos_run (urls : list string) (s : Scene (Q := Q)) (src : Source) (n : nat) :
  Random.run (regeneratePhotos urls s) src n
  = mkScene (foliage s) (ornaments s) (giftsData s) (giftsRef s)
      (UserPhotos.reconcile (Random.run (UserPhotos.photosData urls) src n)
         (map snd (photos s))).
Proof.
  unfold Random.run, regeneratePhotos, bind.
  destruct (UserPhotos.photosData urls src n) as [data n1]. reflexivity.
Qed.

Lemma reconcile_length (data : list UserPhotoData)
    (old : list (UserPhotos.PhotoFrameState (Q := Q))) :
  List.length (UserPhotos.reconcile data old) = List.length data.
Proof.
  revert old. induction data as [| d ds IH]; intros [| o os]; simpl; auto.
Qed.

(** Reconciliation keeps the state of the frames that were there and
    mounts the others. *)
Lemma reconcile_nth (data : list UserPhotoData)
    (old : list (UserPhotos.PhotoFrameState (Q := Q))) (i : nat) :
  (i < List.length data)%nat ->
  nth_error (map snd (UserPhotos.reconcile data old)) i
  = Some (nth i old UserPhotos.mountFrame).
Proof.
  revert old i. induction data as [| d ds IH]; intros old i Hi; simpl in Hi; [lia |].
  destruct old as [| o os]; destruct i as [| i]; simpl; try reflexivity.
  - rewrite IH by lia. destruct i; reflexivity.
  - apply IH. lia.
Qed.

Lemma mapFrom_length (urls : list string) (index : nat) (src : Source) (n : nat) :
  List.length (fst (UserPhotos.mapFrom index urls src n)) = List.length urls.
Proof.
  revert index n. induction urls as [| url rest IH]; intros index n.
  - reflexivity.
  - cbn [UserPhotos.mapFrom]. unfold bind.
    destruct (UserPhotos.generatePhoto url index src n) as [d n1].
    specialize (IH (S index) n1).
    destruct (UserPhotos.mapFrom (S index) rest src n1) as [ds n2].
    cbn [fst ret List.length] in *. now rewrite IH.
Qed.

(** C9, amended: a group of ornaments or gifts that is generated anew
    starts from morph value 0 whatever the mode (its first frame is one
    smoothing step from 0 towards the mode's target), which is the value
    of the mode exactly when the mode is not Formed; a regenerated photo
    list keeps the frames that were there and mounts the new ones.
    Neither regeneration touches the state of the other groups. *)
Theorem regenerated_groups_start_from_zero :
  forall (s : Scene (Q := Q)) (count : nat) (urls : list string)
         (src : Source) (n : nat) (state : TreeState)
         (focusedId : option string) (delta : R) (env : UserPhotos.FrameEnv),
    let regenerated := Random.run (regenerateOrnaments count s) src n in
    let after := step state focusedId (Tick delta env) regenerated in
    let plain := step state focusedId (Tick delta env) s in
    let withPhotos := Random.run (regeneratePhotos urls s) src n in
    (Ornaments.startsFrom 0 state delta (Ornaments.goldRef (ornaments after))
     /\ Ornaments.startsFrom 0 state delta (Ornaments.ceramicRef (ornaments after))
     /\ Ornaments.startsFrom 0 state delta (Ornaments.satinRef (ornaments after))
     /\ Ornaments.startsFrom 0 state delta (Ornaments.boxesRef (ornaments after)))
    /\ Ornaments.startsFrom 0 state delta
         (Gifts.useFrame state (giftsData s) (UserPhotos.elapsedTime env) delta
            (Some (Ornaments.newMesh Gifts.count)))
    /\ (state <> TREE_SHAPE ->
          lerp 0 (Ornaments.targetMorphOf state) (1.5 * delta)
          = Ornaments.targetMorphOf state)
    /\ (foliage after = foliage plain
        /\ giftsRef after = giftsRef plain
        /\ photos after = photos plain)
    /\ (foliage withPhotos = foliage s
        /\ ornaments withPhotos = ornaments s
        /\ giftsRef withPhotos = giftsRef s
        /\ List.length (photos withPhotos) = List.length urls
        /\ forall i, (i < List.length urls)%nat ->
             nth_error (map snd (photos withPhotos)) i
             = Some (nth i (map snd (photos s)) UserPhotos.mountFrame)).
Proof.
  intros s count urls src n state focusedId delta env. cbv zeta.
  rewrite regenerateOrnaments_run, regeneratePhotos_run.
  destruct (mount_refs count src n) as (Hg & Hc & Hs & Hb). cbv zeta in Hg, Hc, Hs, Hb.
  cbn [step ornaments foliage giftsRef giftsData photos].
  unfold Ornaments.useFrame.
  cbn [Ornaments.goldRef Ornaments.ceramicRef Ornaments.satinRef Ornaments.boxesRef].
  rewrite Hg, Hc, Hs, Hb.
  split; [repeat split; apply fresh_mesh_startsFrom |].
  split; [eexists; split; reflexivity |].
  split.
  { intros Hmode. unfold lerp, Ornaments.targetMorphOf.
    destruct state; try contradiction; simpl; ring. }
  split; [repeat split |].
  assert (Hlen : List.length (Random.run (UserPhotos.photosData urls) src n)
                 = List.length urls) by apply mapFrom_length.
  repeat split.
  - now rewrite reconcile_length.
  - intros i Hi. apply reconcile_nth. now rewrite Hlen.
Qed.

End SceneFacts.

(** C9 as stated fails in Formed mode: the morph value a fresh mesh
    starts from is not the one of the mode, and after its first frame
    of 1/60 s it is 1/40, not 1. *)
Lemma regenerated_group_snaps_in_formed_mode :
  Ornaments.currentMorph (Ornaments.newMesh 1) <> Ornaments.targetMorphOf Types.TREE_SHAPE
  /\ ~ Ornaments.startsFrom (Ornaments.targetMorphOf Types.TREE_SHAPE) Types.TREE_SHAPE (1 / 60)
         (Ornaments.updateInstances (Some (Ornaments.newMesh 1)) []
            (Ornaments.targetMorphOf Types.TREE_SHAPE) 0 (1 / 60)).
Proof.
  split.
  - unfold Ornaments.currentMorph, Ornaments.targetMorphOf. simpl. lra.
  - intros (m & Hm & Hmorph). injection Hm as <-.
    unfold Ornaments.currentMorph, Ornaments.targetMorphOf, Three.lerp in Hmorph.
    simpl in Hmorph. lra.
Qed.

(** C10 on the sample scene: a frame in Scattered mode and a scroll in
    Formed mode, once with no focused id and once with one. *)
Lemma focused_id_ignored_outside_focus_witness :
  let steps1 :=
    [(Types.SCATTERED, None, Scene.Tick (1 / 60) (Scene.sampleEnv 0));
     (Types.TREE_SHAPE, None, Scene.Scroll 100)] in
  let steps2 :=
    [(Types.SCATTERED, Some (UserPhotos.photoId 0), Scene.Tick (1 / 60) (Scene.sampleEnv 0));
     (Types.TREE_SHAPE, Some (UserPhotos.photoId 7), Scene.Scroll 100)] in
  Scene.rendered (Scene.execute (firstn 2 steps1) Scene.sampleScene)
  = Scene.rendered (Scene.execute (firstn 2 steps2) Scene.sampleScene).
Proof.
  cbv zeta.
  apply (focused_id_ignored_outside_focus
           [(Types.SCATTERED, None, Scene.Tick (1 / 60) (Scene.sampleEnv 0));
            (Types.TREE_SHAPE, None, Scene.Scroll 100)]
           [(Types.SCATTERED, Some (UserPhotos.photoId 0),
             Scene.Tick (1 / 60) (Scene.sampleEnv 0));
            (Types.TREE_SHAPE, Some (UserPhotos.photoId 7), Scene.Scroll 100)]
           Scene.sampleScene 2%nat).
  - reflexivity.
  - repeat constructor; discriminate.
Defined.

(* ===================================================================== *)
(** * More on the point generators *)
(* ===================================================================== *)

Section GeneratorFacts.
Import Three Random MathUtil.

(** [randomRange lo hi] with lo < hi yields a value in [lo, hi) and takes
    exactly one draw. *)
Theorem randomRange_in_range :
  forall (lo hi : R) (src : Source) (n : nat),
    lo < hi -> uniform src ->
    lo <= run (randomRange lo hi) src n < hi
    /\ snd (randomRange lo hi src n) = S n.
Proof.
  intros lo hi src n Hlt Hu. destruct (Hu n) as [H0 H1].
  unfold run, randomRange, bind, random, ret. cbn [fst snd].
  repeat split; nra.
Qed.

Lemma randomRange_in_range_witness :
  0.8 <= run (randomRange 0.8 1.5) (fun _ : nat => 1 / 2) 0 < 1.5
  /\ snd (randomRange 0.8 1.5 (fun _ : nat => 1 / 2) 0%nat) = 1%nat.
Proof.
  apply (randomRange_in_range 0.8 1.5 (fun _ : nat => 1 / 2) 0%nat).
  - lra.
  - intros k. lra.
Defined.

(** The height of the scatter point over its norm is 2v - 1 for the
    second draw v: the inverse cosine makes the cosine of the polar angle
    uniform on [-1, 1), which is what a uniform direction needs. *)
Theorem getScatterPoint_polar_height :
  forall (radius : R) (src : Source) (n : nat),
    0 <= radius -> uniform src ->
    let p := run (getScatterPoint radius) src n in
    vz p = length p * (2 * src (S n) - 1)
    /\ - length p <= vz p <= length p
    /\ snd (getScatterPoint radius src n) = (3 + n)%nat.
Proof.
  intros radius src n Hr Hu. cbv zeta.
  rewrite getScatterPoint_length by assumption.
  rewrite getScatterPoint_run. cbv zeta. cbn [vz].
  destruct (Hu (S n)) as [Hv0 Hv1]. destruct (Hu (S (S n))) as [Hw0 Hw1].
  rewrite cos_acos by lra.
  pose proof (cbrt_nonneg _ Hw0) as Hc.
  assert (Hnorm : 0 <= cbrt (src (S (S n))) * radius) by (apply Rmult_le_pos; lra).
  repeat split; nra.
Qed.

Lemma getScatterPoint_polar_height_witness :
  let src := fun _ : nat => 1 / 4 in
  let p := run (getScatterPoint 18) src 0 in
  vz p = length p * (2 * src 1%nat - 1)
  /\ - length p <= vz p <= length p
  /\ snd (getScatterPoint 18 src 0%nat) = 3%nat.
Proof.
  apply (getScatterPoint_polar_height 18 (fun _ : nat => 1 / 4) 0%nat).
  - lra.
  - intros k. lra.
Defined.

End GeneratorFacts.

(* ===================================================================== *)
(** * Foliage: easing, vertex shader, particle data; the sparkles *)
(* ===================================================================== *)

Section FoliageFacts.
Import Three Random MathUtil Types FoliageShader.

Lemma cube_monotone (x y : R) : x <= y -> x * x * x <= y * y * y.
Proof.
  intros H.
  assert (Hq : 0 <= y * y + x * y + x * x) by nra.
  replace (y * y * y) with (x * x * x + (y - x) * (y * y + x * y + x * x)) by ring.
  assert (0 <= (y - x) * (y * y + x * y + x * x)) by (apply Rmult_le_pos; lra).
  lra.
Qed.

Lemma ease_below_half (x : R) :
  x < 0.5 -> Foliage.easeInOutCubic x = 4 * x * x * x.
Proof.
  intros H. unfold Foliage.easeInOutCubic.
  destruct (Rlt_dec x 0.5); [reflexivity | contradiction].
Qed.

Lemma ease_above_half (x : R) :
  0.5 <= x ->
  Foliage.easeInOutCubic x = 1 - 4 * ((1 - x) * (1 - x) * (1 - x)).
Proof.
  intros H. unfold Foliage.easeInOutCubic.
  destruct (Rlt_dec x 0.5); [lra |]. simpl. field.
Qed.

Lemma ease_monotone (x y : R) :
  x <= y -> Foliage.easeInOutCubic x <= Foliage.easeInOutCubic y.
Proof.
  intros H.
  destruct (Rlt_dec x 0.5) as [Hx | Hx]; destruct (Rlt_dec y 0.5) as [Hy | Hy].
  - rewrite !ease_below_half by assumption.
    pose proof (cube_monotone x y H). lra.
  - rewrite ease_below_half by assumption. rewrite ease_above_half by lra.
    pose proof (cube_monotone x 0.5 ltac:(lra)).
    pose proof (cube_monotone (1 - y) 0.5 ltac:(lra)). lra.
  - lra.
  - rewrite !ease_above_half by lra.
    pose proof (cube_monotone (1 - y) (1 - x) ltac:(lra)). lra.
Qed.

Lemma ease_zero : Foliage.easeInOutCubic 0 = 0.
Proof. rewrite ease_below_half by lra. ring. Qed.

Lemma ease_one : Foliage.easeInOutCubic 1 = 1.
Proof. rewrite ease_above_half by lra. ring. Qed.

Lemma ease_unit (x : R) : 0 <= x <= 1 -> 0 <= Foliage.easeInOutCubic x <= 1.
Proof.
  intros [H0 H1].
  pose proof (ease_monotone 0 x H0) as Hlo. rewrite ease_zero in Hlo.
  pose proof (ease_monotone x 1 H1) as Hhi. rewrite ease_one in Hhi.
  split; assumption.
Qed.


Lemma noiseAmp_unit (t : R) : 0 <= t <= 1 -> 0.2 <= noiseAmp t <= 1.
Proof. intros H. unfold noiseAmp, mix. lra. Qed.

(** With the morph factor in [0, 1], the vertex shader displaces a
    particle from the blend of its two positions by at most
    0.1 * noiseAmp per axis, where noiseAmp lies in [0.2, 1]; the blend
    is the scatter position at factor 0 and the tree position at factor
    1, where the displacement is at most 0.02.  The twinkle stays in
    [0.2, 1]. *)
Theorem foliage_vertex_displacement :
  forall (u : Foliage.Uniforms) (a : Particle),
    0 <= Foliage.uMorphFactor u <= 1 ->
    let t := Foliage.easeInOutCubic (Foliage.uMorphFactor u) in
    let base := mix3 (aScatterPosition a) (aTreePosition a) t in
    let p := targetPos u a in
    0.2 <= noiseAmp t <= 1
    /\ - (0.1 * noiseAmp t) <= vx p - vx base <= 0.1 * noiseAmp t
    /\ - (0.1 * noiseAmp t) <= vy p - vy base <= 0.1 * noiseAmp t
    /\ - (0.1 * noiseAmp t) <= vz p - vz base <= 0.1 * noiseAmp t
    /\ 0.2 <= vAlpha u a <= 1
    /\ (Foliage.uMorphFactor u = 0 -> base = aScatterPosition a /\ noiseAmp t = 1)
    /\ (Foliage.uMorphFactor u = 1 -> base = aTreePosition a /\ noiseAmp t = 0.2).
Proof.
  intros u a Hm. cbv zeta.
  pose proof (ease_unit _ Hm) as Ht.
  pose proof (noiseAmp_unit _ Ht) as Hamp.
  set (t := Foliage.easeInOutCubic (Foliage.uMorphFactor u)) in *.
  unfold targetPos, vAlpha. fold t. cbn [vx vy vz].
  pose proof (SIN_bound (Foliage.uTime u * 1.5 + aRandom a * 10.0)) as H1.
  pose proof (COS_bound (Foliage.uTime u * 1.2 + aRandom a * 20.0)) as H2.
  pose proof (SIN_bound (Foliage.uTime u * 1.8 + aRandom a * 5.0)) as H3.
  pose proof (SIN_bound (Foliage.uTime u * 2.0 + aRandom a * 100.0)) as H4.
  split; [exact Hamp |].
  split; [split; nra |]. split; [split; nra |]. split; [split; nra |].
  split; [lra |].
  split; intros Hv; unfold t; rewrite Hv.
  - rewrite ease_zero. unfold mix3, noiseAmp, mix.
    destruct (aScatterPosition a); cbn [vx vy vz]. split; [f_equal; ring | lra].
  - rewrite ease_one. unfold mix3, noiseAmp, mix.
    destruct (aTreePosition a); cbn [vx vy vz]. split; [f_equal; ring | lra].
Qed.

Lemma foliage_vertex_displacement_witness :
  let u := Foliage.mkUniforms 3 1 in
  let a := mkParticle (mkVector3 1 2 0) (mkVector3 0 9 4) (1 / 2) (1 / 2) in
  let t := Foliage.easeInOutCubic (Foliage.uMorphFactor u) in
  let base := mix3 (aScatterPosition a) (aTreePosition a) t in
  let p := targetPos u a in
  0.2 <= noiseAmp t <= 1
  /\ - (0.1 * noiseAmp t) <= vx p - vx base <= 0.1 * noiseAmp t
  /\ - (0.1 * noiseAmp t) <= vy p - vy base <= 0.1 * noiseAmp t
  /\ - (0.1 * noiseAmp t) <= vz p - vz base <= 0.1 * noiseAmp t
  /\ 0.2 <= vAlpha u a <= 1
  /\ (Foliage.uMorphFactor u = 0 -> base = aScatterPosition a /\ noiseAmp t = 1)
  /\ (Foliage.uMorphFactor u = 1 -> base = aTreePosition a /\ noiseAmp t = 0.2).
Proof.
  apply (foliage_vertex_displacement (Foliage.mkUniforms 3 1)
           (mkParticle (mkVector3 1 2 0) (mkVector3 0 9 4) (1 / 2) (1 / 2))).
  simpl. lra.
Defined.

End FoliageFacts.

(* ===================================================================== *)
(** * Generated populations *)
(* ===================================================================== *)

Section PopulationFacts.
Import Three Random MathUtil Types.


(** Where the default tree point lies. *)
Lemma getTreePoint_cone (height radius yOffset : R) (src : Source) (n : nat) :
  0 < height -> 0 <= radius -> uniform src ->
  let p := run (getTreePoint height radius yOffset) src n in
  vy p = src n * height + yOffset
  /\ 0 <= radial p <= radius * (1 - src n).
Proof.
  intros Hh Hb Hu. cbv zeta. rewrite getTreePoint_run. cbv zeta.
  destruct (Hu n) as [H0 H1]. pose proof (sqrt_unit _ (Hu (S n))) as [Hs0 Hs1].
  assert (Hm : 0 <= radius * (1 - src n)) by nra.
  rewrite polar_radial by nra. cbn [vy]. repeat split; nra.
Qed.

(** Every foliage particle: the tree position inside the cone of height
    12 and base radius 5.5 centred on the origin, the scatter position
    inside the sphere of radius 15, the random phase in [0, 1), and a
    point size between 0.2 and 0.7 times a gradient that falls from 1.2
    at the base to 0.8 at the tip. *)
Theorem foliage_particles_generated :
  forall (count : nat) (src : Source) (n : nat),
    uniform src ->
    let ps := run (FoliageShader.generateParticles count) src n in
    List.length ps = count
    /\ Forall (fun a =>
         let y := vy (FoliageShader.aTreePosition a) in
         let gradient := 1.2 - 0.4 * ((y + 6) / 12) in
         -6 <= y < 6
         /\ radial (FoliageShader.aTreePosition a) <= 5.5 * (1 - (y + 6) / 12)
         /\ length (FoliageShader.aScatterPosition a) <= 15
         /\ 0 <= FoliageShader.aRandom a < 1
         /\ 0.2 * gradient <= FoliageShader.aSize a < 0.7 * gradient
         /\ 0.16 <= FoliageShader.aSize a < 0.84) ps.
Proof.
  intros count src n Hu. cbv zeta. unfold FoliageShader.generateParticles.
  split; [apply forPush_length |].
  apply forPush_Forall. intros _ k.
  assert (Htree : FoliageShader.aTreePosition (fst (FoliageShader.generateParticle src k))
                  = run (getTreePoint 12 5.5 (- 12 / 2)) src k) by reflexivity.
  assert (Hscatter : FoliageShader.aScatterPosition
                       (fst (FoliageShader.generateParticle src k))
                     = run (getScatterPoint 15) src (3 + k)) by reflexivity.
  assert (Hrnd : FoliageShader.aRandom (fst (FoliageShader.generateParticle src k))
                 = src (6 + k)%nat) by reflexivity.
  assert (Hsize : FoliageShader.aSize (fst (FoliageShader.generateParticle src k))
                  = (src (7 + k)%nat * 0.5 + 0.2)
                    * (0.8 + 0.4 * (1 - (vy (run (getTreePoint 12 5.5 (- 12 / 2)) src k)
                                         - - 12 / 2) / 12))) by reflexivity.
  rewrite Htree, Hscatter, Hrnd, Hsize.
  destruct (getTreePoint_cone 12 5.5 (- 12 / 2) src k) as (Hy & Hr0 & Hr1);
    [lra | lra | exact Hu |].
  rewrite Hy. destruct (Hu k) as [H0 H1].
  destruct (Hu (7 + k)%nat) as [Hz0 Hz1].
  rewrite getScatterPoint_length by (lra || assumption).
  destruct (Hu (S (S (3 + k)))) as [Hw0 Hw1].
  pose proof (cbrt_le_1 _ Hw0 Hw1). pose proof (cbrt_nonneg _ Hw0).
  replace ((src k * 12 + - 12 / 2 + 6) / 12) with (src k) by field.
  replace ((src k * 12 + - 12 / 2 - - 12 / 2) / 12) with (src k) by field.
  repeat split; try apply Hu; nra.
Qed.

Lemma foliage_particles_generated_witness :
  let ps := run (FoliageShader.generateParticles 3) (fun _ : nat => 1 / 2) 0 in
  List.length ps = 3%nat
  /\ Forall (fun a =>
       let y := vy (FoliageShader.aTreePosition a) in
       let gradient := 1.2 - 0.4 * ((y + 6) / 12) in
       -6 <= y < 6
       /\ radial (FoliageShader.aTreePosition a) <= 5.5 * (1 - (y + 6) / 12)
       /\ length (FoliageShader.aScatterPosition a) <= 15
       /\ 0 <= FoliageShader.aRandom a < 1
       /\ 0.2 * gradient <= FoliageShader.aSize a < 0.7 * gradient
       /\ 0.16 <= FoliageShader.aSize a < 0.84) ps.
Proof.
  apply (foliage_particles_generated 3 (fun _ : nat => 1 / 2) 0%nat).
  intros k. lra.
Defined.

(** The 200 sparkles lie in the ring of radius 10 to 20 around the axis,
    between heights -15 and -8, and the point cloud as a whole bobs by at
    most 0.5: they stay below -7.5, under the base of the tree at -6. *)
Theorem sparkles_below_the_tree :
  forall (src : Source) (n : nat) (time : R) (mesh : R * R),
    uniform src ->
    let sparkles := run BaseSparkles.generate src n in
    List.length sparkles = 200%nat
    /\ Forall (fun s =>
         10 <= radial (fst s) < 20
         /\ -15 <= vy (fst s) < -8
         /\ 0 <= snd s < 1) sparkles
    /\ exists dy,
         BaseSparkles.useFrame time (Some mesh) = Some (dy, time * 0.05)
         /\ -0.5 <= dy <= 0.5
         /\ Forall (fun s => vy (fst s) + dy < -7.5) sparkles.
Proof.
  intros src n time mesh Hu. cbv zeta.
  assert (Hall : Forall (fun s =>
                   10 <= radial (fst s) < 20
                   /\ -15 <= vy (fst s) < -8
                   /\ 0 <= snd s < 1) (run BaseSparkles.generate src n)).
  { apply forPush_Forall. intros _ k.
    assert (Hp : fst (fst (BaseSparkles.generateSparkle src k))
                 = mkVector3 ((10 + src k * 10) * cos (src (1 + k)%nat * PI * 2))
                             (-15 + src (2 + k)%nat * 7)
                             ((10 + src k * 10) * sin (src (1 + k)%nat * PI * 2)))
      by reflexivity.
    assert (Hd : snd (fst (BaseSparkles.generateSparkle src k)) = src (3 + k)%nat)
      by reflexivity.
    rewrite Hp, Hd. destruct (Hu k) as [H0 H1]. destruct (Hu (2 + k)%nat) as [Hc0 Hc1].
    rewrite polar_radial by nra. cbn [vy].
    repeat split; try apply Hu; nra. }
  split; [apply forPush_length |]. split; [exact Hall |].
  exists (sin (time * 0.2) * 0.5). pose proof (SIN_bound (time * 0.2)) as Hs.
  split; [reflexivity |]. split; [lra |].
  eapply Forall_impl; [| exact Hall]. intros s (_ & Hy & _). simpl in Hy. lra.
Qed.

Lemma sparkles_below_the_tree_witness :
  let sparkles := run BaseSparkles.generate (fun _ : nat => 1 / 2) 0 in
  List.length sparkles = 200%nat
  /\ Forall (fun s =>
       10 <= radial (fst s) < 20
       /\ -15 <= vy (fst s) < -8
       /\ 0 <= snd s < 1) sparkles
  /\ exists dy,
       BaseSparkles.useFrame 7 (Some (0, 0)) = Some (dy, 7 * 0.05)
       /\ -0.5 <= dy <= 0.5
       /\ Forall (fun s => vy (fst s) + dy < -7.5) sparkles.
Proof.
  apply (sparkles_below_the_tree (fun _ : nat => 1 / 2) 0%nat 7 (0, 0)).
  intros k. lra.
Defined.





(** One gift, field by field, whichever colour branch is taken. *)
Lemma generateGift_fields (src : Source) (n : nat) :
  uniform src ->
  let item := fst (Gifts.generateGift src n) in
  od_type item = BOX
  /\ od_scatter item = run (getScatterPoint 20) src n
  /\ od_tree item
     = mkVector3 ((src (3 + n)%nat * (TREE_RADIUS_BOTTOM + 2 - 2) + 2)
                    * cos (src (4 + n)%nat * PI * 2))
                 (- TREE_HEIGHT / 2 + src (5 + n)%nat * 2)
                 ((src (3 + n)%nat * (TREE_RADIUS_BOTTOM + 2 - 2) + 2)
                    * sin (src (4 + n)%nat * PI * 2))
  /\ (exists c, od_color item = Some c
                /\ In c ["#E2C99E"; "#852736"; "#023E28"; "#414B9E"; "#AA74A0"]%string)
  /\ (src (6 + n)%nat < 0.40 -> od_color item = Some "#E2C99E"%string)
  /\ (exists a b c : R,
        0 <= a < 1 /\ 0 <= b < 1 /\ 0 <= c < 1
        /\ od_rotation item = mkEuler 0 (a * PI * 2) 0
        /\ od_scale item = b * (1.5 - 1.0) + 1.0
        /\ od_speed item = c * (1.5 - 0.5) + 0.5).
Proof.
  intros Hu. cbv zeta.
  unfold Gifts.generateGift, bind.
  pose proof (getScatterPoint_cursor 20 src n) as Hcur.
  unfold run.
  destruct (getScatterPoint 20 src n) as [sp k]. cbn [fst snd] in *. subst k.
  unfold randomRange, bind, random, ret. cbn [fst snd Nat.add].
  destruct (Rlt_dec (src (S (S (S (S (S (S n))))))) 0.40) as [H1 | H1];
    [| destruct (Rlt_dec (src (S (S (S (S (S (S n))))))) 0.75) as [H2 | H2];
       [| destruct (Rlt_dec (src (S (S (S (S (S (S n))))))) 0.85) as [H3 | H3];
          [| destruct (Rgt_dec (src (S (S (S (S (S (S (S n)))))))) 0.5) as [H4 | H4]]]];
    cbn [fst snd od_type od_scatter od_tree od_color od_rotation od_scale od_speed];
    (split; [reflexivity |]); (split; [reflexivity |]); (split; [reflexivity |]);
    (split; [eexists; split; [reflexivity | simpl; tauto] |]);
    (split; [intros Hlt; first [reflexivity | exfalso; simpl in *; lra] |]);
    eexists _, _, _; repeat split; try reflexivity; apply Hu.
Qed.

(** The 40 gifts are boxes at the foot of the tree: between 2 and 7.5
    from the axis and between heights -6 and -4, scattered within the
    sphere of radius 20, with scale in [1, 1.5), speed in [0.5, 1.5),
    rotation about the y axis only, and one of the five palette colours
    (gold whenever the colour draw is below 0.4). *)
Theorem gifts_population :
  forall (src : Source) (n : nat),
    uniform src ->
    let data := run Gifts.generateData src n in
    List.length data = 40%nat
    /\ Forall (fun item =>
         od_type item = BOX
         /\ 2 <= radial (od_tree item) < 7.5
         /\ -6 <= vy (od_tree item) < -4
         /\ length (od_scatter item) <= 20
         /\ 1 <= od_scale item < 1.5
         /\ 0.5 <= od_speed item < 1.5
         /\ ex (od_rotation item) = 0 /\ ez (od_rotation item) = 0
         /\ 0 <= ey (od_rotation item) < 2 * PI
         /\ exists c, od_color item = Some c
              /\ In c ["#E2C99E"; "#852736"; "#023E28"; "#414B9E"; "#AA74A0"]%string)
         data.
Proof.
  intros src n Hu. cbv zeta. unfold Gifts.generateData.
  split; [apply forPush_length |].
  apply forPush_Forall. intros _ k.
  destruct (generateGift_fields src k Hu)
    as (Hty & Hsc & Htree & Hcol & _ & (a & b & c & Ha & Hb & Hc & Hrot & Hscale & Hspeed)).
  rewrite Hty, Hsc, Htree, Hrot, Hscale, Hspeed. cbn [vy ex ey ez].
  unfold TREE_RADIUS_BOTTOM, TREE_HEIGHT.
  destruct (Hu (3 + k)%nat) as [Hr0 Hr1]. destruct (Hu (5 + k)%nat) as [Hy0 Hy1].
  rewrite polar_radial by nra.
  rewrite getScatterPoint_length by (lra || assumption).
  destruct (Hu (S (S k))) as [Hw0 Hw1].
  pose proof (cbrt_le_1 _ Hw0 Hw1). pose proof (cbrt_nonneg _ Hw0).
  pose proof PI_RGT_0 as Hpi.
  repeat split; try nra. exact Hcol.
Qed.

Lemma gifts_population_witness :
  let data := run Gifts.generateData (fun _ : nat => 1 / 2) 0 in
  List.length data = 40%nat
  /\ Forall (fun item =>
       od_type item = BOX
       /\ 2 <= radial (od_tree item) < 7.5
       /\ -6 <= vy (od_tree item) < -4
       /\ length (od_scatter item) <= 20
       /\ 1 <= od_scale item < 1.5
       /\ 0.5 <= od_speed item < 1.5
       /\ ex (od_rotation item) = 0 /\ ez (od_rotation item) = 0
       /\ 0 <= ey (od_rotation item) < 2 * PI
       /\ exists c, od_color item = Some c
            /\ In c ["#E2C99E"; "#852736"; "#023E28"; "#414B9E"; "#AA74A0"]%string)
       data.
Proof.
  apply (gifts_population (fun _ : nat => 1 / 2) 0%nat).
  intros k. lra.
Defined.

End PopulationFacts.

(* ===================================================================== *)
(** * Photo entities: ids, placement, clicks and uploads *)
(* ===================================================================== *)

Section PhotoDataFacts.
Import Three Random MathUtil Types UserPhotos.

Lemma to_int_proper (k : Z) :
  Z.to_int k <> Decimal.Pos Decimal.Nil /\ Z.to_int k <> Decimal.Neg Decimal.Nil.
Proof.
  destruct k as [| p | p]; simpl; split; intros [= H];
    now apply (DecimalPos.Unsigned.to_uint_nonnil p).
Qed.

(** Printing an integer loses nothing. *)
Lemma numberToString_inj (a b : Z) : numberToString a = numberToString b -> a = b.
Proof.
  unfold numberToString. intros H.
  apply (f_equal NilZero.int_of_string) in H.
  destruct (to_int_proper a), (to_int_proper b).
  rewrite !NilZero.isi in H by assumption.
  injection H as H. now apply DecimalZ.to_int_inj.
Qed.

Lemma photoId_inj (i j : nat) : photoId i = photoId j -> i = j.
Proof.
  unfold photoId. intros H. simpl in H. injection H as H.
  apply numberToString_inj in H. lia.
Qed.

Lemma mapFrom_urls (photos : list string) (index : nat) (src : Source) (n : nat) :
  map pd_url (fst (mapFrom index photos src n)) = photos.
Proof.
  revert index n. induction photos as [| url rest IH]; intros index n.
  - reflexivity.
  - cbn [mapFrom]. unfold bind.
    assert (Hurl : pd_url (fst (generatePhoto url index src n)) = url) by reflexivity.
    destruct (generatePhoto url index src n) as [d n1].
    specialize (IH (S index) n1).
    destruct (mapFrom (S index) rest src n1) as [ds n2].
    cbn [fst ret map] in *. now rewrite Hurl, IH.
Qed.

Lemma mapFrom_Forall (P : UserPhotoData -> Prop) (photos : list string)
    (index : nat) (src : Source) (n : nat) :
  (forall url i k, P (fst (generatePhoto url i src k))) ->
  Forall P (fst (mapFrom index photos src n)).
Proof.
  intros HP. revert index n. induction photos as [| url rest IH]; intros index n.
  - constructor.
  - cbn [mapFrom]. unfold bind. specialize (HP url index n).
    destruct (generatePhoto url index src n) as [d n1].
    specialize (IH (S index) n1).
    destruct (mapFrom (S index) rest src n1) as [ds n2].
    cbn [fst ret] in *. now constructor.
Qed.

Lemma photoIds_NoDup (start len : nat) : NoDup (map photoId (seq start len)).
Proof.
  apply NoDup_map_NoDup_ForallPairs; [| apply seq_NoDup].
  intros i j _ _. apply photoId_inj.
Qed.

(** [photosData] makes one entity per url, in order, with the ids
    photo-0, photo-1, ...; no two entities share an id. *)
Theorem photosData_ids_and_urls :
  forall (photos : list string) (src : Source) (n : nat),
    let data := run (photosData photos) src n in
    map pd_url data = photos
    /\ map pd_id data = map photoId (seq 0 (List.length photos))
    /\ NoDup (map pd_id data).
Proof.
  intros photos src n. cbv zeta. unfold run, photosData.
  split; [apply mapFrom_urls |].
  rewrite mapFrom_ids. split; [reflexivity | apply photoIds_NoDup].
Qed.

(** A point at positive distance from the axis that is pushed outwards
    is further from the axis by exactly the push. *)
Lemma pushed_radial (r theta y push : R) :
  0 < r -> 0 <= push ->
  let tp := mkVector3 (r * cos theta) y (r * sin theta) in
  let radialDir := normalize (mkVector3 (vx tp) 0 (vz tp)) in
  radial (add tp (multiplyScalar radialDir push)) = r + push.
Proof.
  intros Hr Hp. cbv zeta. cbn [vx vy vz].
  unfold normalize. rewrite planar_length by lra.
  destruct (Req_dec_T r 0) as [-> | Hne]; [lra |].
  unfold add, divideScalar, multiplyScalar. cbn [vx vy vz].
  replace (r * cos theta + r * cos theta * (1 / r) * push)
    with ((r + push) * cos theta) by (field; exact Hne).
  replace (r * sin theta + r * sin theta * (1 / r) * push)
    with ((r + push) * sin theta) by (field; exact Hne).
  apply polar_radial. lra.
Qed.

(** Every photo entity hangs just outside the cone of height 10 and
    base radius 5 that starts at height -5: its distance from the axis
    is 0.8 more than a distance inside the cone, so between 0.8 and 5.8.
    Its scatter position is inside the sphere of radius 18, its scale in
    [0.8, 1.2), its speed in [0.5, 1.5), and it is turned about the
    y axis only. *)
Theorem photosData_placement :
  forall (photos : list string) (src : Source) (n : nat),
    uniform src ->
    Forall (fun d =>
      let y := vy (pd_tree d) in
      -5 <= y < 5
      /\ 0.8 < radial (pd_tree d) <= 5 * (1 - (y + 5) / 10) + 0.8
      /\ radial (pd_tree d) <= 5.8
      /\ length (pd_scatter d) <= 18
      /\ 0.8 <= pd_scale d < 1.2
      /\ 0.5 <= pd_speed d < 1.5
      /\ ex (pd_rotation d) = 0 /\ ez (pd_rotation d) = 0
      /\ 0 <= ey (pd_rotation d) < 2 * PI)
      (run (photosData photos) src n).
Proof.
  intros photos src n Hu. unfold run, photosData.
  apply mapFrom_Forall. intros url i k.
  set (d := fst (generatePhoto url i src k)).
  assert (Htree : pd_tree d =
    let tp := run (getTreePoint 10 5 (-5)) src k in
    add tp (multiplyScalar (normalize (mkVector3 (vx tp) 0 (vz tp))) 0.8))
    by reflexivity.
  assert (Hscatter : pd_scatter d = run (getScatterPoint 18) src (3 + k)) by reflexivity.
  assert (Hrot : pd_rotation d = mkEuler 0 (src (6 + k)%nat * PI * 2) 0) by reflexivity.
  assert (Hscale : pd_scale d = src (7 + k)%nat * (1.2 - 0.8) + 0.8) by reflexivity.
  assert (Hspeed : pd_speed d = src (8 + k)%nat * (1.5 - 0.5) + 0.5) by reflexivity.
  cbv zeta. rewrite Htree, Hscatter, Hrot, Hscale, Hspeed. clear Htree.
  rewrite getTreePoint_run. cbv zeta.
  destruct (Hu k) as [H0 H1]. pose proof (sqrt_unit _ (Hu (S k))) as [Hs0 Hs1].
  set (r := 5 * (1 - src k) * (0.2 + 0.8 * sqrt (src (S k)))).
  assert (Hr : 0 < r <= 5 * (1 - src k)).
  { unfold r. split.
    - apply Rmult_lt_0_compat; nra.
    - assert (0 <= 5 * (1 - src k)) by nra. nra. }
  pose proof (pushed_radial r (src (S (S k)) * PI * 2) (src k * 10 + -5) 0.8) as Hrad.
  cbv zeta in Hrad. rewrite Hrad by lra.
  assert (Hy : vy (add (mkVector3 (r * cos (src (S (S k)) * PI * 2)) (src k * 10 + -5)
                          (r * sin (src (S (S k)) * PI * 2)))
                      (multiplyScalar
                         (normalize (mkVector3
                            (vx (mkVector3 (r * cos (src (S (S k)) * PI * 2))
                                   (src k * 10 + -5) (r * sin (src (S (S k)) * PI * 2))))
                            0
                            (vz (mkVector3 (r * cos (src (S (S k)) * PI * 2))
                                   (src k * 10 + -5) (r * sin (src (S (S k)) * PI * 2))))))
                         0.8))
                = src k * 10 + -5).
  { destruct (pushed_outwards r (src (S (S k)) * PI * 2) (src k * 10 + -5) 0.8 5.8)
      as (_ & Hv & _); lra. }
  rewrite Hy.
  replace ((src k * 10 + -5 + 5) / 10) with (src k) by field.
  rewrite getScatterPoint_length by (lra || assumption).
  destruct (Hu (S (S (3 + k)))) as [Hw0 Hw1].
  pose proof (cbrt_le_1 _ Hw0 Hw1). pose proof (cbrt_nonneg _ Hw0).
  destruct (Hu (6 + k)%nat), (Hu (7 + k)%nat), (Hu (8 + k)%nat).
  pose proof PI_RGT_0 as Hpi. cbn [ex ey ez].
  repeat split; nra.
Qed.

Lemma photosData_placement_witness :
  Forall (fun d =>
    let y := vy (pd_tree d) in
    -5 <= y < 5
    /\ 0.8 < radial (pd_tree d) <= 5 * (1 - (y + 5) / 10) + 0.8
    /\ radial (pd_tree d) <= 5.8
    /\ length (pd_scatter d) <= 18
    /\ 0.8 <= pd_scale d < 1.2
    /\ 0.5 <= pd_speed d < 1.5
    /\ ex (pd_rotation d) = 0 /\ ez (pd_rotation d) = 0
    /\ 0 <= ey (pd_rotation d) < 2 * PI)
    (run (photosData ["blob:a"%string; "blob:b"%string]) (fun _ : nat => 1 / 2) 0).
Proof.
  apply (photosData_placement ["blob:a"%string; "blob:b"%string]
           (fun _ : nat => 1 / 2) 0%nat).
  intros k. lra.
Defined.

(** The id of the entity at position j is photo-j. *)
Lemma photosData_nth_id (photos : list string) (src : Source) (n : nat)
    (j : nat) (d : UserPhotoData) :
  nth_error (run (photosData photos) src n) j = Some d -> pd_id d = photoId j.
Proof.
  intros H.
  assert (Hlen : (j < List.length photos)%nat).
  { rewrite <- (mapFrom_length photos 0 src n). apply nth_error_Some.
    unfold run, photosData in H. congruence. }
  pose proof (map_nth_error pd_id j _ H) as Hid.
  unfold run, photosData in Hid. rewrite mapFrom_ids in Hid.
  rewrite nth_error_map, nth_error_seq in Hid.
  apply Nat.ltb_lt in Hlen. rewrite Hlen in Hid. simpl in Hid. congruence.
Qed.

(** After a click on the photo with id photo-i the mode is Focus, the
    photo list is as before, and among the photo entities exactly the one
    at position i is the focused one. *)
Theorem click_focuses_exactly_one_photo :
  forall (e : Experience.State) (i j : nat) (d : UserPhotoData)
         (src : Source) (n : nat),
    let e' := Experience.handlePhotoClick (photoId i) e in
    Experience.treeState e' = FOCUS
    /\ Experience.userPhotos e' = Experience.userPhotos e
    /\ (nth_error (run (photosData (Experience.userPhotos e')) src n) j = Some d ->
        (isFocusedOf (Experience.focusedPhotoId e') d = true <-> j = i)).
Proof.
  intros e i j d src n. cbv zeta. split; [reflexivity |]. split; [reflexivity |].
  intros Hnth. apply photosData_nth_id in Hnth.
  unfold isFocusedOf, Experience.handlePhotoClick, Experience.setTreeState,
    Experience.setFocusedPhotoId.
  cbn [Experience.focusedPhotoId]. rewrite Hnth, String.eqb_eq. split.
  - intros H. symmetry. now apply photoId_inj.
  - now intros ->.
Qed.

(** An upload appends: the photos that were there keep their ids, and
    the new ones take the next indices. *)
Theorem upload_keeps_photo_ids :
  forall (prev newPhotos : list string) (src src' : Source) (n n' : nat),
    map pd_id (run (photosData (App.handlePhotoUpload newPhotos prev)) src n)
    = map pd_id (run (photosData prev) src' n')
      ++ map photoId (seq (List.length prev) (List.length newPhotos)).
Proof.
  intros prev newPhotos src src' n n'. unfold run, photosData, App.handlePhotoUpload.
  rewrite !mapFrom_ids, length_app, seq_app, map_app. reflexivity.
Qed.

End PhotoDataFacts.

(* ===================================================================== *)
(** * Instance transforms of ornaments and gifts *)
(* ===================================================================== *)

Section InstanceFacts.
Import Three Random MathUtil Types Ornaments.

(** The loop from index [k] on leaves the entries past the data alone. *)
Lemma instanceLoop_beyond (k i : nat) (data : list OrnamentData) (t time : R)
    (buf : list Transform) :
  (k + List.length data <= i)%nat ->
  nth_error (instanceLoop k data t time buf) i = nth_error buf i.
Proof.
  revert k buf. induction data as [| item rest IH]; intros k buf H; simpl in *.
  - reflexivity.
  - rewrite IH by lia. apply nth_error_setMatrixAt_other. lia.
Qed.

(** [updateInstances] does nothing without a mesh.  With one, it keeps
    the size of the instance buffer, writes the transform of every entity
    that has a slot, and leaves the slots past the data as they were. *)
Theorem updateInstances_buffer :
  forall (m : InstancedMesh) (data : list OrnamentData) (targetMorph time delta : R),
    updateInstances None data targetMorph time delta = None
    /\ exists m',
         updateInstances (Some m) data targetMorph time delta = Some m'
         /\ List.length (instanceMatrix m') = List.length (instanceMatrix m)
         /\ (forall i item,
               nth_error data i = Some item ->
               (i < List.length (instanceMatrix m))%nat ->
               nth_error (instanceMatrix m') i
               = Some (instanceTransform i item (currentMorph m') time))
         /\ (forall i,
               (List.length data <= i)%nat ->
               nth_error (instanceMatrix m') i = nth_error (instanceMatrix m) i).
Proof.
  intros m data targetMorph time delta. split; [reflexivity |].
  eexists. split; [reflexivity |]. cbn [instanceMatrix currentMorph morphValue].
  split; [apply instanceLoop_length |]. split.
  - intros i item Hi Hlen. apply (instanceLoop_nth 0 i); [exact Hi | simpl; lia].
  - intros i Hi. apply instanceLoop_beyond. simpl. lia.
Qed.

(** For a morph value t in [0, 1] an ornament is drawn at the blend of
    its two positions, moved by at most floatAmp t = (1 - t) / 2 in x and
    in y and not at all in z, at between half and all of its scale; at
    t = 1 its transform is exactly its tree position, its stored
    rotation and its full scale, whatever the time. *)
Theorem ornament_instance_settles :
  forall (i : nat) (item : OrnamentData) (t time : R),
    0 <= t <= 1 ->
    let tr := instanceTransform i item t time in
    let base := lerpVectors (od_scatter item) (od_tree item) t in
    0 <= floatAmp t <= 0.5
    /\ - floatAmp t <= vx (position tr) - vx base <= floatAmp t
    /\ - floatAmp t <= vy (position tr) - vy base <= floatAmp t
    /\ vz (position tr) = vz base
    /\ od_scale item * 0.5 <= Rabs (scale tr) <= Rabs (od_scale item)
    /\ (t = 1 ->
        tr = mkTransform (od_tree item) (od_rotation item) (od_scale item)).
Proof.
  intros i item t time Ht. cbv zeta.
  unfold instanceTransform, floatAmp. cbn [position scale vx vy vz].
  pose proof (COS_bound (time * od_speed item * 0.5 + INR i)) as Hc.
  pose proof (SIN_bound (time * od_speed item + INR i)) as Hs.
  split; [lra |]. split; [split; nra |]. split; [split; nra |].
  split; [reflexivity |]. split.
  - rewrite Rabs_mult. rewrite (Rabs_pos_eq (t * 0.5 + 0.5)) by lra.
    pose proof (Rabs_pos (od_scale item)) as Hp.
    pose proof (Rle_abs (od_scale item)) as Hle. split; nra.
  - intros ->. unfold lerpVectors.
    destruct (od_tree item) as [tx ty tz], (od_scatter item) as [sx sy sz],
      (od_rotation item) as [rx ry rz]. cbn [vx vy vz ex ey ez].
    f_equal; try lra; f_equal; lra.
Qed.

Lemma ornament_instance_settles_witness :
  let item := mkOrnamentData SPHERE (mkVector3 1 2 3) (mkVector3 9 8 7)
                (mkEuler 1 2 0) 1.2 0.7 None in
  let tr := instanceTransform 4 item 1 10 in
  let base := lerpVectors (od_scatter item) (od_tree item) 1 in
  0 <= floatAmp 1 <= 0.5
  /\ - floatAmp 1 <= vx (position tr) - vx base <= floatAmp 1
  /\ - floatAmp 1 <= vy (position tr) - vy base <= floatAmp 1
  /\ vz (position tr) = vz base
  /\ od_scale item * 0.5 <= Rabs (scale tr) <= Rabs (od_scale item)
  /\ (1 = 1 ->
      tr = mkTransform (od_tree item) (od_rotation item) (od_scale item)).
Proof.
  apply (ornament_instance_settles 4
           (mkOrnamentData SPHERE (mkVector3 1 2 3) (mkVector3 9 8 7)
              (mkEuler 1 2 0) 1.2 0.7 None) 1 10).
  lra.
Defined.

(** A gift is drawn at the blend of its two positions, lifted or lowered
    by at most 0.2 * (1 - t) while t < 0.99 and not at all from 0.99 on,
    always at its own scale; at t = 1 it stands at its tree position,
    turned about the y axis by its stored angle only. *)
Theorem gift_instance_settles :
  forall (i : nat) (item : OrnamentData) (t time : R),
    0 <= t <= 1 ->
    let tr := Gifts.instanceTransform i item t time in
    let base := lerpVectors (od_scatter item) (od_tree item) t in
    vx (position tr) = vx base
    /\ vz (position tr) = vz base
    /\ - (0.2 * (1 - t)) <= vy (position tr) - vy base <= 0.2 * (1 - t)
    /\ (0.99 <= t -> position tr = base)
    /\ scale tr = od_scale item
    /\ (t = 1 ->
        tr = mkTransform (od_tree item) (mkEuler 0 (ey (od_rotation item)) 0)
               (od_scale item)).
Proof.
  intros i item t time Ht. cbv zeta.
  unfold Gifts.instanceTransform. cbn [position scale vx vy vz].
  pose proof (SIN_bound (time * od_speed item + INR i)) as Hs.
  split; [reflexivity |]. split; [reflexivity |]. split.
  - destruct (Rlt_dec t 0.99); split; nra.
  - split; [| split; [reflexivity |]].
    + intros H99. destruct (Rlt_dec t 0.99); [lra |].
      unfold lerpVectors. reflexivity.
    + intros ->. destruct (Rlt_dec 1 0.99); [lra |]. unfold lerpVectors.
      destruct (od_tree item) as [tx ty tz], (od_scatter item) as [sx sy sz],
        (od_rotation item) as [rx ry rz]. cbn [vx vy vz ex ey ez].
      f_equal; try lra; f_equal; lra.
Qed.

Lemma gift_instance_settles_witness :
  let item := mkOrnamentData BOX (mkVector3 3 (-5) 0) (mkVector3 0 10 0)
                (mkEuler 0 2 0) 1.2 0.7 None in
  let tr := Gifts.instanceTransform 0 item 0.995 10 in
  let base := lerpVectors (od_scatter item) (od_tree item) 0.995 in
  vx (position tr) = vx base
  /\ vz (position tr) = vz base
  /\ - (0.2 * (1 - 0.995)) <= vy (position tr) - vy base <= 0.2 * (1 - 0.995)
  /\ (0.99 <= 0.995 -> position tr = base)
  /\ scale tr = od_scale item
  /\ (0.995 = 1 ->
      tr = mkTransform (od_tree item) (mkEuler 0 (ey (od_rotation item)) 0)
             (od_scale item)).
Proof.
  apply (gift_instance_settles 0
           (mkOrnamentData BOX (mkVector3 3 (-5) 0) (mkVector3 0 10 0)
              (mkEuler 0 2 0) 1.2 0.7 None) 0.995 10).
  lra.
Defined.

End InstanceFacts.

(* ===================================================================== *)
(** * Morph values while the mode changes *)
(* ===================================================================== *)

Section TimelineFacts.
Import Three Types Timeline.

Lemma lerp_unit (p target k : R) :
  unitInterval p -> unitInterval target -> unitInterval k ->
  unitInterval (lerp p target k).
Proof. unfold unitInterval, lerp. intros Hp Ht Hk. split; nra. Qed.

Lemma targetMorphOf_unit (state : TreeState) :
  unitInterval (Ornaments.targetMorphOf state).
Proof.
  unfold unitInterval, Ornaments.targetMorphOf.
  destruct state; cbn [TreeState_eqb]; lra.
Qed.

Lemma mesh_frame_unit (state : TreeState) (data : list OrnamentData)
    (time delta : R) (mesh : option Ornaments.InstancedMesh) :
  0 <= delta <= 1 / 2 -> unitInterval (morphOf mesh) ->
  unitInterval
    (morphOf (Ornaments.updateInstances mesh data (Ornaments.targetMorphOf state)
                time delta)).
Proof.
  intros Hd Hp. destruct mesh as [m |]; [| exact Hp].
  change (unitInterval (lerp (Ornaments.currentMorph m)
                          (Ornaments.targetMorphOf state) (1.5 * delta))).
  apply lerp_unit; [exact Hp | apply targetMorphOf_unit | unfold unitInterval; lra].
Qed.

Lemma gift_frame_unit (state : TreeState) (data : list OrnamentData)
    (time delta : R) (mesh : option Ornaments.InstancedMesh) :
  0 <= delta <= 1 / 2 -> unitInterval (morphOf mesh) ->
  unitInterval (morphOf (Gifts.useFrame state data time delta mesh)).
Proof.
  intros Hd Hp. destruct mesh as [m |]; [| exact Hp].
  change (unitInterval (lerp (Ornaments.currentMorph m)
                          (Ornaments.targetMorphOf state) (1.5 * delta))).
  apply lerp_unit; [exact Hp | apply targetMorphOf_unit | unfold unitInterval; lra].
Qed.

Lemma foliage_frame_unit (state : TreeState) (time delta : R)
    (shaderRef : option Foliage.Uniforms) :
  0 <= delta <= 1 / 2 -> unitInterval (foliageMorph shaderRef) ->
  unitInterval (foliageMorph (Foliage.useFrame state time delta shaderRef)).
Proof.
  intros Hd Hp. destruct shaderRef as [u |]; [| exact Hp].
  change (unitInterval (lerp (Foliage.uMorphFactor u)
                          (Ornaments.targetMorphOf state) (2 * delta))).
  apply lerp_unit; [exact Hp | apply targetMorphOf_unit | unfold unitInterval; lra].
Qed.

(** Whatever the sequence of modes, as long as every delta is between 0
    and half a second, the morph values of the foliage, of the four
    ornament groups and of the gifts stay in [0, 1] once they are there
    (as they are at creation). *)
Theorem morph_values_stay_in_unit_interval :
  forall (frames : list Frame) (data : list OrnamentData)
         (f : option Foliage.Uniforms) (g : Ornaments.Groups)
         (gift : option Ornaments.InstancedMesh),
    steady frames ->
    Forall unitInterval (morphs f g gift) ->
    Forall unitInterval
      (morphs (foliage frames f) (ornaments frames g) (gifts data frames gift)).
Proof.
  intros frames data. induction frames as [| fr rest IH]; intros f g gift Hsteady Hin.
  - exact Hin.
  - inversion Hsteady as [| ? ? Hd Hrest]; subst.
    cbn [foliage ornaments gifts]. apply IH; [exact Hrest |].
    unfold morphs in *.
    repeat match goal with
    | H : Forall _ (_ :: _) |- _ => inversion H; subst; clear H
    end.
    unfold Ornaments.useFrame.
    cbn [Ornaments.goldRef Ornaments.ceramicRef Ornaments.satinRef Ornaments.boxesRef].
    repeat apply Forall_cons; try apply Forall_nil;
      first [ now apply foliage_frame_unit
            | now apply mesh_frame_unit
            | now apply gift_frame_unit ].
Qed.

Lemma morph_values_stay_in_unit_interval_witness :
  let frames : list Frame :=
    [(TREE_SHAPE, 0, 1 / 60); (FOCUS, 1 / 60, 1 / 2); (SCATTERED, 1, 1 / 30)] in
  let g := Ornaments.mkGroups (Some (Ornaments.newMesh 0)) [] None []
             (Some (Ornaments.newMesh 0)) [] (Some (Ornaments.newMesh 0)) [] in
  Forall unitInterval
    (morphs (foliage frames (Some Foliage.initialUniforms)) (ornaments frames g)
       (gifts [] frames (Some (Ornaments.newMesh 40)))).
Proof.
  apply (morph_values_stay_in_unit_interval
           [(TREE_SHAPE, 0, 1 / 60); (FOCUS, 1 / 60, 1 / 2); (SCATTERED, 1, 1 / 30)] []
           (Some Foliage.initialUniforms)
           (Ornaments.mkGroups (Some (Ornaments.newMesh 0)) [] None []
              (Some (Ornaments.newMesh 0)) [] (Some (Ornaments.newMesh 0)) [])
           (Some (Ornaments.newMesh 40))).
  - repeat apply Forall_cons; try apply Forall_nil; simpl; lra.
  - unfold morphs. repeat apply Forall_cons; try apply Forall_nil;
      unfold unitInterval, morphOf, foliageMorph, Ornaments.currentMorph;
      simpl; lra.
Defined.

(** Towards target 0 a stable step only shrinks the value. *)
Lemma smooth_decay (rate : R) (deltas : list R) (p : R) :
  0 <= rate ->
  Forall (fun d => 0 <= d /\ rate * d <= 1) deltas ->
  0 <= p ->
  0 <= MorphClock.smooth rate 0 deltas p
    <= p * exp (- rate * fold_right Rplus 0 deltas).
Proof.
  intros Hrate Hall. revert p.
  induction Hall as [| d rest [Hd0 Hd1] Hrest IH]; intros p Hp.
  - unfold MorphClock.smooth. simpl. replace (- rate * 0) with 0 by ring.
    rewrite exp_0. lra.
  - change (MorphClock.smooth rate 0 (d :: rest) p)
      with (MorphClock.smooth rate 0 rest (lerp p 0 (rate * d))).
    change (fold_right Rplus 0 (d :: rest)) with (d + fold_right Rplus 0 rest).
    assert (Hk : 0 <= rate * d) by (apply Rmult_le_pos; lra).
    assert (Hstep : lerp p 0 (rate * d) = p * (1 - rate * d)) by (unfold lerp; ring).
    assert (Hp' : 0 <= lerp p 0 (rate * d)) by (rewrite Hstep; nra).
    destruct (IH _ Hp') as [IH0 IH1]. split; [exact IH0 |].
    eapply Rle_trans; [exact IH1 |].
    replace (- rate * (d + fold_right Rplus 0 rest))
      with (- (rate * d) + - rate * fold_right Rplus 0 rest) by ring.
    rewrite exp_plus, Hstep.
    pose proof (exp_ineq1_le (- (rate * d))) as He.
    pose proof (exp_pos (- rate * fold_right Rplus 0 rest)) as Hpos.
    assert (H1 : p * (1 - rate * d) <= p * exp (- (rate * d))).
    { apply Rmult_le_compat_l; lra. }
    rewrite <- Rmult_assoc. apply Rmult_le_compat_r; lra.
Qed.

Lemma half_second_stable (rate : R) (frames : list (R * R)) :
  0 <= rate <= 2 ->
  Forall (fun f => 0 <= snd f <= 1 / 2) frames ->
  Forall (fun d => 0 <= d /\ rate * d <= 1) (map snd frames).
Proof.
  intros Hr. induction 1 as [| f rest Hf _ IH]; simpl; constructor; auto.
  split; nra.
Qed.

(** In a mode other than Formed (Scattered or Focus), with deltas of at
    most half a second, the morph value of an ornament group, of the
    gifts and of the foliage falls from its value p in [0, 1] towards 0:
    after frames summing to T it is between 0 and p * exp (- rate * T),
    with rate 1.5 for the meshes and 2 for the foliage. *)
Theorem morph_decays_outside_formed :
  forall (state : TreeState) (frames : list (R * R)) (data : list OrnamentData)
         (m : Ornaments.InstancedMesh) (u : Foliage.Uniforms),
    state <> TREE_SHAPE ->
    Forall (fun f => 0 <= snd f <= 1 / 2) frames ->
    0 <= Ornaments.currentMorph m ->
    0 <= Foliage.uMorphFactor u ->
    let T := MorphClock.elapsed frames in
    (exists m',
       Ornaments.runMesh data (Ornaments.targetMorphOf state) frames (Some m) = Some m'
       /\ 0 <= Ornaments.currentMorph m' <= Ornaments.currentMorph m * exp (- 1.5 * T))
    /\ (exists m',
          Gifts.run state data frames (Some m) = Some m'
          /\ 0 <= Ornaments.currentMorph m'
               <= Ornaments.currentMorph m * exp (- 1.5 * T))
    /\ (exists u',
          Foliage.run state frames (Some u) = Some u'
          /\ 0 <= Foliage.uMorphFactor u' <= Foliage.uMorphFactor u * exp (- 2 * T)).
Proof.
  intros state frames data m u Hmode Hframes Hm Hu. cbv zeta.
  assert (Htarget : Ornaments.targetMorphOf state = 0)
    by (destruct state; [reflexivity | contradiction | reflexivity]).
  rewrite elapsed_deltas.
  split; [| split].
  - destruct (ornaments_run_morph data (Ornaments.targetMorphOf state) frames m)
      as [m' [Hrun Hmorph]].
    exists m'. split; [exact Hrun |]. rewrite Hmorph, Htarget.
    replace (-1.5 * fold_right Rplus 0 (map snd frames))
      with (Ropp 1.5 * fold_right Rplus 0 (map snd frames)) by lra.
    apply smooth_decay; [lra | apply half_second_stable; [lra | exact Hframes] | exact Hm].
  - destruct (gifts_run_morph state data frames m) as [m' [Hrun Hmorph]].
    exists m'. split; [exact Hrun |]. rewrite Hmorph, Htarget.
    replace (-1.5 * fold_right Rplus 0 (map snd frames))
      with (Ropp 1.5 * fold_right Rplus 0 (map snd frames)) by lra.
    apply smooth_decay; [lra | apply half_second_stable; [lra | exact Hframes] | exact Hm].
  - destruct (foliage_run_morph state frames u) as [u' [Hrun Hmorph]].
    exists u'. split; [exact Hrun |]. rewrite Hmorph, Htarget.
    replace (-2 * fold_right Rplus 0 (map snd frames))
      with (Ropp 2 * fold_right Rplus 0 (map snd frames)) by lra.
    apply smooth_decay; [lra | apply half_second_stable; [lra | exact Hframes] | exact Hu].
Qed.

Lemma morph_decays_outside_formed_witness :
  let frames := MorphClock.steady (1 / 60) 3 in
  let m := Ornaments.mkInstancedMesh (Some 1) [] in
  let u := Foliage.mkUniforms 0 1 in
  let T := MorphClock.elapsed frames in
  (exists m',
     Ornaments.runMesh [] (Ornaments.targetMorphOf FOCUS) frames (Some m) = Some m'
     /\ 0 <= Ornaments.currentMorph m' <= Ornaments.currentMorph m * exp (- 1.5 * T))
  /\ (exists m',
        Gifts.run FOCUS [] frames (Some m) = Some m'
        /\ 0 <= Ornaments.currentMorph m'
             <= Ornaments.currentMorph m * exp (- 1.5 * T))
  /\ (exists u',
        Foliage.run FOCUS frames (Some u) = Some u'
        /\ 0 <= Foliage.uMorphFactor u' <= Foliage.uMorphFactor u * exp (- 2 * T)).
Proof.
  apply (morph_decays_outside_formed FOCUS (MorphClock.steady (1 / 60) 3) []
           (Ornaments.mkInstancedMesh (Some 1) []) (Foliage.mkUniforms 0 1)).
  - discriminate.
  - unfold MorphClock.steady. simpl.
    repeat apply Forall_cons; try apply Forall_nil; simpl; lra.
  - unfold Ornaments.currentMorph. simpl. lra.
  - simpl. lra.
Defined.

End TimelineFacts.

(* ===================================================================== *)
(** * More on the gesture classifier and the frame callback *)
(* ===================================================================== *)

Section GestureFacts.
Import Three Random Types Experience.

Lemma avgDistToWrist_short (landmarks : list Landmark) :
  (List.length landmarks < 21)%nat -> avgDistToWrist landmarks = None.
Proof.
  intros H. unfold avgDistToWrist, sumDistToWrist. cbn [fold_left].
  assert (H20 : nth_error landmarks 20 = None) by (apply nth_error_None; lia).
  rewrite H20.
  destruct (dist (nth_error landmarks 8) (nth_error landmarks 0));
    [destruct (dist (nth_error landmarks 12) (nth_error landmarks 0));
     [destruct (dist (nth_error landmarks 16) (nth_error landmarks 0)) |] |];
    reflexivity.
Qed.

Lemma nth_error_defined {A : Type} (l : list A) (i : nat) :
  (i < List.length l)%nat -> exists a, nth_error l i = Some a.
Proof.
  intros H. destruct (nth_error l i) as [a |] eqn:E; [now exists a |].
  apply nth_error_None in E. lia.
Qed.

Lemma avgDistToWrist_full (landmarks : list Landmark) :
  (21 <= List.length landmarks)%nat -> exists avg, avgDistToWrist landmarks = Some avg.
Proof.
  intros H. unfold avgDistToWrist, sumDistToWrist. cbn [fold_left].
  destruct (nth_error_defined landmarks 0 ltac:(lia)) as [w ->].
  destruct (nth_error_defined landmarks 8 ltac:(lia)) as [a ->].
  destruct (nth_error_defined landmarks 12 ltac:(lia)) as [b ->].
  destruct (nth_error_defined landmarks 16 ltac:(lia)) as [c ->].
  destruct (nth_error_defined landmarks 20 ltac:(lia)) as [d ->].
  cbn [dist]. eexists. reflexivity.
Qed.

(** The classifier writes neither the time stamp of the last video frame
    nor the two objects the frame callback animates. *)
Lemma detectGestures_refs (landmarks : list Landmark) (e : State)
    (src : Source) (n : nat) :
  let final := fst (fst (detectGestures landmarks e src n)) in
  lastVideoTimeRef final = lastVideoTimeRef e
  /\ groupRef final = groupRef e
  /\ starRef final = starRef e
  /\ visionEnabled final = visionEnabled e.
Proof.
  cbv zeta. unfold detectGestures.
  destruct (avgDistToWrist landmarks) as [avg |]; [| repeat split].
  destruct (pinchDist landmarks) as [pinch |]; [| repeat split].
  unfold bind, classify, handRotation.
  generalize (nth_error landmarks 9). intros handCenter.
  destruct (Rlt_dec avg 0.15); [| destruct (Rgt_dec avg 0.35);
                                   [| destruct (Rlt_dec pinch 0.05)]];
    destruct (treeState e); cbn;
    try (destruct (userPhotos e); cbn);
    destruct handCenter; repeat split.
Qed.

(** A hand sample with fewer than 21 landmarks makes [detectGestures]
    throw before it has written anything, and the frame callback that
    passed it on keeps mode, focused id and rotation target and completes
    normally; a sample with 21 landmarks or more never makes it throw. *)
Theorem short_sample_throws_without_writing :
  forall (landmarks : list Landmark) (e : State) (src : Source) (n : nat),
    ((List.length landmarks < 21)%nat ->
       detectGestures landmarks e src n = ((e, Thrown), n)
       /\ forall env video others,
            freshFrame env e = Some (video, DetectReturns (Some (landmarks :: others))) ->
            appState (fst (Random.run (useFrame env e) src n)) = appState e
            /\ snd (Random.run (useFrame env e) src n) = Normal)
    /\ ((21 <= List.length landmarks)%nat ->
          snd (Random.run (detectGestures landmarks e) src n) = Normal).
Proof.
  intros landmarks e src n. split.
  - intros Hshort.
    assert (Hthrow : forall e0 k, detectGestures landmarks e0 src k = ((e0, Thrown), k)).
    { intros e0 k. unfold detectGestures.
      rewrite (avgDistToWrist_short _ Hshort). reflexivity. }
    split; [apply Hthrow |].
    intros env video others Hfresh.
    unfold Random.run, useFrame, bind, processFrame. rewrite Hfresh.
    unfold tryCatch, bind. rewrite Hthrow. cbn [fst snd ret].
    split; [| reflexivity]. now rewrite appState_animate.
  - intros Hfull. destruct (avgDistToWrist_full _ Hfull) as [avg Havg].
    destruct (avgDistToWrist_defined _ _ Havg) as (pinch & hc & Hpinch & Hhc).
    unfold Random.run, detectGestures. rewrite Havg, Hpinch. unfold bind.
    destruct (classify avg pinch e src n) as [e1 n1]. cbn [fst snd ret].
    unfold handRotation. rewrite Hhc.
    destruct (negb (TreeState_eqb (treeState e) TREE_SHAPE)); reflexivity.
Qed.

(** An ambiguous pose holds the mode: with the fingertip average in
    [0.15, 0.35] and the thumb and index tips at least 0.05 apart, mode
    and focused id are left as they are. *)
Theorem ambiguous_pose_holds_mode :
  forall (landmarks : list Landmark) (avg pinch : R) (e : State)
         (src : Source) (n : nat),
    avgDistToWrist landmarks = Some avg ->
    pinchDist landmarks = Some pinch ->
    0.15 <= avg <= 0.35 -> 0.05 <= pinch ->
    let final := fst (Random.run (detectGestures landmarks e) src n) in
    treeState final = treeState e
    /\ focusedPhotoId final = focusedPhotoId e
    /\ snd (detectGestures landmarks e src n) = n.
Proof.
  intros landmarks avg pinch e src n Havg Hpinch [Hlo Hhi] Hp. cbv zeta.
  assert (Hc : classify avg pinch e src n = (e, n)).
  { unfold classify.
    destruct (Rlt_dec avg 0.15); [lra |]. destruct (Rgt_dec avg 0.35); [lra |].
    destruct (Rlt_dec pinch 0.05); [lra |]. reflexivity. }
  unfold Random.run, detectGestures. rewrite Havg, Hpinch. unfold bind. rewrite Hc.
  cbn [fst snd ret]. destruct (handRotation_mode landmarks e e) as (Hm & Hf & _).
  repeat split; assumption.
Qed.

Lemma ambiguous_pose_holds_mode_witness :
  let e := initialState ["blob:photo"%string] in
  let src := fun _ : nat => 1 / 2 in
  let final := fst (Random.run (detectGestures (sample 0.25 0.1) e) src 0) in
  treeState final = treeState e
  /\ focusedPhotoId final = focusedPhotoId e
  /\ snd (detectGestures (sample 0.25 0.1) e src 0%nat) = 0%nat.
Proof.
  apply (ambiguous_pose_holds_mode (sample 0.25 0.1) 0.25 0.1
           (initialState ["blob:photo"%string]) (fun _ : nat => 1 / 2) 0%nat).
  - apply sample_avg. lra.
  - apply sample_pinch. lra.
  - lra.
  - lra.
Defined.

(** The rotation target after a hand sample whose centre landmark has x
    and y in [0, 1]: when the mode of the render was Formed it is reset to
    (0, 0); otherwise it is 3 * (y - 0.5) about x and 3 * (x - 0.5) about
    y, also on the very sample that switches to Formed.  Either way both
    angles are within [-1.5, 1.5]. *)
Theorem hand_rotation_target :
  forall (landmarks : list Landmark) (avg : R) (handCenter : Landmark)
         (e : State) (src : Source) (n : nat),
    avgDistToWrist landmarks = Some avg ->
    nth_error landmarks 9 = Some handCenter ->
    0 <= lx handCenter <= 1 -> 0 <= ly handCenter <= 1 ->
    let final := fst (Random.run (detectGestures landmarks e) src n) in
    (treeState e = TREE_SHAPE -> targetRotation final = mkRotation 0 0)
    /\ (treeState e <> TREE_SHAPE ->
          targetRotation final
          = mkRotation ((ly handCenter - 0.5) * 3.0) ((lx handCenter - 0.5) * 3.0))
    /\ -1.5 <= rot_x (targetRotation final) <= 1.5
    /\ -1.5 <= rot_y (targetRotation final) <= 1.5.
Proof.
  intros landmarks avg hc e src n Havg Hhc Hx Hy. cbv zeta.
  destruct (avgDistToWrist_defined _ _ Havg) as (pinch & hc' & Hpinch & _).
  unfold Random.run, detectGestures. rewrite Havg, Hpinch. unfold bind.
  destruct (classify avg pinch e src n) as [e1 n1]. cbn [fst snd ret].
  unfold handRotation. rewrite Hhc.
  destruct (treeState e); cbn [TreeState_eqb negb fst targetRotation setTargetRotation
                               rot_x rot_y];
    repeat split; try congruence; try lra; intros; try congruence; try reflexivity.
Qed.

Lemma hand_rotation_target_witness :
  let e := initialState [] in
  let final := fst (Random.run (detectGestures (sample 0.5 0) e) (fun _ : nat => 0) 0) in
  (treeState e = TREE_SHAPE -> targetRotation final = mkRotation 0 0)
  /\ (treeState e <> TREE_SHAPE ->
        targetRotation final = mkRotation ((0 - 0.5) * 3.0) ((0.5 - 0.5) * 3.0))
  /\ -1.5 <= rot_x (targetRotation final) <= 1.5
  /\ -1.5 <= rot_y (targetRotation final) <= 1.5.
Proof.
  apply (hand_rotation_target (sample 0.5 0) 0.5 (mkLandmark 0.5 0 0) (initialState [])
           (fun _ : nat => 0) 0%nat).
  - apply sample_avg. lra.
  - reflexivity.
  - simpl. lra.
  - simpl. lra.
Defined.

(** A video frame is processed at most once: a frame callback that took
    a video frame records its time, after which no video with that time
    passes the guard again. *)
Theorem video_frame_processed_once :
  forall (env : FrameEnv) (e : State) (video : Video) (d : Detection)
         (src : Source) (n : nat),
    freshFrame env e = Some (video, d) ->
    let e' := fst (Random.run (useFrame env e) src n) in
    lastVideoTimeRef e' = currentTime video
    /\ forall env' video',
         videoRef env' = Some video' ->
         currentTime video' = currentTime video ->
         freshFrame env' e' = None.
Proof.
  intros env e video d src n Hfresh. cbv zeta.
  assert (Htime : lastVideoTimeRef (fst (Random.run (useFrame env e) src n))
                  = currentTime video).
  { unfold Random.run, useFrame, bind, processFrame. rewrite Hfresh.
    unfold tryCatch, bind.
    set (e0 := setLastVideoTime (currentTime video) e).
    assert (Hbody : forall body : Rand (State * Completion),
              lastVideoTimeRef (fst (fst (body src n))) = currentTime video ->
              lastVideoTimeRef
                (fst (fst (let (r, n') := let (r, n') := body src n in ret (fst r, Normal) src n'
                           in match snd r with
                              | Thrown => ret r
                              | Normal => ret (spinStar (animateGroup (treeState e) (fst r)),
                                               Normal)
                              end src n')))
              = currentTime video).
    { intros body Hb. destruct (body src n) as [[e1 c] n1]. cbn [fst snd ret] in *.
      unfold spinStar, animateGroup.
      destruct (groupRef e1); [destruct (treeState e) |]; cbn;
        match goal with |- context [starRef ?x] => destruct (starRef x) end;
        exact Hb. }
    destruct d as [| [[| hand others] |]]; try (apply Hbody; reflexivity).
    apply Hbody. rewrite (proj1 (detectGestures_refs hand e0 src n)). reflexivity. }
  split; [exact Htime |].
  intros env' video' Hv Ht. unfold freshFrame.
  destruct (visionEnabled _); [| reflexivity].
  destruct (handLandmarker env'); [| reflexivity].
  rewrite Hv, Htime.
  destruct (Req_dec_T (currentTime video') (currentTime video)); [| contradiction].
  now rewrite andb_false_r.
Qed.

Lemma video_frame_processed_once_witness :
  let video := mkVideo 4 false 1280 720 2 in
  let env := mkFrameEnv (Some (DetectReturns (Some [sample 0.05 0]))) (Some video) in
  let e' := fst (Random.run (useFrame env (initialState [])) (fun _ : nat => 0) 0) in
  lastVideoTimeRef e' = currentTime video
  /\ forall env' video',
       videoRef env' = Some video' ->
       currentTime video' = currentTime video ->
       freshFrame env' e' = None.
Proof.
  apply (video_frame_processed_once
           (mkFrameEnv (Some (DetectReturns (Some [sample 0.05 0])))
              (Some (mkVideo 4 false 1280 720 2)))
           (initialState []) (mkVideo 4 false 1280 720 2)
           (DetectReturns (Some [sample 0.05 0])) (fun _ : nat => 0) 0%nat).
  unfold freshFrame. cbn [visionEnabled initialState handLandmarker videoRef
                          readyState paused videoWidth videoHeight currentTime
                          lastVideoTimeRef].
  destruct (Req_dec_T 2 (-1)); [lra | reflexivity].
Defined.

End GestureFacts.

(* ===================================================================== *)
(** * The rotation of the main group, frame after frame *)
(* ===================================================================== *)

Section GroupRotationFacts.
Import Three Random Types Experience ExperienceRun.

(** With hand tracking off a frame only animates the group and the star. *)
Lemma useFrame_vision_off (env : FrameEnv) (e : State) (src : Source) (n : nat) :
  visionEnabled e = false ->
  useFrame env e src n = ((spinStar (animateGroup (treeState e) e), Normal), n).
Proof.
  intros Hv. unfold useFrame, bind, processFrame, freshFrame. rewrite Hv. reflexivity.
Qed.

Lemma animate_keeps_props (mode : TreeState) (e : State) :
  let e' := spinStar (animateGroup mode e) in
  treeState e' = treeState e
  /\ visionEnabled e' = visionEnabled e
  /\ targetRotation e' = targetRotation e.
Proof.
  cbv zeta. unfold spinStar, animateGroup, setGroupRotation, setStarRotation.
  destruct (groupRef e); [destruct mode |]; cbn [TreeState_eqb starRef];
    destruct (starRef e) eqn:E; repeat split.
Qed.

Lemma animate_groupRef (mode : TreeState) (e : State) (rot : Euler) :
  groupRef e = Some rot ->
  groupRef (spinStar (animateGroup mode e))
  = Some (match mode with
          | TREE_SHAPE => mkEuler (lerp (ex rot) 0 0.05) (ey rot + 0.002) (ez rot)
          | FOCUS => mkEuler (lerp (ex rot) 0 0.1) (lerp (ey rot) 0 0.1) (ez rot)
          | SCATTERED =>
              mkEuler (lerp (ex rot) (rot_x (targetRotation e)) 0.05)
                      (lerp (ey rot) (rot_y (targetRotation e)) 0.05) (ez rot)
          end).
Proof.
  intros Hg. unfold spinStar, animateGroup, setGroupRotation, setStarRotation.
  rewrite Hg.
  destruct mode; cbn [TreeState_eqb starRef groupRef targetRotation];
    destruct (starRef e) eqn:E; cbn [groupRef]; congruence.
Qed.

Lemma animate_starRef (mode : TreeState) (e : State) :
  starRef (spinStar (animateGroup mode e))
  = option_map (fun y => y + 0.01) (starRef e).
Proof.
  unfold spinStar, animateGroup, setGroupRotation, setStarRotation.
  destruct (groupRef e); [destruct mode |]; cbn [TreeState_eqb starRef];
    destruct (starRef e) eqn:E; cbn [starRef option_map]; congruence.
Qed.

Lemma frames_cons_vision_off (env : FrameEnv) (rest : list FrameEnv) (e : State)
    (src : Source) (n : nat) :
  visionEnabled e = false ->
  Random.run (frames (env :: rest) e) src n
  = Random.run (frames rest (spinStar (animateGroup (treeState e) e))) src n.
Proof.
  intros Hv. unfold Random.run. cbn [frames]. unfold bind.
  rewrite (useFrame_vision_off env e src n Hv). reflexivity.
Qed.

(** With hand tracking off, k frames in Focus mode scale the x and y
    rotation of the main group by 0.9^k (the group recentres), and k
    frames in Formed mode scale its x rotation by 0.95^k while its y
    rotation grows by 0.002 per frame; the z rotation and the mode stay,
    and the star has turned by 0.01 per frame. *)
Theorem group_recentres_and_spins :
  forall (envs : list FrameEnv) (e : State) (rot : Euler) (src : Source) (n : nat),
    visionEnabled e = false ->
    groupRef e = Some rot ->
    let k := List.length envs in
    let e' := Random.run (frames envs e) src n in
    treeState e' = treeState e
    /\ starRef e' = option_map (fun y => y + 0.01 * INR k) (starRef e)
    /\ (treeState e = FOCUS ->
        groupRef e' = Some (mkEuler (0.9 ^ k * ex rot) (0.9 ^ k * ey rot) (ez rot)))
    /\ (treeState e = TREE_SHAPE ->
        groupRef e'
        = Some (mkEuler (0.95 ^ k * ex rot) (ey rot + 0.002 * INR k) (ez rot))).
Proof.
  intros envs. induction envs as [| env rest IH]; intros e rot src n Hv Hg; cbv zeta.
  - unfold Random.run. cbn [frames List.length ret fst pow INR].
    rewrite Hg. destruct rot as [x y z]. cbn [ex ey ez].
    split; [reflexivity |]. split.
    + destruct (starRef e); cbn; [f_equal; lra | reflexivity].
    + split; intros _; do 2 f_equal; lra.
  - rewrite (frames_cons_vision_off env rest e src n Hv).
    destruct (animate_keeps_props (treeState e) e) as (Hm & Hvis & _).
    cbv zeta in Hm, Hvis.
    pose proof (animate_groupRef (treeState e) e rot Hg) as Hstep.
    pose proof (animate_starRef (treeState e) e) as Hstar.
    set (e1 := spinStar (animateGroup (treeState e) e)) in *.
    specialize (IH e1 _ src n ltac:(congruence) Hstep).
    cbv zeta in IH. destruct IH as (IHm & IHs & IHf & IHt).
    change (List.length (env :: rest)) with (S (List.length rest)).
    rewrite S_INR. set (k := List.length rest) in *.
    split; [congruence |]. split.
    + rewrite IHs, Hstar. destruct (starRef e); cbn; [f_equal; lra | reflexivity].
    + split; intros Hmode.
      * rewrite IHf by congruence. rewrite Hmode. unfold lerp. cbn [ex ey ez pow].
        do 2 f_equal; lra.
      * rewrite IHt by congruence. rewrite Hmode. unfold lerp. cbn [ex ey ez pow].
        do 2 f_equal; lra.
Qed.

Lemma group_recentres_and_spins_witness :
  let e := quietFocus in
  let envs := [mkFrameEnv None None; mkFrameEnv None None] in
  let e' := Random.run (frames envs e) (fun _ : nat => 0) 0 in
  treeState e' = treeState e
  /\ starRef e' = option_map (fun y => y + 0.01 * INR 2) (starRef e)
  /\ (treeState e = FOCUS ->
      groupRef e' = Some (mkEuler (0.9 ^ 2 * 1) (0.9 ^ 2 * (-1)) 0))
  /\ (treeState e = TREE_SHAPE ->
      groupRef e' = Some (mkEuler (0.95 ^ 2 * 1) (-1 + 0.002 * INR 2) 0)).
Proof.
  apply (group_recentres_and_spins [mkFrameEnv None None; mkFrameEnv None None]
           quietFocus (mkEuler 1 (-1) 0) (fun _ : nat => 0) 0%nat).
  - reflexivity.
  - reflexivity.
Defined.

(** With hand tracking off, k frames in Scattered mode bring the x and y
    rotation of the main group towards the rotation target, the gap
    shrinking by the factor 0.95 per frame; a rotation and a target
    within [-1.5, 1.5] keep the rotation within [-1.5, 1.5]. *)
Theorem group_tracks_rotation_target :
  forall (envs : list FrameEnv) (e : State) (rot : Euler) (src : Source) (n : nat),
    visionEnabled e = false ->
    groupRef e = Some rot ->
    treeState e = SCATTERED ->
    let k := List.length envs in
    let tx := rot_x (targetRotation e) in
    let ty := rot_y (targetRotation e) in
    let e' := Random.run (frames envs e) src n in
    groupRef e'
    = Some (mkEuler (tx + 0.95 ^ k * (ex rot - tx)) (ty + 0.95 ^ k * (ey rot - ty))
              (ez rot))
    /\ (-1.5 <= tx <= 1.5 -> -1.5 <= ex rot <= 1.5 ->
        -1.5 <= ex (groupRotation e') <= 1.5)
    /\ (-1.5 <= ty <= 1.5 -> -1.5 <= ey rot <= 1.5 ->
        -1.5 <= ey (groupRotation e') <= 1.5).
Proof.
  intros envs e rot src n Hv Hg Hmode. cbv zeta.
  assert (Hclosed : groupRef (Random.run (frames envs e) src n)
            = Some (mkEuler
                      (rot_x (targetRotation e)
                       + 0.95 ^ List.length envs * (ex rot - rot_x (targetRotation e)))
                      (rot_y (targetRotation e)
                       + 0.95 ^ List.length envs * (ey rot - rot_y (targetRotation e)))
                      (ez rot))).
  { revert e rot Hv Hg Hmode.
    induction envs as [| env rest IH]; intros e rot Hv Hg Hmode.
    - unfold Random.run. cbn [frames List.length ret fst pow].
      rewrite Hg. destruct rot as [x y z]. cbn [ex ey ez]. do 2 f_equal; lra.
    - rewrite (frames_cons_vision_off env rest e src n Hv).
      destruct (animate_keeps_props (treeState e) e) as (Hm & Hvis & Htr).
      cbv zeta in Hm, Hvis, Htr.
      pose proof (animate_groupRef (treeState e) e rot Hg) as Hstep.
      rewrite Hmode in Hstep at 2.
      set (e1 := spinStar (animateGroup (treeState e) e)) in *.
      rewrite (IH e1 _ ltac:(congruence) Hstep ltac:(congruence)).
      rewrite Htr. unfold lerp. cbn [ex ey ez pow List.length].
      do 2 f_equal; lra. }
  split; [exact Hclosed |].
  unfold groupRotation. rewrite Hclosed. cbn [ex ey].
  assert (Hp : 0 <= 0.95 ^ List.length envs <= 1).
  { split; [apply pow_le; lra |].
    rewrite <- (pow1 (List.length envs)). apply pow_incr. lra. }
  split; intros Ht Hr; split; nra.
Qed.

Lemma group_tracks_rotation_target_witness :
  let e := quietScattered in
  let envs := [mkFrameEnv None None; mkFrameEnv None None] in
  let tx := rot_x (targetRotation e) in
  let ty := rot_y (targetRotation e) in
  let e' := Random.run (frames envs e) (fun _ : nat => 0) 0 in
  groupRef e'
  = Some (mkEuler (tx + 0.95 ^ 2 * (1 - tx)) (ty + 0.95 ^ 2 * (-1 - ty)) 0)
  /\ (-1.5 <= tx <= 1.5 -> -1.5 <= 1 <= 1.5 -> -1.5 <= ex (groupRotation e') <= 1.5)
  /\ (-1.5 <= ty <= 1.5 -> -1.5 <= -1 <= 1.5 -> -1.5 <= ey (groupRotation e') <= 1.5).
Proof.
  apply (group_tracks_rotation_target [mkFrameEnv None None; mkFrameEnv None None]
           quietScattered (mkEuler 1 (-1) 0) (fun _ : nat => 0) 0%nat).
  - reflexivity.
  - reflexivity.
  - reflexivity.
Defined.

End GroupRotationFacts.

(* ===================================================================== *)
(** * More on the photo frames *)
(* ===================================================================== *)

Section PhotoFrameFacts.
Import Three Random Types UserPhotos.
Context {Q : Type} {qops : QuaternionOps Q}.

(** A frame in Formed mode moves the photo a tenth of the way to its
    tree position, stored rotation and own scale. *)
Lemma step_formed (data : UserPhotoData) (focusedId : option string)
    (env : FrameEnv) (s : PhotoFrameState (Q := Q)) (g : Group) :
  groupRef s = Some g ->
  groupRef (step data TREE_SHAPE focusedId (Frame env) s)
  = Some (mkGroup
            (vlerp (position g) (pd_tree data) 0.1)
            (slerp (quaternion g)
               (setFromEuler (mkEuler (ex (pd_rotation data)) (ey (pd_rotation data))
                                      (ez (pd_rotation data)))) 0.1)
            (vlerp (scale g)
               (mkVector3 (pd_scale data) (pd_scale data) (pd_scale data)) 0.1)).
Proof.
  intros Hg. unfold step, useFrame. rewrite groupRef_render, Hg.
  unfold targets. cbn [TreeState_eqb andb]. reflexivity.
Qed.

(** In Formed mode a photo closes in on its tree position and its own
    scale geometrically: after k frames the offset of every coordinate is
    0.9^k times what it was, whatever the camera, the time and the
    focused id. *)
Theorem photo_settles_in_formed_mode :
  forall (data : UserPhotoData) (inputs : list (option string * FrameEnv))
         (s : PhotoFrameState (Q := Q)) (g : Group),
    groupRef s = Some g ->
    let k := List.length inputs in
    let c := 0.9 ^ k in
    let t := pd_tree data in
    let sc := pd_scale data in
    exists g',
      groupRef (runPhoto data
                  (map (fun ie => (TREE_SHAPE, fst ie, Frame (snd ie))) inputs) s)
      = Some g'
      /\ position g'
         = mkVector3 (vx t + c * (vx (position g) - vx t))
                     (vy t + c * (vy (position g) - vy t))
                     (vz t + c * (vz (position g) - vz t))
      /\ scale g'
         = mkVector3 (sc + c * (vx (scale g) - sc))
                     (sc + c * (vy (scale g) - sc))
                     (sc + c * (vz (scale g) - sc)).
Proof.
  intros data inputs. induction inputs as [| [id env] rest IH]; intros s g Hg; cbv zeta.
  - exists g. split; [exact Hg |]. cbn [List.length pow].
    destruct (position g) as [x y z], (scale g) as [a b c]. cbn [vx vy vz].
    split; f_equal; lra.
  - cbn [map runPhoto fst snd].
    pose proof (step_formed data id env s g Hg) as Hstep.
    destruct (IH _ _ Hstep) as (g' & Hrun & Hpos & Hscale).
    exists g'. split; [exact Hrun |].
    rewrite Hpos, Hscale. cbn [position scale List.length pow].
    unfold vlerp. cbn [vx vy vz].
    split; f_equal; lra.
Qed.

(** The wheel handler is registered only while the last effect run was
    for a focused frame in Focus mode. *)
Lemma render_listener (isFocused : bool) (state : TreeState)
    (s : PhotoFrameState (Q := Q)) :
  (wheelListener s = true -> effectDeps s = Some (true, FOCUS)) ->
  wheelListener (render isFocused state s) = true ->
  effectDeps (render isFocused state s) = Some (true, FOCUS).
Proof.
  intros H. unfold render.
  assert (Heff : wheelListener (zoomEffect isFocused state s) = true ->
                 effectDeps (zoomEffect isFocused state s) = Some (true, FOCUS)).
  { unfold zoomEffect. destruct isFocused, state; cbn; intros; congruence. }
  destruct (effectDeps s) as [[f st] |] eqn:Ed; [| exact Heff].
  destruct (Bool.eqb f isFocused && TreeState_eqb st state); [| exact Heff].
  intros Hl. rewrite Ed. exact (H Hl).
Qed.

Lemma step_listener (data : UserPhotoData) (state : TreeState)
    (focusedId : option string) (ev : Event) (s : PhotoFrameState (Q := Q)) :
  (wheelListener s = true -> effectDeps s = Some (true, FOCUS)) ->
  wheelListener (step data state focusedId ev s) = true ->
  effectDeps (step data state focusedId ev s) = Some (true, FOCUS).
Proof.
  intros H0.
  pose proof (render_listener (isFocusedOf focusedId data) state s H0) as H.
  unfold step. set (s1 := render (isFocusedOf focusedId data) state s) in *.
  destruct ev as [deltaY | env].
  - unfold wheel, handleWheel. destruct (wheelListener s1) eqn:E; cbn; auto.
    rewrite E. discriminate.
  - unfold useFrame. destruct (groupRef s1); [| exact H].
    destruct (targets data state (isFocusedOf focusedId data) env s1) as [[tp tr] ts].
    exact H.
Qed.

Lemma runPhoto_listener (data : UserPhotoData)
    (steps : list (TreeState * option string * Event)) (s : PhotoFrameState (Q := Q)) :
  (wheelListener s = true -> effectDeps s = Some (true, FOCUS)) ->
  wheelListener (runPhoto data steps s) = true ->
  effectDeps (runPhoto data steps s) = Some (true, FOCUS).
Proof.
  revert s. induction steps as [| [[state focusedId] ev] rest IH]; intros s H; simpl.
  - exact H.
  - apply IH. now apply step_listener.
Qed.

(** Scrolling changes the zoom distance of a photo only while that photo
    is the focused one in Focus mode: after any history since the mount,
    a wheel event under other props leaves the distance as it is and
    finds no handler registered. *)
Theorem wheel_ignored_outside_focus :
  forall (data : UserPhotoData) (steps : list (TreeState * option string * Event))
         (state : TreeState) (focusedId : option string) (deltaY : R),
    isFocusedOf focusedId data && TreeState_eqb state FOCUS = false ->
    let s := runPhoto data steps (mountFrame (Q := Q)) in
    focusDistance (step data state focusedId (Wheel deltaY) s) = focusDistance s
    /\ wheelListener (step data state focusedId (Wheel deltaY) s) = false.
Proof.
  intros data steps state focusedId deltaY Hout. cbv zeta.
  set (s := runPhoto data steps mountFrame).
  assert (Hinv : (wheelListener s = true -> effectDeps s = Some (true, FOCUS))).
  { apply runPhoto_listener. unfold mountFrame. cbn. discriminate. }
  unfold step. set (f := isFocusedOf focusedId data) in *. clearbody f.
  assert (Hr : wheelListener (render f state s) = false
               /\ focusDistance (render f state s) = focusDistance s).
  { unfold render.
    assert (Heff : wheelListener (zoomEffect f state s) = false
                   /\ focusDistance (zoomEffect f state s) = focusDistance s).
    { unfold zoomEffect. destruct f, state; cbn in *; try discriminate; split; reflexivity. }
    destruct (effectDeps s) as [[f0 st] |] eqn:Ed; [| exact Heff].
    destruct (Bool.eqb f0 f && TreeState_eqb st state) eqn:Eb; [| exact Heff].
    split; [| reflexivity].
    destruct (wheelListener s) eqn:El; [| reflexivity].
    specialize (Hinv eq_refl). injection Hinv as -> ->.
    apply andb_true_iff in Eb as [Hf Hst].
    destruct f; [| discriminate]. destruct state; discriminate. }
  destruct Hr as [Hl Hd]. unfold wheel. rewrite Hl. split; assumption.
Qed.


End PhotoFrameFacts.

Lemma photo_settles_in_formed_mode_witness :
  let data := UserPhotos.samplePhoto in
  let inputs := [(None, Scene.sampleEnv 0); (Some (UserPhotos.photoId 0), Scene.sampleEnv 1)] in
  let g := UserPhotos.mkGroup (Three.mkVector3 0 0 0) Quaternion.identity
             (Three.mkVector3 1 1 1) in
  let c := 0.9 ^ 2 in
  let t := Types.pd_tree data in
  let sc := Types.pd_scale data in
  exists g',
    UserPhotos.groupRef
      (UserPhotos.runPhoto data
         (map (fun ie => (Types.TREE_SHAPE, fst ie, UserPhotos.Frame (snd ie))) inputs)
         UserPhotos.mountFrame) = Some g'
    /\ UserPhotos.position g'
       = Three.mkVector3 (Three.vx t + c * (Three.vx (UserPhotos.position g) - Three.vx t))
           (Three.vy t + c * (Three.vy (UserPhotos.position g) - Three.vy t))
           (Three.vz t + c * (Three.vz (UserPhotos.position g) - Three.vz t))
    /\ UserPhotos.scale g'
       = Three.mkVector3 (sc + c * (Three.vx (UserPhotos.scale g) - sc))
           (sc + c * (Three.vy (UserPhotos.scale g) - sc))
           (sc + c * (Three.vz (UserPhotos.scale g) - sc)).
Proof.
  apply (photo_settles_in_formed_mode UserPhotos.samplePhoto
           [(None, Scene.sampleEnv 0); (Some (UserPhotos.photoId 0), Scene.sampleEnv 1)]
           UserPhotos.mountFrame
           (UserPhotos.mkGroup (Three.mkVector3 0 0 0) Quaternion.identity
              (Three.mkVector3 1 1 1))).
  reflexivity.
Defined.

Lemma wheel_ignored_outside_focus_witness :
  let focus := [(Types.FOCUS, Some (UserPhotos.photoId 0), UserPhotos.Wheel 100)] in
  let s := UserPhotos.runPhoto UserPhotos.samplePhoto focus
             (UserPhotos.mountFrame (Q := Quaternion.t)) in
  UserPhotos.focusDistance
    (UserPhotos.step UserPhotos.samplePhoto Types.SCATTERED
       (Some (UserPhotos.photoId 0)) (UserPhotos.Wheel 250) s)
  = UserPhotos.focusDistance s
  /\ UserPhotos.wheelListener
       (UserPhotos.step UserPhotos.samplePhoto Types.SCATTERED
          (Some (UserPhotos.photoId 0)) (UserPhotos.Wheel 250) s) = false.
Proof.
  apply (wheel_ignored_outside_focus UserPhotos.samplePhoto
           [(Types.FOCUS, Some (UserPhotos.photoId 0), UserPhotos.Wheel 100)]
           Types.SCATTERED (Some (UserPhotos.photoId 0)) 250).
  reflexivity.
Defined.


(* ===================================================================== *)
(** * Focus mode away from the focused photo *)
(* ===================================================================== *)

Section FocusModeFacts.
Import Three Random Types UserPhotos FocusMode.
Context {Q : Type} {qops : QuaternionOps Q}.

Lemma relaxed_tree (state : TreeState) :
  TreeState_eqb (relaxed state) TREE_SHAPE = TreeState_eqb state TREE_SHAPE.
Proof. destruct state; reflexivity. Qed.

Lemma targets_relaxed (data : UserPhotoData) (state : TreeState) (env : FrameEnv)
    (s1 s2 : PhotoFrameState (Q := Q)) :
  targets data state false env s1 = targets data (relaxed state) false env s2.
Proof. unfold targets. destruct state; reflexivity. Qed.

Lemma groupRef_step_relaxed (data : UserPhotoData) (state : TreeState)
    (focusedId : option string) (ev : Event) (s1 s2 : PhotoFrameState (Q := Q)) :
  isFocusedOf focusedId data = false ->
  groupRef s1 = groupRef s2 ->
  groupRef (step data state focusedId ev s1)
  = groupRef (step data (relaxed state) focusedId ev s2).
Proof.
  intros Hf Hg. unfold step. rewrite Hf. destruct ev as [deltaY | env].
  - now rewrite !groupRef_wheel, !groupRef_render.
  - unfold useFrame. rewrite !groupRef_render, <- Hg.
    destruct (groupRef s1) as [g |] eqn:E; [| rewrite !groupRef_render; congruence].
    rewrite (targets_relaxed data state env (render false state s1)
               (render false (relaxed state) s2)).
    destruct (targets data (relaxed state) false env (render false (relaxed state) s2))
      as [[tp tr] ts].
    reflexivity.
Qed.

(** The foliage, the ornaments and the gifts read the mode only through
    the test for Formed. *)
Lemma step_relaxed_groups (state : TreeState) (focusedId : option string)
    (ev : Scene.Event) (s1 s2 : Scene.Scene (Q := Q)) :
  Scene.foliage s1 = Scene.foliage s2 ->
  Scene.ornaments s1 = Scene.ornaments s2 ->
  Scene.giftsData s1 = Scene.giftsData s2 ->
  Scene.giftsRef s1 = Scene.giftsRef s2 ->
  let t1 := Scene.step state focusedId ev s1 in
  let t2 := Scene.step (relaxed state) focusedId ev s2 in
  Scene.foliage t1 = Scene.foliage t2
  /\ Scene.ornaments t1 = Scene.ornaments t2
  /\ Scene.giftsData t1 = Scene.giftsData t2
  /\ Scene.giftsRef t1 = Scene.giftsRef t2.
Proof.
  intros Hf Ho Hd Hg. cbv zeta.
  destruct ev as [delta env | deltaY]; cbn [Scene.step Scene.foliage Scene.ornaments
    Scene.giftsData Scene.giftsRef]; rewrite ?Hf, ?Ho, ?Hd, ?Hg; repeat split.
  - unfold Foliage.useFrame. now rewrite relaxed_tree.
  - unfold Ornaments.useFrame, Ornaments.targetMorphOf. now rewrite relaxed_tree.
  - unfold Gifts.useFrame. now rewrite relaxed_tree.
Qed.

Lemma execute_relaxed_groups (steps : list (TreeState * option string * Scene.Event))
    (s1 s2 : Scene.Scene (Q := Q)) :
  Scene.foliage s1 = Scene.foliage s2 ->
  Scene.ornaments s1 = Scene.ornaments s2 ->
  Scene.giftsData s1 = Scene.giftsData s2 ->
  Scene.giftsRef s1 = Scene.giftsRef s2 ->
  let t1 := Scene.execute steps s1 in
  let t2 := Scene.execute (map relax steps) s2 in
  Scene.foliage t1 = Scene.foliage t2
  /\ Scene.ornaments t1 = Scene.ornaments t2
  /\ Scene.giftsRef t1 = Scene.giftsRef t2.
Proof.
  revert s1 s2. induction steps as [| [[state id] ev] rest IH];
    intros s1 s2 Hf Ho Hd Hg; cbv zeta.
  - repeat split; assumption.
  - cbn [map Scene.execute]. unfold relax at 1. cbn [fst snd].
    destruct (step_relaxed_groups state id ev s1 s2 Hf Ho Hd Hg) as (Hf' & Ho' & Hd' & Hg').
    exact (IH _ _ Hf' Ho' Hd' Hg').
Qed.

Lemma photos_step (state : TreeState) (focusedId : option string) (ev : Scene.Event)
    (s : Scene.Scene (Q := Q)) :
  Scene.photos (Scene.step state focusedId ev s)
  = stepAll state focusedId
      (match ev with
       | Scene.Tick _ env => Frame env
       | Scene.Scroll deltaY => Wheel deltaY
       end) (Scene.photos s).
Proof. destruct ev; reflexivity. Qed.

Lemma execute_relaxed_photo (steps : list (TreeState * option string * Scene.Event))
    (s1 s2 : Scene.Scene (Q := Q)) (i : nat) (d : UserPhotoData)
    (a b : PhotoFrameState (Q := Q)) :
  nth_error (Scene.photos s1) i = Some (d, a) ->
  nth_error (Scene.photos s2) i = Some (d, b) ->
  groupRef a = groupRef b ->
  Forall (fun st => isFocusedOf (snd (fst st)) d = false) steps ->
  exists a' b',
    nth_error (Scene.photos (Scene.execute steps s1)) i = Some (d, a')
    /\ nth_error (Scene.photos (Scene.execute (map relax steps) s2)) i = Some (d, b')
    /\ groupRef a' = groupRef b'.
Proof.
  revert s1 s2 a b. induction steps as [| [[state id] ev] rest IH];
    intros s1 s2 a b H1 H2 Hg Hall.
  - exists a, b. repeat split; assumption.
  - inversion Hall as [| ? ? Hnf Hall']; subst. cbn [fst snd] in Hnf.
    cbn [map Scene.execute]. unfold relax at 1. cbn [fst snd].
    eapply IH; [| | | exact Hall'].
    + rewrite photos_step. unfold stepAll. rewrite nth_error_map, H1. reflexivity.
    + rewrite photos_step. unfold stepAll. rewrite nth_error_map, H2. reflexivity.
    + cbn [fst snd]. now apply groupRef_step_relaxed.
Qed.

(** Focus mode differs from Scattered mode for the focused photo only.
    Run the scene twice from the same start, with the same events and
    focused ids, once with the modes as given and once with every Focus
    replaced by Scattered: after every step the foliage uniforms, the
    ornament meshes and the gift mesh are the same, and so is the
    transform of every photo that was not the focused one at any step. *)
Theorem focus_mode_moves_only_the_focused_photo :
  forall (steps : list (TreeState * option string * Scene.Event))
         (s : Scene.Scene (Q := Q)) (k : nat),
    let s1 := Scene.execute (firstn k steps) s in
    let s2 := Scene.execute (firstn k (map relax steps)) s in
    Scene.foliage s1 = Scene.foliage s2
    /\ Scene.ornaments s1 = Scene.ornaments s2
    /\ Scene.giftsRef s1 = Scene.giftsRef s2
    /\ forall (i : nat) (d : UserPhotoData),
         nth_error (map fst (Scene.photos s)) i = Some d ->
         Forall (fun st => isFocusedOf (snd (fst st)) d = false) steps ->
         nth_error (transforms (Scene.photos s1)) i
         = nth_error (transforms (Scene.photos s2)) i.
Proof.
  intros steps s k. cbv zeta. rewrite firstn_map.
  destruct (execute_relaxed_groups (firstn k steps) s s eq_refl eq_refl eq_refl eq_refl)
    as (Hf & Ho & Hg).
  repeat split; try assumption.
  intros i d Hd Hall.
  rewrite nth_error_map in Hd.
  destruct (nth_error (Scene.photos s) i) as [[d0 a] |] eqn:E; [| discriminate].
  cbn in Hd. injection Hd as ->.
  destruct (execute_relaxed_photo (firstn k steps) s s i d a a E E eq_refl)
    as (a' & b' & H1 & H2 & Hab).
  { clear -Hall. revert k. induction Hall as [| x l Hx _ IH]; intros [| k]; simpl;
      constructor; auto. }
  unfold transforms. rewrite !nth_error_map, H1, H2. cbn. now rewrite Hab.
Qed.

End FocusModeFacts.

(* ===================================================================== *)
(** * The mode button *)
(* ===================================================================== *)

Section ModeButtonFacts.
Import Types.

(** A click on the mode button never enters Focus, always changes the
    caption of the button and flips the morph target of the tree between
    0 and 1; a second click brings back every mode but Focus, which a
    click leaves for Formed. *)
Theorem toggle_flips_caption_and_target :
  forall prev : TreeState,
    App.toggleState prev <> FOCUS
    /\ Overlay.buttonLabel (App.toggleState prev) <> Overlay.buttonLabel prev
    /\ Ornaments.targetMorphOf (App.toggleState prev) = 1 - Ornaments.targetMorphOf prev
    /\ (prev <> FOCUS -> App.toggleState (App.toggleState prev) = prev)
    /\ (prev = FOCUS -> App.toggleState prev = TREE_SHAPE).
Proof.
  intros prev. unfold App.toggleState, Overlay.buttonLabel, Overlay.isTree,
    Ornaments.targetMorphOf.
  destruct prev; cbn [TreeState_eqb]; repeat split; try discriminate;
    try reflexivity; try lra; try congruence.
Qed.

End ModeButtonFacts.
